(** * Othello environment: a shallow embedding of [othello_env.py]

    The Python classes [Board] and [OthelloGame] are modelled by explicit
    state passing.  A method of [Board] is a computation over the cell grid
    [self.board]; it returns the grid it leaves behind together with either
    a value or the exception it raised, so that a mutation made before an
    exception is still visible afterwards, as in Python.

    The file has four parts: the embedding of the source, the notions the
    properties are stated with, the lemmas and theorems about the
    specification's claims, and further properties of the code. *)

From Stdlib Require Import ZArith List Ascii String Bool Lia.
From stdpp Require Import base list strings numbers gmap.

Open Scope string_scope.
Open Scope list_scope.
Open Scope Z_scope.

(** * Part I: the embedding *)

(** ** Outcomes and the state/exception monad *)

Inductive exn : Type :=
| IndexError
| KeyError.

(** [OutOfFuel] is not a Python outcome: it marks a [while] loop of the model
    that was cut off by its iteration bound.  [is_valid_move_total] shows
    that no run of the embedding ever produces it. *)
Inductive outcome (A : Type) : Type :=
| Ok (a : A)
| Raise (e : exn)
| OutOfFuel.
Arguments Ok {A} a.
Arguments Raise {A} e.
Arguments OutOfFuel {A}.

Definition obind {A B} (o : outcome A) (k : A -> outcome B) : outcome B :=
  match o with
  | Ok a => k a
  | Raise e => Raise e
  | OutOfFuel => OutOfFuel
  end.

Definition M (S A : Type) : Type := S -> S * outcome A.

Definition ret {S A} (a : A) : M S A := fun s => (s, Ok a).

Definition bind {S A B} (m : M S A) (k : A -> M S B) : M S B :=
  fun s =>
    match m s with
    | (s', Ok a) => k a s'
    | (s', Raise e) => (s', Raise e)
    | (s', OutOfFuel) => (s', OutOfFuel)
    end.

(** A computation that only reads the state. *)
Definition reading {S A} (f : S -> outcome A) : M S A := fun s => (s, f s).

(** A computation that replaces the state when [f] succeeds. *)
Definition writing {S} (f : S -> outcome S) : M S unit :=
  fun s =>
    match f s with
    | Ok s' => (s', Ok tt)
    | Raise e => (s, Raise e)
    | OutOfFuel => (s, OutOfFuel)
    end.

Declare Scope py_scope.
Delimit Scope py_scope with py.
Notation "x <- m ;; k" := (bind m (fun x => k))
  (at level 100, m at next level, right associativity) : py_scope.
Notation "m ;; k" := (bind m (fun _ => k))
  (at level 100, right associativity) : py_scope.
Notation "x <~ o ;; k" := (obind o (fun x => k))
  (at level 100, o at next level, right associativity) : py_scope.
Open Scope py_scope.

(** [for a in l: body] *)
Fixpoint for_each {S A} (l : list A) (body : A -> M S unit) : M S unit :=
  match l with
  | [] => ret tt
  | a :: l' => body a ;; for_each l' body
  end.

(** [for a in l: acc = body acc a], for a loop that updates a local. *)
Fixpoint for_fold {S A B} (l : list A) (body : B -> A -> M S B) (acc : B) : M S B :=
  match l with
  | [] => ret acc
  | a :: l' => acc' <- body acc a ;; for_fold l' body acc'
  end.

(** The same for a loop that only reads. *)
Fixpoint ofold {A B} (l : list A) (body : B -> A -> outcome B) (acc : B) : outcome B :=
  match l with
  | [] => Ok acc
  | a :: l' => acc' <~ body acc a ;; ofold l' body acc'
  end.

(** ** Python list indexing *)

(** [l[i]] accepts [0 <= i < len(l)] and, counting from the end,
    [-len(l) <= i < 0]; any other index raises [IndexError]. *)
Definition py_index (len : nat) (i : Z) : option nat :=
  if (0 <=? i) && (i <? Z.of_nat len) then Some (Z.to_nat i)
  else if (- Z.of_nat len <=? i) && (i <? 0) then Some (Z.to_nat (Z.of_nat len + i))
  else None.

Definition getitem {A} (l : list A) (i : Z) : outcome A :=
  match py_index (length l) i with
  | Some k => match l !! k with
              | Some a => Ok a
              | None => Raise IndexError
              end
  | None => Raise IndexError
  end.

Definition setitem {A} (l : list A) (i : Z) (v : A) : outcome (list A) :=
  match py_index (length l) i with
  | Some k => Ok (<[k:=v]> l)
  | None => Raise IndexError
  end.

Definition range8 : list Z := [0; 1; 2; 3; 4; 5; 6; 7].

(** ** Static methods *)

Definition is_on_board (x y : Z) : bool :=
  (0 <=? x) && (x <=? 7) && ((0 <=? y) && (y <=? 7)).

Definition is_on_corner (x y : Z) : bool :=
  ((x =? 0) && (y =? 0)) || ((x =? 7) && (y =? 0))
  || ((x =? 0) && (y =? 7)) || ((x =? 7) && (y =? 7)).

(** ** class Board *)

(** [self.board]: a list of eight columns, each a list of eight one-character
    strings; [self.board[x][y]] is the cell in column [x], row [y]. *)
Abbreviation Board := (list (list string)).

(** [m[x][y]] on a list of lists. *)
Definition getitem2 {A} (m : list (list A)) (x y : Z) : outcome A :=
  col <~ getitem m x ;; getitem col y.

(** [m[x][y] = v]: the inner list is fetched, then updated in place. *)
Definition setitem2 {A} (x y : Z) (v : A) (m : list (list A)) : outcome (list (list A)) :=
  match py_index (length m) x with
  | Some k => match m !! k with
              | Some col => col' <~ setitem col y v ;; Ok (<[k:=col']> m)
              | None => Raise IndexError
              end
  | None => Raise IndexError
  end.

(** [self.board[x][y]] and [self.board[x][y] = v] *)
Definition get_cell (b : Board) (x y : Z) : outcome string := getitem2 b x y.

Definition set_cell (x y : Z) (v : string) (b : Board) : outcome Board :=
  setitem2 x y v b.

Definition read_cell (x y : Z) : M Board string :=
  reading (fun b => get_cell b x y).

Definition write_cell (x y : Z) (v : string) : M Board unit :=
  writing (set_cell x y v).

(** The grid built by the loop of [__init__], before it calls [reset]. *)
Definition blank_board : Board := replicate 8 (replicate 8 " ").

Definition reset : M Board unit :=
  for_each range8 (fun x => for_each range8 (fun y => write_cell x y " ")) ;;
  write_cell 3 3 "X" ;;
  write_cell 3 4 "O" ;;
  write_cell 4 3 "O" ;;
  write_cell 4 4 "X".

(** [__init__]: whatever [self.board] was, it becomes eight fresh columns of
    eight blanks, and is then reset. *)
Definition Board__init__ : M Board unit :=
  writing (fun _ => Ok blank_board) ;;
  reset.

(** What [is_valid_move] returns: [False], or the list of cells to flip. *)
Inductive flips_or_false : Type :=
| PyFalse
| Tiles (tiles_to_flip : list (Z * Z)).

(** Python truth value: [False] and the empty list are false. *)
Definition truthy (r : flips_or_false) : bool :=
  match r with
  | PyFalse => false
  | Tiles l => negb (Nat.eqb (length l) 0)
  end.

Definition DIRECTIONS : list (Z * Z) :=
  [(0, 1); (1, 1); (1, 0); (1, -1); (0, -1); (-1, -1); (-1, 0); (-1, 1)].

(** Iteration bound of the two [while] loops of [is_valid_move]. *)
Definition walk_fuel : nat := 8.

(** [while self.board[x][y] == other_tile: x += dx; y += dy;
     if not is_on_board(x, y): break];
    the result is the position at which the loop was left. *)
Fixpoint while_other (fuel : nat) (b : Board) (other_tile : string)
    (x_direction y_direction x y : Z) : outcome (Z * Z) :=
  match fuel with
  | O => OutOfFuel
  | S fuel' =>
      c <~ get_cell b x y ;;
      if String.eqb c other_tile then
        let x := x + x_direction in
        let y := y + y_direction in
        if negb (is_on_board x y) then Ok (x, y)
        else while_other fuel' b other_tile x_direction y_direction x y
      else Ok (x, y)
  end.

(** [while True: x -= dx; y -= dy; if x == x_start and y == y_start: break;
     tiles_to_flip.append([x, y])] *)
Fixpoint walk_back (fuel : nat) (x_direction y_direction x_start y_start x y : Z)
    (tiles_to_flip : list (Z * Z)) : outcome (list (Z * Z)) :=
  match fuel with
  | O => OutOfFuel
  | S fuel' =>
      let x := x - x_direction in
      let y := y - y_direction in
      if (x =? x_start) && (y =? y_start) then Ok tiles_to_flip
      else walk_back fuel' x_direction y_direction x_start y_start x y
             (tiles_to_flip ++ [(x, y)])
  end.

(** The body of the [for x_direction, y_direction in [...]] loop. *)
Definition scan_direction (b : Board) (tile other_tile : string) (x_start y_start : Z)
    (tiles_to_flip : list (Z * Z)) (d : Z * Z) : outcome (list (Z * Z)) :=
  let '(x_direction, y_direction) := d in
  let x := x_start + x_direction in
  let y := y_start + y_direction in
  if negb (is_on_board x y) then Ok tiles_to_flip else
  c <~ get_cell b x y ;;
  if negb (String.eqb c other_tile) then Ok tiles_to_flip else
  let x := x + x_direction in
  let y := y + y_direction in
  if negb (is_on_board x y) then Ok tiles_to_flip else
  p <~ while_other walk_fuel b other_tile x_direction y_direction x y ;;
  let '(x, y) := p in
  if negb (is_on_board x y) then Ok tiles_to_flip else
  c <~ get_cell b x y ;;
  if String.eqb c tile then
    walk_back walk_fuel x_direction y_direction x_start y_start x y tiles_to_flip
  else Ok tiles_to_flip.

Definition is_valid_move (tile : string) (x_start y_start : Z) : M Board flips_or_false :=
  c <- read_cell x_start y_start ;;
  if negb (String.eqb c " ") || negb (is_on_board x_start y_start) then ret PyFalse
  else
    write_cell x_start y_start tile ;;
    let other_tile := if String.eqb tile "X" then "O" else "X" in
    tiles_to_flip <-
      reading (fun b => ofold DIRECTIONS
                          (scan_direction b tile other_tile x_start y_start) []) ;;
    write_cell x_start y_start " " ;;
    if Nat.eqb (length tiles_to_flip) 0 then ret PyFalse
    else ret (Tiles tiles_to_flip).

Definition get_valid_moves (tile : string) : M Board (list (Z * Z)) :=
  for_fold range8 (fun valid_moves x =>
    for_fold range8 (fun valid_moves y =>
      r <- is_valid_move tile x y ;;
      if truthy r then ret (valid_moves ++ [(x, y)]) else ret valid_moves)
      valid_moves) [].

(** [get_score] returns the dictionary [{'X': x_score, 'O': o_score}]. *)
Definition get_score (b : Board) : outcome (gmap string Z) :=
  scores <~
    ofold range8 (fun acc x =>
      ofold range8 (fun '(x_score, o_score) y =>
        c <~ get_cell b x y ;;
        if String.eqb c "X" then Ok (x_score + 1, o_score)
        else if String.eqb c "O" then Ok (x_score, o_score + 1)
        else Ok (x_score, o_score)) acc) (0, 0) ;;
  let '(x_score, o_score) := scores in
  Ok (<["X" := x_score]> (<["O" := o_score]> ∅)).

Definition make_move (tile : string) (x_start y_start : Z) : M Board bool :=
  tiles_to_flip <- is_valid_move tile x_start y_start ;;
  match tiles_to_flip with
  | PyFalse => ret false
  | Tiles l =>
      if negb (truthy tiles_to_flip) then ret false
      else
        write_cell x_start y_start tile ;;
        for_each l (fun '(x, y) => write_cell x y tile) ;;
        ret true
  end.

(** [copy] builds a fresh [Board()] and copies [self] into it cell by cell;
    [self] is only read. *)
Definition copy (self : Board) : outcome Board :=
  let '(dupe_board, r) :=
    (Board__init__ ;;
     for_each range8 (fun x => for_each range8 (fun y =>
       c <- reading (fun _ => get_cell self x y) ;;
       write_cell x y c))) [] in
  _ <~ r ;; Ok dupe_board.

(** The 8x8 numpy array of [list_to_array].  Its entries are only ever the
    floats 0.0, 1.0 and -1.0, which are exact, so they are modelled in [Z]. *)
Abbreviation Matrix := (list (list Z)).

(** [np.zeros((8, 8))] *)
Definition zeros8 : Matrix := replicate 8 (replicate 8 0).

Definition list_to_array (self : Board) : outcome Matrix :=
  ofold range8 (fun state i =>
    ofold range8 (fun state j =>
      c <~ get_cell self j i ;;
      if String.eqb c "X" then setitem2 i j 1 state
      else if String.eqb c "O" then setitem2 i j (-1) state
      else setitem2 i j 0 state) state) zeros8.

Definition array_to_list (state : Matrix) : M Board Board :=
  for_each range8 (fun i => for_each range8 (fun j =>
    v <- reading (fun _ => getitem2 state i j) ;;
    if v =? 1 then write_cell j i "X"
    else if v =? -1 then write_cell j i "O"
    else write_cell j i " ")) ;;
  reading (fun b => Ok b).

(** [draw] prints the grid; of this only the reads of [self.board[x][y]],
    which can raise, are modelled. *)
Definition draw : M Board unit :=
  for_each range8 (fun y => for_each range8 (fun x =>
    _ <- read_cell x y ;; ret tt)).

(** ** class OthelloGame *)

Record OthelloGame : Type := {
  board : Board;
  player_tile : string;
  computer_tile : string;
  player_score : Z;
  computer_score : Z;
  interactive : bool;
  stepper : bool;
  show_hints : bool
}.

(** [self.board = b] *)
Definition set_board (b : Board) (self : OthelloGame) : OthelloGame :=
  {| board := b;
     player_tile := player_tile self;
     computer_tile := computer_tile self;
     player_score := player_score self;
     computer_score := computer_score self;
     interactive := interactive self;
     stepper := stepper self;
     show_hints := show_hints self |}.

(** [self.player_score = 0; self.computer_score = 0] *)
Definition clear_scores (self : OthelloGame) : OthelloGame :=
  {| board := board self;
     player_tile := player_tile self;
     computer_tile := computer_tile self;
     player_score := 0;
     computer_score := 0;
     interactive := interactive self;
     stepper := stepper self;
     show_hints := show_hints self |}.

(** Run a method of [Board] on the object [self.board]. *)
Definition on_self_board {A} (m : M Board A) : M OthelloGame A :=
  fun self => let '(b, r) := m (board self) in (set_board b self, r).

(** Run a method of [Board] on a [Board] object held in a local variable;
    the object after the call is returned with the method's value. *)
Definition on_local {A} (m : M Board A) (obj : Board) : M OthelloGame (Board * A) :=
  fun self => let '(obj', r) := m obj in (self, a <~ r ;; Ok (obj', a)).

(** [OthelloGame.__init__]; its [opponent] argument is not used by the
    source and is left out. *)
Definition OthelloGame__init__ (interactive show_steps : bool) : outcome OthelloGame :=
  let '(b, r) := Board__init__ [] in
  _ <~ r ;;
  Ok {| board := b;
        player_tile := "X";
        computer_tile := "O";
        player_score := 0;
        computer_score := 0;
        interactive := interactive;
        stepper := show_steps;
        show_hints := false |}.

(** [OthelloGame.reset] (the name [reset] is taken by [Board.reset]). *)
Definition game_reset : M OthelloGame unit :=
  on_self_board reset ;;
  writing (fun self => Ok (clear_scores self)).

(** [OthelloGame.get_state] *)
Definition get_state : M OthelloGame Matrix :=
  reading (fun self => list_to_array (board self)).

(** [OthelloGame.step] returns the triple [(reward, self.board, terminal)].
    [next_board] is a [Board] object of its own, so the calls on it leave
    [self.board] alone until the final assignment.  The [print] calls of the
    [self.stepper] branch are not modelled, only what they evaluate. *)
Definition step (action : Z * Z) : M OthelloGame (Z * Board * bool) :=
  let reward := 0 in
  let terminal := false in
  next_board <- reading (fun self => copy (board self)) ;;
  tile <- reading (fun self => Ok (player_tile self)) ;;
  valid <- on_self_board (is_valid_move tile (fst action) (snd action)) ;;
  if negb (truthy valid) then
    reading (fun self => Ok (-10, board self, terminal))
  else
    tile <- reading (fun self => Ok (player_tile self)) ;;
    moved <- on_local (make_move tile (fst action) (snd action)) next_board ;;
    let next_board := fst moved in
    show <- reading (fun self => Ok (stepper self)) ;;
    shown <- (if show : bool then
                drawn <- on_local draw next_board ;;
                _ <- reading (fun _ => list_to_array (fst drawn)) ;;
                ret (fst drawn)
              else ret next_board) ;;
    let next_board := shown in
    tile <- reading (fun self => Ok (player_tile self)) ;;
    mine <- on_local (get_valid_moves tile) next_board ;;
    let next_board := fst mine in
    over <- (if negb (Nat.eqb (length (snd mine)) 0) then ret (next_board, false)
             else
               tile <- reading (fun self => Ok (computer_tile self)) ;;
               theirs <- on_local (get_valid_moves tile) next_board ;;
               ret (fst theirs, Nat.eqb (length (snd theirs)) 0)) ;;
    let next_board := fst over in
    result <- (if snd over : bool then
                 reading (fun self =>
                   Ok (if player_score self >? computer_score self then 1
                       else if player_score self <? computer_score self then -1
                       else 0, true))
               else ret (reward, terminal)) ;;
    let '(reward, terminal) := result in
    final <- reading (fun _ => copy next_board) ;;
    writing (fun self => Ok (set_board final self)) ;;
    reading (fun self => Ok (reward, board self, terminal)).

(** ** Further methods *)

(** [Board.copy_with_valid_moves]: a copy of [self] with ['.'] written on
    every move [get_valid_moves] finds on the copy; [self] is only read. *)
Definition copy_with_valid_moves (tile : string) (self : Board) : outcome Board :=
  dupe_board <~ copy self ;;
  let '(dupe_board, r) :=
    (moves <- get_valid_moves tile ;;
     for_each moves (fun '(x, y) => write_cell x y ".")) dupe_board in
  _ <~ r ;; Ok dupe_board.

(** [for x, y in possible_moves: if is_on_corner(x, y): return [x, y]]:
    the move the loop returns, if it returns. *)
Fixpoint first_corner (possible_moves : list (Z * Z)) : option (Z * Z) :=
  match possible_moves with
  | [] => None
  | (x, y) :: rest => if is_on_corner x y then Some (x, y) else first_corner rest
  end.

(** [scores[tile]] on the dictionary of [get_score]. *)
Definition score_of (scores : gmap string Z) (tile : string) : outcome Z :=
  match scores !! tile with
  | Some v => Ok v
  | None => Raise KeyError
  end.

(** [OthelloGame.get_computer_move].  [random.shuffle] is not modelled: the
    order it leaves the list in is given by the argument [shuffle].  The
    result is the list [[x, y]], or [[]] when no move was found. *)
Definition get_computer_move (shuffle : list (Z * Z) -> list (Z * Z))
    : M OthelloGame (list Z) :=
  tile <- reading (fun self => Ok (computer_tile self)) ;;
  possible_moves <- on_self_board (get_valid_moves tile) ;;
  let possible_moves := shuffle possible_moves in
  match first_corner possible_moves with
  | Some (x, y) => ret [x; y]
  | None =>
      let best_score := -1 in
      let best_move := [] in
      best <- for_fold possible_moves (fun best '(x, y) =>
        let '(best_score, best_move) := best in
        dupe_board <- reading (fun self => copy (board self)) ;;
        tile <- reading (fun self => Ok (computer_tile self)) ;;
        moved <- on_local (make_move tile x y) dupe_board ;;
        let dupe_board := fst moved in
        tile <- reading (fun self => Ok (computer_tile self)) ;;
        score <- reading (fun _ => scores <~ get_score dupe_board ;; score_of scores tile) ;;
        if score >? best_score then ret (score, [x; y])
        else ret (best_score, best_move)) (best_score, best_move) ;;
      ret (snd best)
  end.

(** ** Methods that read the keyboard *)

(** Standard input is the list of the lines still to be read.  A method that
    calls [input()] ends with a result and the lines it left, or with
    [EOFError] when it asks for a line and none is left.  The [print] calls
    are not modelled.  [str.upper] and [str.lower] are arguments. *)
Inductive io_outcome (A : Type) : Type :=
| Done (o : outcome A) (rest : list string)
| EOFError.
Arguments Done {A} o rest.
Arguments EOFError {A}.

(** [tile = input().upper()] until [tile] is ['X'] or ['O']. *)
Fixpoint read_tile (upper : string -> string) (inputs : list string)
    : io_outcome string :=
  match inputs with
  | [] => EOFError
  | line :: rest =>
      let tile := upper line in
      if String.eqb tile "X" || String.eqb tile "O" then Done (Ok tile) rest
      else read_tile upper rest
  end.

(** [self.player_tile, self.computer_tile = assigned_tiles] *)
Definition set_tiles (player computer : string) (self : OthelloGame) : OthelloGame :=
  {| board := board self;
     player_tile := player;
     computer_tile := computer;
     player_score := player_score self;
     computer_score := computer_score self;
     interactive := interactive self;
     stepper := stepper self;
     show_hints := show_hints self |}.

(** [OthelloGame.choose_player_tile] *)
Definition choose_player_tile (upper : string -> string) (inputs : list string)
    (self : OthelloGame) : OthelloGame * io_outcome unit :=
  match read_tile upper inputs with
  | Done (Ok tile) rest =>
      let '(player, computer) :=
        if String.eqb tile "X" then ("X", "O") else ("O", "X") in
      (set_tiles player computer self, Done (Ok tt) rest)
  | Done (Raise e) rest => (self, Done (Raise e) rest)
  | Done OutOfFuel rest => (self, Done OutOfFuel rest)
  | EOFError => (self, EOFError)
  end.

(** What [get_player_action] returns: ['quit'], ['hints'] or [[x, y]]. *)
Inductive player_action : Type :=
| Quit
| Hints
| MoveAt (x y : Z).

(** [c in valid_digits], for the one-character string [c]. *)
Definition valid_digit (c : ascii) : bool :=
  existsb (Ascii.eqb c) ["1"; "2"; "3"; "4"; "5"; "6"; "7"; "8"]%char.

(** [int(c)] for a digit [c]. *)
Definition int_digit (c : ascii) : Z := Z.of_nat (nat_of_ascii c) - 48.

(** [OthelloGame.get_player_action]: one round of the [while True] loop per
    line read. *)
Fixpoint get_player_action (lower : string -> string) (inputs : list string)
    (self : OthelloGame) : OthelloGame * io_outcome player_action :=
  match inputs with
  | [] => (self, EOFError)
  | line :: rest =>
      let player_action := lower line in
      if String.eqb player_action "quit" then (self, Done (Ok Quit) rest)
      else if String.eqb player_action "hints" then (self, Done (Ok Hints) rest)
      else
        match player_action with
        | String c0 (String c1 EmptyString) =>
            if valid_digit c0 && valid_digit c1 then
              let x := int_digit c0 - 1 in
              let y := int_digit c1 - 1 in
              match on_self_board (is_valid_move (player_tile self) x y) self with
              | (self, Ok valid) =>
                  if negb (truthy valid) then get_player_action lower rest self
                  else (self, Done (Ok (MoveAt x y)) rest)
              | (self, Raise e) => (self, Done (Raise e) rest)
              | (self, OutOfFuel) => (self, Done OutOfFuel rest)
              end
            else get_player_action lower rest self
        | _ => get_player_action lower rest self
        end
  end.

(** ** The interactive program *)

(** [self.show_hints = v] *)
Definition set_show_hints (v : bool) (self : OthelloGame) : OthelloGame :=
  {| board := board self;
     player_tile := player_tile self;
     computer_tile := computer_tile self;
     player_score := player_score self;
     computer_score := computer_score self;
     interactive := interactive self;
     stepper := stepper self;
     show_hints := v |}.

(** [self.player_score = v] *)
Definition set_player_score (v : Z) (self : OthelloGame) : OthelloGame :=
  {| board := board self;
     player_tile := player_tile self;
     computer_tile := computer_tile self;
     player_score := v;
     computer_score := computer_score self;
     interactive := interactive self;
     stepper := stepper self;
     show_hints := show_hints self |}.

(** [self.computer_score = v] *)
Definition set_computer_score (v : Z) (self : OthelloGame) : OthelloGame :=
  {| board := board self;
     player_tile := player_tile self;
     computer_tile := computer_tile self;
     player_score := player_score self;
     computer_score := v;
     interactive := interactive self;
     stepper := stepper self;
     show_hints := show_hints self |}.

(** [OthelloGame.show_points]: the two dictionary lookups of the message it
    prints. *)
Definition show_points : M OthelloGame unit :=
  scores <- reading (fun self => get_score (board self)) ;;
  tile <- reading (fun self => Ok (player_tile self)) ;;
  _ <- reading (fun _ => score_of scores tile) ;;
  tile <- reading (fun self => Ok (computer_tile self)) ;;
  _ <- reading (fun _ => score_of scores tile) ;;
  ret tt.

(** What the program runs in: the game object, the lines standard input
    still holds, and how often [get_computer_move] has been called, which
    decides the order the next [random.shuffle] leaves. *)
Record world : Type := {
  game : OthelloGame;
  stdin : list string;
  computer_moves : nat
}.

(** How a run ends when it does not return: [sys.exit()], [EOFError] from
    [input()], [ValueError] from unpacking [x, y = []], an exception of a
    method, or the iteration bound of the model. *)
Inductive ending : Type :=
| SystemExit
| EndOfInput
| ValueError
| Raised (e : exn)
| Cut.

Definition Prog (A : Type) : Type := world -> world * (A + ending).

#[global] Instance Prog_ret : MRet Prog := fun A a w => (w, inl a).

#[global] Instance Prog_bind : MBind Prog := fun A B k m w =>
  match m w with
  | (w', inl a) => k a w'
  | (w', inr e) => (w', inr e)
  end.

Definition stop {A} (e : ending) : Prog A := fun w => (w, inr e).

Definition ended {A} (o : outcome A) : A + ending :=
  match o with
  | Ok a => inl a
  | Raise e => inr (Raised e)
  | OutOfFuel => inr Cut
  end.

(** A method of the game that does not read the keyboard. *)
Definition in_game {A} (m : M OthelloGame A) : Prog A := fun w =>
  let '(g, r) := m (game w) in
  ({| game := g; stdin := stdin w; computer_moves := computer_moves w |}, ended r).

(** A method of the game that reads the keyboard. *)
Definition from_keyboard {A}
    (method : list string -> OthelloGame -> OthelloGame * io_outcome A) : Prog A :=
  fun w =>
    match method (stdin w) (game w) with
    | (g, Done r rest) =>
        ({| game := g; stdin := rest; computer_moves := computer_moves w |}, ended r)
    | (g, EOFError) =>
        ({| game := g; stdin := []; computer_moves := computer_moves w |},
         inr EndOfInput)
    end.

(** [input()] *)
Definition input : Prog string := fun w =>
  match stdin w with
  | [] => (w, inr EndOfInput)
  | line :: rest =>
      ({| game := game w; stdin := rest; computer_moves := computer_moves w |},
       inl line)
  end.

(** [self.get_computer_move()], with the shuffle of this call. *)
Definition computer_move (shuffle : nat -> list (Z * Z) -> list (Z * Z))
    : Prog (list Z) := fun w =>
  let '(w', r) := in_game (get_computer_move (shuffle (computer_moves w))) w in
  ({| game := game w'; stdin := stdin w'; computer_moves := S (computer_moves w) |}, r).

(** The local variable [turn], which holds ['player'] or ['computer']. *)
Inductive turn : Type :=
| player
| computer.

(** How one round of the inner [while True] loop ends: with [break], or at
    its end or at [continue] with the value of [turn]. *)
Inductive flow : Type :=
| Break
| Next (t : turn).

(** The branch [if turn == 'player'] of the inner loop. *)
Definition players_turn (lower : string -> string) : Prog flow :=
  hints ← in_game (reading (fun self => Ok (show_hints self)));
  _ ← (if hints : bool then
         in_game (tile <- reading (fun self => Ok (player_tile self)) ;;
                  valid_moves_board <-
                    reading (fun self => copy_with_valid_moves tile (board self)) ;;
                  _ <- on_local draw valid_moves_board ;;
                  _ <- reading (fun self => list_to_array (board self)) ;;
                  ret tt)
       else in_game (on_self_board draw));
  _ ← in_game show_points;
  player_action ← from_keyboard (get_player_action lower);
  match player_action with
  | Quit => stop SystemExit
  | Hints =>
      _ ← in_game (writing (fun self =>
                     Ok (set_show_hints (negb (show_hints self)) self)));
      mret (Next player)
  | MoveAt x y =>
      _ ← in_game (tile <- reading (fun self => Ok (player_tile self)) ;;
                   on_self_board (make_move tile x y));
      theirs ← in_game (tile <- reading (fun self => Ok (computer_tile self)) ;;
                        on_self_board (get_valid_moves tile));
      if Nat.eqb (length theirs) 0 then
        mine ← in_game (tile <- reading (fun self => Ok (player_tile self)) ;;
                        on_self_board (get_valid_moves tile));
        if Nat.eqb (length mine) 0 then mret Break else mret (Next player)
      else mret (Next computer)
  end.

(** The [else] branch of the inner loop. *)
Definition computers_turn (shuffle : nat -> list (Z * Z) -> list (Z * Z))
    : Prog flow :=
  _ ← in_game (on_self_board draw);
  _ ← in_game show_points;
  _ ← input;
  move ← computer_move shuffle;
  match move with
  | [x; y] =>
      _ ← in_game (tile <- reading (fun self => Ok (computer_tile self)) ;;
                   on_self_board (make_move tile x y));
      mine ← in_game (tile <- reading (fun self => Ok (player_tile self)) ;;
                      on_self_board (get_valid_moves tile));
      if Nat.eqb (length mine) 0 then
        theirs ← in_game (tile <- reading (fun self => Ok (computer_tile self)) ;;
                          on_self_board (get_valid_moves tile));
        if Nat.eqb (length theirs) 0 then mret Break else mret (Next computer)
      else mret (Next player)
  | _ => stop ValueError
  end.

(** The inner [while True] loop, from the value [t] of [turn]. *)
Fixpoint play (fuel : nat) (lower : string -> string)
    (shuffle : nat -> list (Z * Z) -> list (Z * Z)) (t : turn) : Prog unit :=
  match fuel with
  | O => stop Cut
  | S fuel =>
      next ← match t with
             | player => players_turn lower
             | computer => computers_turn shuffle
             end;
      match next with
      | Break => mret tt
      | Next t => play fuel lower shuffle t
      end
  end.

(** What follows the inner loop: the final score goes to the two fields. *)
Definition final_score : Prog unit :=
  _ ← in_game (on_self_board draw);
  in_game (scores <- reading (fun self => get_score (board self)) ;;
           tile <- reading (fun self => Ok (player_tile self)) ;;
           v <- reading (fun _ => score_of scores tile) ;;
           writing (fun self => Ok (set_player_score v self)) ;;
           tile <- reading (fun self => Ok (computer_tile self)) ;;
           v <- reading (fun _ => score_of scores tile) ;;
           writing (fun self => Ok (set_computer_score v self))).

(** The lines standard input still holds; the model bounds its loops by
    their number. *)
Definition lines_left : Prog nat := fun w => (w, inl (length (stdin w))).

(** One round of the outer [while True] loop: one game.  Every round of the
    inner loop reads a line, so the lines left bound its rounds. *)
Definition one_game (lower upper : string -> string)
    (shuffle : nat -> list (Z * Z) -> list (Z * Z)) : Prog unit :=
  _ ← in_game (on_self_board reset);
  _ ← from_keyboard (choose_player_tile upper);
  _ ← in_game (writing (fun self => Ok (set_show_hints true self)));
  tile ← in_game (reading (fun self => Ok (player_tile self)));
  let t := if String.eqb tile "X" then player else computer in
  lines ← lines_left;
  _ ← play (S lines) lower shuffle t;
  final_score.

(** The outer [while True] loop; it has no [break]. *)
Fixpoint games (fuel : nat) (lower upper : string -> string)
    (shuffle : nat -> list (Z * Z) -> list (Z * Z)) : Prog unit :=
  match fuel with
  | O => stop Cut
  | S fuel =>
      _ ← one_game lower upper shuffle;
      games fuel lower upper shuffle
  end.

(** [OthelloGame.run_interactive].  Every game reads a line, so the lines
    left bound the games. *)
Definition run_interactive (lower upper : string -> string)
    (shuffle : nat -> list (Z * Z) -> list (Z * Z)) : Prog unit :=
  lines ← lines_left;
  games (S lines) lower upper shuffle.

(** [OthelloGame.start]; the local [turn] of its second branch is not used. *)
Definition start (lower upper : string -> string)
    (shuffle : nat -> list (Z * Z) -> list (Z * Z)) : Prog unit :=
  i ← in_game (reading (fun self => Ok (interactive self)));
  if i : bool then run_interactive lower upper shuffle
  else
    _ ← in_game (on_self_board reset);
    _ ← from_keyboard (choose_player_tile upper);
    in_game (writing (fun self => Ok (set_show_hints false self))).

(** * Part II: the notions the properties are stated with *)

(** ** Boards and games *)

(** An 8x8 list of lists. *)
Definition wf8 {A} (m : list (list A)) : Prop :=
  length m = 8%nat /\ Forall (fun col => length col = 8%nat) m.

(** The three cell values of the data model: Empty, Black, White. *)
Definition cell_ok (c : string) : Prop := c = " " \/ c = "X" \/ c = "O".

Definition cells_ok (b : Board) : Prop := Forall (Forall cell_ok) b.

(** The board invariant: 8x8, every cell Empty, Black or White. *)
Definition board_inv (b : Board) : Prop := wf8 b /\ cells_ok b.

(** The board of a freshly constructed [Board()], i.e. after [reset]. *)
Definition initial_board : Board := fst (Board__init__ []).

(** Boards reachable from the reset board by [make_move] calls, with any
    string as tile and any integers as coordinates; the board left behind by
    a call that raised counts as reached too. *)
Inductive reachable : Board -> Prop :=
| reach_reset : reachable initial_board
| reach_move b tile x y :
    reachable b -> reachable (fst (make_move tile x y b)).

(** Number of cells of [b] holding [v]. *)
Definition count_cells (v : string) (b : Board) : Z :=
  Z.of_nat (count_occ string_dec (concat b) v).

(** One step of the counting loop of [get_score]. *)
Definition score_step (acc : Z * Z) (c : string) : outcome (Z * Z) :=
  let '(x_score, o_score) := acc in
  if String.eqb c "X" then Ok (x_score + 1, o_score)
  else if String.eqb c "O" then Ok (x_score, o_score + 1)
  else Ok (x_score, o_score).

(** The numeric code of a cell and back, as in [list_to_array] and
    [array_to_list]. *)
Definition encode (c : string) : Z :=
  if String.eqb c "X" then 1 else if String.eqb c "O" then -1 else 0.

Definition decode (v : Z) : string :=
  if v =? 1 then "X" else if v =? -1 then "O" else " ".

(** The matrix [list_to_array] builds: entry [i, j] encodes cell
    [self.board[j][i]]. *)
Definition matrix_of (b : Board) : Matrix :=
  map (fun i => map (fun col => encode (nth i col " ")) b) (seq 0 8).

(** The board [array_to_list] builds: cell [j][i] decodes entry [i, j]. *)
Definition board_of (state : Matrix) : Board :=
  map (fun j => map (fun row => decode (nth j row 0)) state) (seq 0 8).

(** ** Captures, as the specification describes them *)

(** The opposite colour, as [is_valid_move] computes [other_tile]. *)
Definition opposite (tile : string) : string :=
  if String.eqb tile "X" then "O" else "X".

(** Section 4.2 of the specification, step 2: walk outward from a cell while
    the cells hold the opposite colour; the walk captures the cells it
    traversed, nearest first, if it ends on a cell of the mover's colour, and
    nothing if it runs off the board or ends on any other cell.  [n] bounds
    the number of cells looked at; a walk leaves the board within eight. *)
Fixpoint spec_walk (n : nat) (b : Board) (tile other : string) (dx dy x y : Z)
    : option (list (Z * Z)) :=
  match n with
  | O => None
  | S n' =>
      if is_on_board x y then
        match get_cell b x y with
        | Ok c =>
            if String.eqb c other
            then option_map (cons (x, y))
                   (spec_walk n' b tile other dx dy (x + dx) (y + dy))
            else if String.eqb c tile then Some [] else None
        | _ => None
        end
      else None
  end.

(** The cells captured in direction [d] by a move at [(x, y)], nearest to
    [(x, y)] first. *)
Definition spec_direction (b : Board) (tile : string) (x y : Z) (d : Z * Z)
    : list (Z * Z) :=
  match spec_walk 8 b tile (opposite tile) (fst d) (snd d) (x + fst d) (y + snd d) with
  | Some l => l
  | None => []
  end.

(** Step 3 as the specification words it: directions in the enumerated
    order, nearest cell first within a direction. *)
Definition flips_nearest_first (b : Board) (tile : string) (x y : Z) : list (Z * Z) :=
  concat (map (spec_direction b tile x y) DIRECTIONS).

(** The same directions in the same order, farthest cell first within a
    direction. *)
Definition flips_farthest_first (b : Board) (tile : string) (x y : Z) : list (Z * Z) :=
  concat (map (fun d => rev (spec_direction b tile x y d)) DIRECTIONS).

(** What [is_valid_move] computes at a cell of the board: the captures of
    the eight directions, each farthest cell first, or [False]. *)
Definition evaluate (b : Board) (tile : string) (x y : Z) : flips_or_false :=
  if is_on_board x y then
    match get_cell b x y with
    | Ok c =>
        if String.eqb c " " then
          let l := flips_farthest_first b tile x y in
          if Nat.eqb (length l) 0 then PyFalse else Tiles l
        else PyFalse
    | _ => PyFalse
    end
  else PyFalse.

(** All 64 coordinates in the order [get_valid_moves] visits them. *)
Definition all_cells : list (Z * Z) :=
  concat (map (fun x => map (fun y => (x, y)) range8) range8).

(** The legal moves of a colour, in the order [get_valid_moves] finds them. *)
Definition legal_moves (b : Board) (tile : string) : list (Z * Z) :=
  List.filter (fun p => truthy (evaluate b tile (fst p) (snd p))) all_cells.

(** ** Games *)

(** A game whose board is 8x8. *)
Definition wf_game (g : OthelloGame) : Prop := wf8 (board g).

(** Both tile fields are the same in two game states. *)
Definition same_tiles (g g' : OthelloGame) : Prop :=
  player_tile g' = player_tile g /\ computer_tile g' = computer_tile g.

(** The terminal test of [step] on the board after the move. *)
Definition game_over (nb : Board) (g : OthelloGame) : bool :=
  Nat.eqb (length (legal_moves nb (player_tile g))) 0
  && Nat.eqb (length (legal_moves nb (computer_tile g))) 0.

(** The reward [step] computes when the game is over: the comparison of the
    two score fields of the game object. *)
Definition field_reward (g : OthelloGame) : Z :=
  if player_score g >? computer_score g then 1
  else if player_score g <? computer_score g then -1
  else 0.

(** Consecutive [step] calls. *)
Fixpoint steps (actions : list (Z * Z)) (g : OthelloGame) : OthelloGame :=
  match actions with
  | [] => g
  | action :: rest => steps rest (fst (step action g))
  end.

(** The game object right after [OthelloGame(interactive=False)]. *)
Definition new_game : OthelloGame :=
  {| board := initial_board;
     player_tile := "X";
     computer_tile := "O";
     player_score := 0;
     computer_score := 0;
     interactive := false;
     stepper := false;
     show_hints := false |}.

(** A board reached after Black (2,4), White (2,3), Black (2,2): White can
    then capture two cells in one direction from (1,3). *)
Definition line_board : Board :=
  fst (make_move "X" 2 2 (fst (make_move "O" 2 3 (fst (make_move "X" 2 4 initial_board))))).

(** ** Auxiliary notions of the proofs *)

(** The [m] cells met from [(x, y)] on, stepping by [(dx, dy)]. *)
Fixpoint ray (m : nat) (x y dx dy : Z) : list (Z * Z) :=
  match m with
  | O => []
  | S m' => (x, y) :: ray m' (x + dx) (y + dy) dx dy
  end.

(** A coordinate that shrinks by one with every step taken on the board. *)
Definition room (dx dy x y : Z) : Z :=
  if dx =? 1 then 7 - x else if dx =? -1 then x
  else if dy =? 1 then 7 - y else y.

(** [m] keeps [P]: the state it leaves satisfies [P] if the state it was
    run in did, whether it returns or raises. *)
Definition preserves {S A} (P : S -> Prop) (m : M S A) : Prop :=
  forall s, P s -> P (fst (m s)).

(** ** Notions of the further properties *)

(** Black for White and White for Black; any other cell value stays. *)
Definition swap_cell (c : string) : string :=
  if String.eqb c "X" then "O" else if String.eqb c "O" then "X" else c.

Definition swap_board (b : Board) : Board := map (map swap_cell) b.

(** What a cell becomes when it is exported and imported again: anything
    that is neither Black nor White comes back blank. *)
Definition blank_unknown (c : string) : string := decode (encode c).

(** The mover's score on the board [make_move] leaves when [tile] is played
    at [p] on [b]. *)
Definition score_after (b : Board) (tile : string) (p : Z * Z) : Z :=
  count_cells tile (fst (make_move tile (fst p) (snd p) b)).

(** One round of the second loop of [get_computer_move], given the score of
    each candidate. *)
Definition best_step (score : Z * Z -> Z) (best : Z * list Z) (p : Z * Z)
    : Z * list Z :=
  if score p >? fst best then (score p, [fst p; snd p]) else best.

(** The two characters typed for column [x] and row [y], counted from 1. *)
Definition typed_move (x y : Z) : string :=
  String (ascii_of_nat (Z.to_nat (48 + x)))
    (String (ascii_of_nat (Z.to_nat (48 + y))) EmptyString).

(** A line [get_player_action] passes over: in lower case it is neither
    ['quit'] nor ['hints'] nor the two digits of a cell of the board that
    [is_valid_move] accepts for the player's tile. *)
Definition passed_over (lower : string -> string) (g : OthelloGame)
    (line : string) : Prop :=
  lower line <> "quit" /\ lower line <> "hints" /\
  forall x y, is_on_board x y = true -> lower line = typed_move (x + 1) (y + 1) ->
    snd (is_valid_move (player_tile g) x y (board g)) = Ok PyFalse.

(** ** Notions of the interactive program *)

(** The two sides hold the two colours. *)
Definition tiles_set (g : OthelloGame) : Prop :=
  (player_tile g = "X" /\ computer_tile g = "O") \/
  (player_tile g = "O" /\ computer_tile g = "X").

(** The state a round of the inner loop starts in: when it is the
    computer's turn, the computer has a move. *)
Definition ready (t : turn) (g : OthelloGame) : Prop :=
  wf_game g /\ tiles_set g /\
  (t = computer -> legal_moves (board g) (computer_tile g) <> []).

(** Neither colour has a move. *)
Definition stuck (b : Board) : Prop :=
  get_valid_moves "X" b = (b, Ok []) /\ get_valid_moves "O" b = (b, Ok []).

(** [w'] is [w] after at least one line was read. *)
Definition has_read (w w' : world) : Prop :=
  exists pre line, stdin w = pre ++ line :: stdin w'.

(** The only two ways the interactive program stops: [sys.exit()] at a line
    that reads ['quit'], the lines after it left unread, or [EOFError] with
    no line left. *)
Definition left_by (lower : string -> string) (w w' : world) (e : ending) : Prop :=
  (e = SystemExit /\
   exists pre line, stdin w = pre ++ line :: stdin w' /\ lower line = "quit") \/
  (e = EndOfInput /\ stdin w' = []).

(** Both score fields are the same in two game states. *)
Definition keeps_scores (g g' : OthelloGame) : Prop :=
  player_score g' = player_score g /\ computer_score g' = computer_score g.

(** A new game in front of a keyboard on which [lines] will be typed. *)
Definition keyboard_game (lines : list string) : world :=
  {| game := new_game; stdin := lines; computer_moves := 0 |}.

(** * Part III: lemmas and theorems *)

(** ** Python indexing on lists of known length *)

Lemma py_index_nonneg (len : nat) (i : Z) :
  0 <= i < Z.of_nat len -> py_index len i = Some (Z.to_nat i).
Proof.
  intros H. unfold py_index.
  destruct (Z.leb_spec 0 i); [|lia].
  destruct (Z.ltb_spec i (Z.of_nat len)); [|lia]. reflexivity.
Qed.

Lemma py_index_lt (len : nat) (i : Z) (k : nat) :
  py_index len i = Some k -> (k < len)%nat.
Proof.
  unfold py_index.
  destruct (Z.leb_spec 0 i), (Z.ltb_spec i (Z.of_nat len)); simpl;
    try (intros [= <-]; lia);
    destruct (Z.leb_spec (- Z.of_nat len) i), (Z.ltb_spec i 0); simpl;
    intros [= <-] || discriminate; lia.
Qed.

Lemma py_index_out (len : nat) (i : Z) :
  i < - Z.of_nat len \/ Z.of_nat len <= i -> py_index len i = None.
Proof.
  intros H. unfold py_index.
  destruct (Z.leb_spec 0 i), (Z.ltb_spec i (Z.of_nat len)); simpl; try lia;
    destruct (Z.leb_spec (- Z.of_nat len) i), (Z.ltb_spec i 0); simpl;
    reflexivity || lia.
Qed.

Lemma is_on_board_true (x y : Z) :
  is_on_board x y = true <-> (0 <= x <= 7 /\ 0 <= y <= 7).
Proof. unfold is_on_board. lia. Qed.

Lemma is_on_board_false (x y : Z) :
  is_on_board x y = false <-> ~ (0 <= x <= 7 /\ 0 <= y <= 7).
Proof. unfold is_on_board. lia. Qed.

Lemma getitem_Ok {A} (l : list A) (i : Z) (a : A) :
  getitem l i = Ok a <-> exists k, py_index (length l) i = Some k /\ l !! k = Some a.
Proof.
  unfold getitem. split.
  - destruct (py_index _ _) as [k|] eqn:Ek; [|discriminate].
    destruct (l !! k) eqn:E; [|discriminate]. intros [= ->]. eauto.
  - intros (k & -> & ->). reflexivity.
Qed.

Lemma getitem2_Ok {A} (m : list (list A)) (x y : Z) (a : A) :
  getitem2 m x y = Ok a <->
  exists kx ky col, py_index (length m) x = Some kx /\ m !! kx = Some col /\
                    py_index (length col) y = Some ky /\ col !! ky = Some a.
Proof.
  unfold getitem2. split.
  - destruct (getitem m x) as [col| |] eqn:E; simpl; try discriminate.
    intros H. apply getitem_Ok in E as (kx & ? & ?).
    apply getitem_Ok in H as (ky & ? & ?). eauto 10.
  - intros (kx & ky & col & H1 & H2 & H3 & H4).
    assert (getitem m x = Ok col) as -> by (apply getitem_Ok; eauto).
    simpl. apply getitem_Ok; eauto.
Qed.

Lemma setitem2_Ok {A} (x y : Z) (v : A) (m m' : list (list A)) :
  setitem2 x y v m = Ok m' <->
  exists kx ky col, py_index (length m) x = Some kx /\ m !! kx = Some col /\
                    py_index (length col) y = Some ky /\
                    m' = <[kx := <[ky := v]> col]> m.
Proof.
  unfold setitem2, setitem. split.
  - destruct (py_index (length m) x) as [kx|] eqn:Ex; [|discriminate].
    destruct (m !! kx) as [col|] eqn:E; [|discriminate].
    destruct (py_index (length col) y) as [ky|] eqn:Ey; [|discriminate].
    simpl. intros [= <-]. exists kx, ky, col. auto.
  - intros (kx & ky & col & -> & -> & -> & ->). reflexivity.
Qed.

Lemma getitem_fuel {A} (l : list A) (i : Z) : getitem l i <> OutOfFuel.
Proof.
  unfold getitem. destruct (py_index _ _) as [k|]; [|done]. by destruct (l !! k).
Qed.

Lemma getitem2_fuel {A} (m : list (list A)) (x y : Z) : getitem2 m x y <> OutOfFuel.
Proof.
  unfold getitem2. pose proof (getitem_fuel m x).
  destruct (getitem m x) as [col| |]; cbn [obind]; [apply getitem_fuel|done..].
Qed.

Lemma setitem2_fuel {A} (x y : Z) (v : A) (m : list (list A)) :
  setitem2 x y v m <> OutOfFuel.
Proof.
  unfold setitem2, setitem. destruct (py_index _ x) as [k|]; [|done].
  destruct (m !! k) as [col|]; [|done].
  by destruct (py_index _ y).
Qed.

Lemma wf8_lookup {A} (m : list (list A)) (k : nat) (col : list A) :
  wf8 m -> m !! k = Some col -> length col = 8%nat.
Proof.
  intros [_ H] Hk. rewrite Forall_lookup in H. eauto.
Qed.

Lemma setitem2_wf8 {A} (x y : Z) (v : A) (m m' : list (list A)) :
  setitem2 x y v m = Ok m' -> wf8 m -> wf8 m'.
Proof.
  intros (kx & ky & col & _ & Hc & _ & ->)%setitem2_Ok Hwf.
  pose proof (wf8_lookup _ _ _ Hwf Hc) as Hlen.
  destruct Hwf as [Hl Hall]. split.
  - by rewrite length_insert.
  - apply Forall_lookup. intros i c Hi.
    destruct (decide (i = kx)) as [->|Hne].
    + rewrite list_lookup_insert_eq in Hi by (apply lookup_lt_Some in Hc; lia).
      injection Hi as <-. by rewrite length_insert.
    + rewrite list_lookup_insert_ne in Hi by congruence.
      rewrite Forall_lookup in Hall. eauto.
Qed.

Lemma getitem2_on_board {A} (m : list (list A)) (x y : Z) :
  wf8 m -> is_on_board x y = true -> exists a, getitem2 m x y = Ok a.
Proof.
  intros Hwf [Hx Hy]%is_on_board_true.
  pose proof Hwf as [Hl _].
  destruct (lookup_lt_is_Some_2 m (Z.to_nat x)) as [col Hc]; [lia|].
  pose proof (wf8_lookup _ _ _ Hwf Hc) as Hlen.
  destruct (lookup_lt_is_Some_2 col (Z.to_nat y)) as [a Ha]; [lia|].
  exists a. apply getitem2_Ok. exists (Z.to_nat x), (Z.to_nat y), col.
  rewrite !py_index_nonneg by lia. auto.
Qed.

Lemma setitem2_on_board {A} (m : list (list A)) (x y : Z) (v : A) :
  wf8 m -> is_on_board x y = true -> exists m', setitem2 x y v m = Ok m'.
Proof.
  intros Hwf [Hx Hy]%is_on_board_true.
  pose proof Hwf as [Hl _].
  destruct (lookup_lt_is_Some_2 m (Z.to_nat x)) as [col Hc]; [lia|].
  pose proof (wf8_lookup _ _ _ Hwf Hc) as Hlen.
  eexists. apply setitem2_Ok. exists (Z.to_nat x), (Z.to_nat y), col.
  rewrite !py_index_nonneg by lia. auto.
Qed.

Lemma getitem2_setitem2_eq {A} (m m' : list (list A)) (x y : Z) (v : A) :
  setitem2 x y v m = Ok m' -> getitem2 m' x y = Ok v.
Proof.
  intros (kx & ky & col & Hx & Hc & Hy & ->)%setitem2_Ok.
  apply getitem2_Ok. exists kx, ky, (<[ky:=v]> col).
  rewrite !length_insert. repeat split; auto.
  - apply list_lookup_insert_eq. by eapply lookup_lt_Some.
  - apply list_lookup_insert_eq. by eapply py_index_lt.
Qed.

Lemma getitem2_setitem2_ne {A} (m m' : list (list A)) (x y x' y' : Z) (v : A) :
  wf8 m -> setitem2 x y v m = Ok m' ->
  is_on_board x y = true -> is_on_board x' y' = true ->
  x <> x' \/ y <> y' ->
  getitem2 m' x' y' = getitem2 m x' y'.
Proof.
  intros Hwf Hset [Hx Hy]%is_on_board_true [Hx' Hy']%is_on_board_true Hne.
  pose proof Hwf as [Hl _].
  apply setitem2_Ok in Hset as (kx & ky & col & Hkx & Hc & Hky & ->).
  pose proof (wf8_lookup _ _ _ Hwf Hc) as Hlen.
  rewrite py_index_nonneg in Hkx, Hky by lia.
  injection Hkx as <-. injection Hky as <-.
  unfold getitem2, getitem. rewrite length_insert.
  rewrite !py_index_nonneg by lia.
  destruct (decide (x = x')) as [<-|Hxx].
  - rewrite list_lookup_insert_eq by (by eapply lookup_lt_Some).
    rewrite Hc. simpl. rewrite length_insert, Hlen.
    rewrite !py_index_nonneg by lia.
    rewrite list_lookup_insert_ne by lia. reflexivity.
  - rewrite list_lookup_insert_ne by lia. reflexivity.
Qed.

Lemma py_index_in (len : nat) (i : Z) :
  - Z.of_nat len <= i < Z.of_nat len -> exists k, py_index len i = Some k.
Proof.
  intros H. unfold py_index.
  destruct (Z.leb_spec 0 i), (Z.ltb_spec i (Z.of_nat len)); simpl; eauto; try lia.
  destruct (Z.leb_spec (- Z.of_nat len) i), (Z.ltb_spec i 0); simpl; eauto; lia.
Qed.

Lemma getitem2_in_range {A} (m : list (list A)) (x y : Z) :
  wf8 m -> -8 <= x <= 7 -> -8 <= y <= 7 -> exists a, getitem2 m x y = Ok a.
Proof.
  intros Hwf Hx Hy. pose proof Hwf as [Hl _].
  destruct (py_index_in (length m) x) as [kx Hkx]; [lia|].
  destruct (lookup_lt_is_Some_2 m kx) as [col Hc]; [by eapply py_index_lt|].
  pose proof (wf8_lookup _ _ _ Hwf Hc) as Hlen.
  destruct (py_index_in (length col) y) as [ky Hky]; [lia|].
  destruct (lookup_lt_is_Some_2 col ky) as [a Ha]; [by eapply py_index_lt|].
  exists a. apply getitem2_Ok. by exists kx, ky, col.
Qed.

Lemma getitem2_out_of_range {A} (m : list (list A)) (x y : Z) :
  wf8 m -> x < -8 \/ 7 < x \/ y < -8 \/ 7 < y ->
  getitem2 m x y = Raise IndexError.
Proof.
  intros Hwf Hout. pose proof Hwf as [Hl _]. unfold getitem2, getitem.
  destruct (py_index (length m) x) as [kx|] eqn:Hkx; [|done].
  destruct (m !! kx) as [col|] eqn:Hc; [|done]. cbn [obind].
  pose proof (wf8_lookup _ _ _ Hwf Hc) as Hlen.
  assert (-8 <= x <= 7).
  { destruct (Z_lt_le_dec x (-8)); [rewrite py_index_out in Hkx by lia; done|].
    destruct (Z_lt_le_dec 7 x); [rewrite py_index_out in Hkx by lia; done|]. lia. }
  by rewrite py_index_out by lia.
Qed.

Lemma setitem2_restore {A} (m m1 : list (list A)) (x y : Z) (a v : A) :
  getitem2 m x y = Ok a -> setitem2 x y v m = Ok m1 -> setitem2 x y a m1 = Ok m.
Proof.
  intros (kx & ky & col & Hkx & Hc & Hky & Ha)%getitem2_Ok Hset.
  apply setitem2_Ok in Hset as (kx' & ky' & col' & Hkx' & Hc' & Hky' & ->).
  assert (kx' = kx) as -> by congruence.
  assert (col' = col) as -> by congruence.
  assert (ky' = ky) as -> by congruence.
  apply setitem2_Ok. exists kx, ky, (<[ky:=v]> col).
  rewrite !length_insert. repeat split; auto.
  - apply list_lookup_insert_eq. by eapply lookup_lt_Some.
  - rewrite !list_insert_insert_eq.
    rewrite (list_insert_id col ky a) by done.
    by rewrite list_insert_id.
Qed.

(** ** The directional walks of [is_valid_move] *)

Ltac each_direction H :=
  simpl in H;
  repeat (destruct H as [H|H]; [injection H as <- <-|]);
  [..|contradiction].

Lemma ray_snoc (m : nat) (x y dx dy : Z) :
  ray (S m) x y dx dy =
  ray m x y dx dy ++ [(x + Z.of_nat m * dx, y + Z.of_nat m * dy)].
Proof.
  revert x y. induction m as [|m IH]; intros x y.
  - simpl. do 2 f_equal; lia.
  - change (ray (S (S m)) x y dx dy)
      with ((x, y) :: ray (S m) (x + dx) (y + dy) dx dy).
    rewrite IH. cbn [ray app]. do 4 f_equal; lia.
Qed.

Lemma ray_last_on_board (m : nat) (x y dx dy : Z) (P : Z * Z -> Prop) :
  Forall P (ray (S m) x y dx dy) ->
  P (x + Z.of_nat m * dx, y + Z.of_nat m * dy).
Proof.
  rewrite ray_snoc. intros [_ H]%Forall_app. by apply Forall_inv in H.
Qed.

Section Walks.

  (** One of the eight directions. *)
  Variables dx dy : Z.
  Hypothesis Hd : In (dx, dy) DIRECTIONS.

Lemma room_bounds (x y : Z) :
  is_on_board x y = true -> 0 <= room dx dy x y <= 7.
Proof.
  intros [Hx Hy]%is_on_board_true.
  pose proof Hd as Hd'. each_direction Hd'; unfold room; simpl; lia.
Qed.

Lemma room_step (x y : Z) :
  room dx dy (x + dx) (y + dy) = room dx dy x y - 1.
Proof. pose proof Hd as Hd'. each_direction Hd'; unfold room; simpl; lia. Qed.

(** The forward loop stops after some [m] steps, all over cells of the other
    colour, on a position that is off the board or holds something else. *)
Lemma while_other_run (b : Board) (other : string) :
  wf8 b ->
  forall (fuel : nat) (x y : Z),
    is_on_board x y = true -> room dx dy x y < Z.of_nat fuel ->
    exists m : nat,
      while_other fuel b other dx dy x y
        = Ok (x + Z.of_nat m * dx, y + Z.of_nat m * dy) /\
      Forall (fun p => is_on_board (fst p) (snd p) = true /\
                       get_cell b (fst p) (snd p) = Ok other) (ray m x y dx dy) /\
      (is_on_board (x + Z.of_nat m * dx) (y + Z.of_nat m * dy) = true ->
       exists c, get_cell b (x + Z.of_nat m * dx) (y + Z.of_nat m * dy) = Ok c /\
                 c <> other).
Proof.
  intros Hwf. induction fuel as [|fuel IH]; intros x y Hon Hroom.
  - pose proof (room_bounds _ _ Hon). lia.
  - destruct (getitem2_on_board b x y Hwf Hon) as [c Hc].
    simpl. unfold get_cell at 1. rewrite Hc. simpl.
    destruct (String.eqb_spec c other) as [->|Hne].
    + destruct (is_on_board (x + dx) (y + dy)) eqn:Hon'; simpl.
      * destruct (IH (x + dx) (y + dy) Hon') as (m & Hrun & Hray & Hend).
        { rewrite room_step. lia. }
        exists (S m).
        replace (x + Z.of_nat (S m) * dx) with (x + dx + Z.of_nat m * dx) by lia.
        replace (y + Z.of_nat (S m) * dy) with (y + dy + Z.of_nat m * dy) by lia.
        split; [done|]. split; [|done].
        simpl. constructor; [|done]. by split.
      * exists 1%nat.
        replace (x + Z.of_nat 1 * dx) with (x + dx) by lia.
        replace (y + Z.of_nat 1 * dy) with (y + dy) by lia.
        split; [done|]. split.
        -- simpl. constructor; [|constructor]. by split.
        -- congruence.
    + exists 0%nat.
      replace (x + Z.of_nat 0 * dx) with x by lia.
      replace (y + Z.of_nat 0 * dy) with y by lia.
      split; [done|]. split; [constructor|]. intros _. eauto.
Qed.

Lemma while_other_fuel (b : Board) (other : string) :
  forall (fuel : nat) (x y : Z),
    is_on_board x y = true -> room dx dy x y < Z.of_nat fuel ->
    match while_other fuel b other dx dy x y with
    | Ok p => exists m : nat, p = (x + Z.of_nat m * dx, y + Z.of_nat m * dy)
    | Raise _ => True
    | OutOfFuel => False
    end.
Proof.
  induction fuel as [|fuel IH]; intros x y Hon Hroom.
  - pose proof (room_bounds _ _ Hon). lia.
  - cbn [while_other]. pose proof (getitem2_fuel b x y) as Hf. unfold get_cell.
    destruct (getitem2 b x y) as [c| |]; cbn [obind]; [|done..].
    destruct (String.eqb c other).
    + destruct (is_on_board (x + dx) (y + dy)) eqn:Hon'; cbn [negb].
      * specialize (IH (x + dx) (y + dy) Hon').
        rewrite room_step in IH. specialize (IH ltac:(lia)).
        destruct (while_other fuel b other dx dy (x + dx) (y + dy)) as [p| |];
          [|done..].
        destruct IH as [m ->]. exists (S m). f_equal; lia.
      * exists 1%nat. f_equal; lia.
    + exists 0%nat. f_equal; lia.
Qed.

(** The backward loop collects the [n] cells between the end of the walk and
    the starting cell, farthest first. *)
Lemma walk_back_run (xs ys : Z) :
  forall (n fuel : nat) (acc : list (Z * Z)),
    (n < fuel)%nat ->
    walk_back fuel dx dy xs ys
      (xs + dx + Z.of_nat n * dx) (ys + dy + Z.of_nat n * dy) acc
    = Ok (acc ++ rev (ray n (xs + dx) (ys + dy) dx dy)).
Proof.
  induction n as [|n IH]; intros fuel acc Hfuel;
    (destruct fuel as [|fuel]; [lia|]).
  - cbn [walk_back ray rev].
    match goal with
    | |- context [if ?c then _ else _] =>
        assert (c = true) as -> by (apply andb_true_iff; split; apply Z.eqb_eq; lia)
    end.
    by rewrite app_nil_r.
  - rewrite ray_snoc, rev_app_distr. cbn [rev app walk_back].
    replace (xs + dx + Z.of_nat (S n) * dx - dx) with (xs + dx + Z.of_nat n * dx) by lia.
    replace (ys + dy + Z.of_nat (S n) * dy - dy) with (ys + dy + Z.of_nat n * dy) by lia.
    assert (((xs + dx + Z.of_nat n * dx =? xs) && (ys + dy + Z.of_nat n * dy =? ys))
            = false) as ->.
    { apply andb_false_iff. pose proof Hd as Hd'. each_direction Hd'; lia. }
    rewrite IH by lia. by rewrite <- app_assoc.
Qed.

End Walks.

(** The specification's walk, over a run of cells of the other colour. *)
Lemma spec_walk_run (b : Board) (tile other : string) (dx dy : Z) :
  forall (m : nat) (x y : Z) (fuel : nat),
    (m < fuel)%nat ->
    Forall (fun p => is_on_board (fst p) (snd p) = true /\
                     get_cell b (fst p) (snd p) = Ok other) (ray m x y dx dy) ->
    spec_walk fuel b tile other dx dy x y
    = option_map (app (ray m x y dx dy))
        (spec_walk (fuel - m) b tile other dx dy
           (x + Z.of_nat m * dx) (y + Z.of_nat m * dy)).
Proof.
  induction m as [|m IH]; intros x y fuel Hfuel Hray.
  - replace (x + Z.of_nat 0 * dx) with x by lia.
    replace (y + Z.of_nat 0 * dy) with y by lia.
    rewrite Nat.sub_0_r. simpl. by destruct (spec_walk _ _ _ _ _ _ _ _).
  - destruct fuel as [|fuel]; [lia|].
    simpl in Hray. apply Forall_cons in Hray as [[Hon Hc] Hray]. simpl in Hon, Hc.
    cbn [spec_walk ray]. rewrite Hon, Hc, String.eqb_refl.
    rewrite (IH _ _ fuel) by (lia || done).
    replace (x + dx + Z.of_nat m * dx) with (x + Z.of_nat (S m) * dx) by lia.
    replace (y + dy + Z.of_nat m * dy) with (y + Z.of_nat (S m) * dy) by lia.
    replace (S fuel - S m)%nat with (fuel - m)%nat by lia.
    by destruct (spec_walk _ _ _ _ _ _ _ _).
Qed.

(** Where the run stops, the specification's walk decides. *)
Lemma spec_walk_stop (n : nat) (b : Board) (tile other c : string) (dx dy x y : Z) :
  is_on_board x y = true -> get_cell b x y = Ok c -> c <> other ->
  spec_walk (S n) b tile other dx dy x y
  = if String.eqb c tile then Some [] else None.
Proof.
  intros Hon Hc Hne. simpl. rewrite Hon, Hc.
  by destruct (String.eqb_spec c other).
Qed.

Lemma spec_walk_cont (n : nat) (b : Board) (tile other : string) (dx dy x y : Z) :
  is_on_board x y = true -> get_cell b x y = Ok other ->
  spec_walk (S n) b tile other dx dy x y
  = option_map (cons (x, y)) (spec_walk n b tile other dx dy (x + dx) (y + dy)).
Proof. intros Hon Hc. simpl. by rewrite Hon, Hc, String.eqb_refl. Qed.

Lemma spec_walk_off (n : nat) (b : Board) (tile other : string) (dx dy x y : Z) :
  is_on_board x y = false -> spec_walk n b tile other dx dy x y = None.
Proof. intros Hoff. destruct n; simpl; [done|]. by rewrite Hoff. Qed.

(** The specification's walk never looks at the cell the move goes to. *)
Lemma spec_walk_agree (b b' : Board) (tile other : string) (dx dy xs ys : Z) :
  In (dx, dy) DIRECTIONS ->
  (forall x y, is_on_board x y = true -> x <> xs \/ y <> ys ->
               get_cell b' x y = get_cell b x y) ->
  forall (n : nat) (k : Z), 1 <= k ->
    spec_walk n b' tile other dx dy (xs + k * dx) (ys + k * dy)
    = spec_walk n b tile other dx dy (xs + k * dx) (ys + k * dy).
Proof.
  intros Hd Hagree. induction n as [|n IH]; intros k Hk; [done|].
  cbn [spec_walk].
  destruct (is_on_board (xs + k * dx) (ys + k * dy)) eqn:Hon; [|done].
  rewrite Hagree; [|done|clear -Hd Hk; each_direction Hd; lia].
  replace (xs + k * dx + dx) with (xs + (k + 1) * dx) by lia.
  replace (ys + k * dy + dy) with (ys + (k + 1) * dy) by lia.
  by rewrite IH by lia.
Qed.

Lemma spec_walk_cells_on_board (b : Board) (tile other : string) (dx dy : Z) :
  forall (n : nat) (x y : Z) (l : list (Z * Z)),
    spec_walk n b tile other dx dy x y = Some l ->
    Forall (fun p => is_on_board (fst p) (snd p) = true) l.
Proof.
  induction n as [|n IH]; intros x y l; [done|].
  cbn [spec_walk]. destruct (is_on_board x y) eqn:Hon; [|done].
  destruct (get_cell b x y) as [c| |]; [|done..].
  destruct (String.eqb c other).
  - destruct (spec_walk n b tile other dx dy (x + dx) (y + dy)) as [l'|] eqn:E;
      [|done].
    intros [= <-]. constructor; [done|]. by eapply IH.
  - destruct (String.eqb c tile); [|done]. intros [= <-]. constructor.
Qed.

Lemma ofold_app {A B} (l : list A) (body : list B -> A -> outcome (list B))
    (f : A -> list B) (acc : list B) :
  (forall a acc, In a l -> body acc a = Ok (acc ++ f a)) ->
  ofold l body acc = Ok (acc ++ concat (map f l)).
Proof.
  revert acc. induction l as [|a l IH]; intros acc Hbody.
  - simpl. by rewrite app_nil_r.
  - simpl. rewrite Hbody by (by left). simpl.
    rewrite IH by (intros; apply Hbody; by right).
    by rewrite <- app_assoc.
Qed.

(** One direction of the scan: what the code appends is the specification's
    capture for that direction, read backwards. *)
Lemma scan_direction_spec (b : Board) (tile other : string) (xs ys : Z)
    (acc : list (Z * Z)) (d : Z * Z) :
  wf8 b -> In d DIRECTIONS -> is_on_board xs ys = true ->
  scan_direction b tile other xs ys acc d
  = Ok (acc ++ rev (match spec_walk 8 b tile other (fst d) (snd d)
                             (xs + fst d) (ys + snd d) with
                    | Some l => l
                    | None => []
                    end)).
Proof.
  intros Hwf Hd Hs. destruct d as [dx dy]. unfold scan_direction. cbn [fst snd].
  destruct (is_on_board (xs + dx) (ys + dy)) eqn:Hon1; cbn [negb].
  2: { rewrite spec_walk_off by done. by rewrite app_nil_r. }
  destruct (getitem2_on_board b _ _ Hwf Hon1) as [c1 Hc1].
  unfold get_cell at 1. rewrite Hc1. cbn [obind].
  destruct (String.eqb_spec c1 other) as [->|Hne1]; cbn [negb].
  2: { rewrite (spec_walk_stop 7 _ _ _ c1) by done.
       destruct (String.eqb c1 tile); by rewrite app_nil_r. }
  destruct (is_on_board (xs + dx + dx) (ys + dy + dy)) eqn:Hon2; cbn [negb].
  2: { rewrite spec_walk_cont by done.
       rewrite spec_walk_off by done. by rewrite app_nil_r. }
  destruct (while_other_run dx dy Hd b other Hwf walk_fuel _ _ Hon2)
    as (m & Hrun & Hray & Hend).
  { pose proof (room_bounds dx dy Hd _ _ Hon2). unfold walk_fuel. lia. }
  rewrite Hrun. cbn [obind].
  assert (Hray1 : Forall (fun p => is_on_board (fst p) (snd p) = true /\
                                   get_cell b (fst p) (snd p) = Ok other)
                    (ray (S m) (xs + dx) (ys + dy) dx dy)).
  { cbn [ray]. constructor; [|done]. by split. }
  assert (Hm : (S m < 8)%nat).
  { apply ray_last_on_board in Hray1 as [Hl _]. cbn [fst snd] in Hl.
    apply is_on_board_true in Hl. apply is_on_board_true in Hs.
    clear -Hd Hl Hs. each_direction Hd; lia. }
  rewrite (spec_walk_run b tile other dx dy (S m) _ _ 8) by done.
  replace (xs + dx + Z.of_nat (S m) * dx) with (xs + dx + dx + Z.of_nat m * dx) by lia.
  replace (ys + dy + Z.of_nat (S m) * dy) with (ys + dy + dy + Z.of_nat m * dy) by lia.
  destruct (8 - S m)%nat as [|k] eqn:Hk; [lia|].
  destruct (is_on_board (xs + dx + dx + Z.of_nat m * dx)
              (ys + dy + dy + Z.of_nat m * dy)) eqn:Hon3; cbn [negb].
  2: { rewrite spec_walk_off by done. by rewrite app_nil_r. }
  destruct (Hend eq_refl) as (c & Hc & Hne).
  rewrite (spec_walk_stop k _ _ _ c) by done.
  rewrite Hc. cbn [obind].
  destruct (String.eqb c tile).
  - replace (xs + dx + dx + Z.of_nat m * dx) with (xs + dx + Z.of_nat (S m) * dx) by lia.
    replace (ys + dy + dy + Z.of_nat m * dy) with (ys + dy + Z.of_nat (S m) * dy) by lia.
    rewrite (walk_back_run dx dy Hd xs ys (S m) walk_fuel) by (unfold walk_fuel; lia).
    cbn [option_map]. by rewrite app_nil_r.
  - by rewrite app_nil_r.
Qed.

(** ** [is_valid_move] on an 8x8 board *)

Lemma scan_directions_spec (b b1 : Board) (tile : string) (xs ys : Z) :
  wf8 b -> is_on_board xs ys = true -> set_cell xs ys tile b = Ok b1 ->
  ofold DIRECTIONS
    (scan_direction b1 tile (if String.eqb tile "X" then "O" else "X") xs ys) []
  = Ok (flips_farthest_first b tile xs ys).
Proof.
  intros Hwf Hs Hset.
  assert (Hwf1 : wf8 b1) by (by eapply setitem2_wf8).
  rewrite (ofold_app _ _ (fun d => rev (spec_direction b tile xs ys d))); [done|].
  intros [dx dy] acc Hd. rewrite scan_direction_spec by done.
  unfold spec_direction, opposite. cbn [fst snd].
  pose proof (spec_walk_agree b b1 tile (if String.eqb tile "X" then "O" else "X")
                dx dy xs ys Hd) as Hagree.
  specialize (Hagree (fun x y Hon Hne =>
    getitem2_setitem2_ne b b1 xs ys x y tile Hwf Hset Hs Hon
      ltac:(destruct Hne; [left|right]; congruence)) 8%nat 1 ltac:(lia)).
  replace (xs + 1 * dx) with (xs + dx) in Hagree by lia.
  replace (ys + 1 * dy) with (ys + dy) in Hagree by lia.
  by rewrite Hagree.
Qed.

(** On a cell of an 8x8 board, [is_valid_move] returns [evaluate] and leaves
    the board as it found it. *)
Lemma is_valid_move_on_board (b : Board) (tile : string) (x y : Z) :
  wf8 b -> is_on_board x y = true ->
  is_valid_move tile x y b = (b, Ok (evaluate b tile x y)).
Proof.
  intros Hwf Hon. unfold is_valid_move, evaluate, bind, read_cell, reading.
  rewrite Hon. destruct (getitem2_on_board b x y Hwf Hon) as [c Hc].
  unfold get_cell. rewrite Hc. cbn [negb orb].
  destruct (String.eqb_spec c " ") as [->|Hne]; cbn [negb orb]; [|done].
  destruct (setitem2_on_board b x y tile Hwf Hon) as [b1 Hset].
  unfold write_cell, writing, set_cell. rewrite Hset.
  rewrite (scan_directions_spec b b1 tile x y Hwf Hon Hset).
  rewrite (setitem2_restore b b1 x y " " tile Hc Hset).
  by destruct (Nat.eqb _ 0).
Qed.

(** Off the board, the call either raises on the first subscript or returns
    [False]; the board is not touched. *)
Lemma is_valid_move_off_board (b : Board) (tile : string) (x y : Z) :
  is_on_board x y = false ->
  is_valid_move tile x y b
  = (b, match get_cell b x y with
        | Ok _ => Ok PyFalse
        | Raise e => Raise e
        | OutOfFuel => OutOfFuel
        end).
Proof.
  intros Hoff. unfold is_valid_move, bind, read_cell, reading.
  destruct (get_cell b x y); [|done..].
  rewrite Hoff. by rewrite orb_true_r.
Qed.

(** An occupied cell is refused. *)
Lemma is_valid_move_occupied (b : Board) (tile c : string) (x y : Z) :
  get_cell b x y = Ok c -> c <> " " ->
  is_valid_move tile x y b = (b, Ok PyFalse).
Proof.
  intros Hc Hne. unfold is_valid_move, bind, read_cell, reading. rewrite Hc.
  by destruct (String.eqb_spec c " ").
Qed.

(** A negative coordinate down to -8 is read from the far end of the list;
    the call then returns [False]. *)
Lemma is_valid_move_wrapped (b : Board) (tile : string) (x y : Z) :
  wf8 b -> -8 <= x <= 7 -> -8 <= y <= 7 -> is_on_board x y = false ->
  is_valid_move tile x y b = (b, Ok PyFalse).
Proof.
  intros Hwf Hx Hy Hoff. rewrite is_valid_move_off_board by done.
  destruct (getitem2_in_range b x y Hwf Hx Hy) as [c Hc].
  unfold get_cell. by rewrite Hc.
Qed.

(** A coordinate below -8 or above 7 makes the first subscript raise. *)
Lemma is_valid_move_past_edge (b : Board) (tile : string) (x y : Z) :
  wf8 b -> x < -8 \/ 7 < x \/ y < -8 \/ 7 < y ->
  is_valid_move tile x y b = (b, Raise IndexError).
Proof.
  intros Hwf Hout. rewrite is_valid_move_off_board by (apply is_on_board_false; lia).
  unfold get_cell. by rewrite getitem2_out_of_range.
Qed.

Lemma is_valid_move_frame (b : Board) (tile : string) (x y : Z) :
  wf8 b -> fst (is_valid_move tile x y b) = b.
Proof.
  intros Hwf. destruct (is_on_board x y) eqn:Hon.
  - by rewrite is_valid_move_on_board.
  - by rewrite is_valid_move_off_board.
Qed.

Lemma evaluate_truthy (b : Board) (tile : string) (x y : Z) :
  truthy (evaluate b tile x y) = true ->
  evaluate b tile x y = Tiles (flips_farthest_first b tile x y) /\
  is_on_board x y = true /\ get_cell b x y = Ok " ".
Proof.
  unfold evaluate. destruct (is_on_board x y); [|done].
  destruct (get_cell b x y) as [c| |]; [|done..].
  destruct (String.eqb_spec c " ") as [->|]; [|done].
  cbn zeta. by destruct (Nat.eqb _ 0).
Qed.

Lemma evaluate_Tiles (b : Board) (tile : string) (x y : Z) (l : list (Z * Z)) :
  evaluate b tile x y = Tiles l -> truthy (evaluate b tile x y) = true.
Proof.
  unfold evaluate. destruct (is_on_board x y); [|done].
  destruct (get_cell b x y) as [c| |]; [|done..].
  destruct (String.eqb c " "); [|done].
  cbn zeta. destruct (Nat.eqb _ 0) eqn:E; [done|].
  intros _. unfold truthy. by rewrite E.
Qed.

Lemma evaluate_falsy (b : Board) (tile : string) (x y : Z) :
  truthy (evaluate b tile x y) = false -> evaluate b tile x y = PyFalse.
Proof.
  unfold evaluate. destruct (is_on_board x y); [|done].
  destruct (get_cell b x y) as [c| |]; [|done..].
  destruct (String.eqb c " "); [|done].
  cbn zeta. destruct (Nat.eqb _ 0) eqn:E; [done|].
  unfold truthy. by rewrite E.
Qed.

Lemma is_valid_move_legal (b : Board) (tile : string) (x y : Z) (v : flips_or_false) :
  wf8 b -> snd (is_valid_move tile x y b) = Ok v -> truthy v = true ->
  is_on_board x y = true /\ v = evaluate b tile x y.
Proof.
  intros Hwf Hv Ht. destruct (is_on_board x y) eqn:Hon.
  - rewrite is_valid_move_on_board in Hv by done. cbn [snd] in Hv.
    split; [done|congruence].
  - rewrite is_valid_move_off_board in Hv by done. cbn [snd] in Hv.
    destruct (get_cell b x y); [|done..]. injection Hv as <-. done.
Qed.

Lemma flips_on_board (b : Board) (tile : string) (x y : Z) :
  Forall (fun p => is_on_board (fst p) (snd p) = true)
    (flips_farthest_first b tile x y).
Proof.
  unfold flips_farthest_first. apply Forall_concat, Forall_map, Forall_forall.
  intros d _. simpl. apply Forall_rev. unfold spec_direction.
  destruct (spec_walk _ _ _ _ _ _ _ _) as [l|] eqn:E; [|constructor].
  by eapply spec_walk_cells_on_board.
Qed.

(** ** The iteration bound is never reached *)

Lemma scan_direction_fuel (b : Board) (tile other : string) (xs ys : Z)
    (acc : list (Z * Z)) (d : Z * Z) :
  In d DIRECTIONS -> is_on_board xs ys = true ->
  scan_direction b tile other xs ys acc d <> OutOfFuel.
Proof.
  intros Hd Hs. destruct d as [dx dy]. unfold scan_direction.
  destruct (is_on_board (xs + dx) (ys + dy)); cbn [negb]; [|done].
  pose proof (getitem2_fuel b (xs + dx) (ys + dy)) as Hf1. unfold get_cell.
  destruct (getitem2 b (xs + dx) (ys + dy)) as [c1| |]; cbn [obind]; [|done..].
  destruct (String.eqb c1 other); cbn [negb]; [|done].
  destruct (is_on_board (xs + dx + dx) (ys + dy + dy)) eqn:Hon2; cbn [negb]; [|done].
  pose proof (while_other_fuel dx dy Hd b other walk_fuel _ _ Hon2) as Hw.
  pose proof (room_bounds dx dy Hd _ _ Hon2) as Hroom.
  specialize (Hw ltac:(unfold walk_fuel; lia)).
  destruct (while_other _ _ _ _ _ _ _) as [[x y]| |]; cbn [obind]; [|done..].
  destruct Hw as [m [= -> ->]].
  destruct (is_on_board (xs + dx + dx + Z.of_nat m * dx)
              (ys + dy + dy + Z.of_nat m * dy)) eqn:Hon3; cbn [negb]; [|done].
  pose proof (getitem2_fuel b (xs + dx + dx + Z.of_nat m * dx)
                (ys + dy + dy + Z.of_nat m * dy)) as Hf3.
  destruct (getitem2 b _ _) as [c3| |]; cbn [obind]; [|done..].
  destruct (String.eqb c3 tile); [|done].
  replace (xs + dx + dx + Z.of_nat m * dx) with (xs + dx + Z.of_nat (S m) * dx) by lia.
  replace (ys + dy + dy + Z.of_nat m * dy) with (ys + dy + Z.of_nat (S m) * dy) by lia.
  rewrite (walk_back_run dx dy Hd xs ys (S m) walk_fuel); [done|].
  apply is_on_board_true in Hon3. apply is_on_board_true in Hs.
  unfold walk_fuel. clear -Hd Hon3 Hs. each_direction Hd; lia.
Qed.

Lemma ofold_fuel {A B} (l : list A) (body : B -> A -> outcome B) (acc : B) :
  (forall acc a, In a l -> body acc a <> OutOfFuel) ->
  ofold l body acc <> OutOfFuel.
Proof.
  revert acc. induction l as [|a l IH]; intros acc Hbody; [done|].
  cbn [ofold]. pose proof (Hbody acc a ltac:(by left)) as Ha.
  destruct (body acc a); cbn [obind]; [|done..].
  apply IH. intros. apply Hbody. by right.
Qed.

(** On any grid whatever, well formed or not, [is_valid_move] ends in a value
    or an exception: the bound on its loops is never what stops it. *)
Lemma is_valid_move_total (b : Board) (tile : string) (x y : Z) :
  snd (is_valid_move tile x y b) <> OutOfFuel.
Proof.
  unfold is_valid_move, bind, read_cell, write_cell, reading, writing, ret, set_cell.
  pose proof (getitem2_fuel b x y) as Hf. unfold get_cell.
  destruct (getitem2 b x y) as [c| |]; [|done..].
  destruct (is_on_board x y) eqn:Hon; [|by rewrite orb_true_r].
  destruct (negb (String.eqb c " ")); cbn [orb negb]; [done|].
  pose proof (setitem2_fuel x y tile b) as Hs1.
  destruct (setitem2 x y tile b) as [b1| |]; [|done|done].
  pose proof (ofold_fuel DIRECTIONS
                (scan_direction b1 tile (if String.eqb tile "X" then "O" else "X") x y)
                []) as Ho.
  specialize (Ho (fun acc d Hd => scan_direction_fuel b1 tile _ x y acc d Hd Hon)).
  destruct (ofold _ _ _) as [l| |]; [|done..].
  pose proof (setitem2_fuel x y " " b1) as Hs2.
  destruct (setitem2 x y " " b1) as [b2| |]; [|done|done].
  by destruct (Nat.eqb _ _).
Qed.


(** ** Loops that accumulate a list *)

Lemma for_fold_app {S A B} (l : list A) (body : list B -> A -> M S (list B))
    (f : A -> list B) (s : S) (acc : list B) :
  (forall a acc, In a l -> body acc a s = (s, Ok (acc ++ f a))) ->
  for_fold l body acc s = (s, Ok (acc ++ concat (map f l))).
Proof.
  revert acc. induction l as [|a l IH]; intros acc Hbody.
  - simpl. unfold ret. by rewrite app_nil_r.
  - simpl. unfold bind. rewrite Hbody by (by left).
    rewrite IH by (intros; apply Hbody; by right).
    by rewrite <- app_assoc.
Qed.

Lemma In_range8 (x : Z) : In x range8 <-> 0 <= x <= 7.
Proof. unfold range8. simpl. lia. Qed.

Lemma filter_grid (p : Z * Z -> bool) (xs ys : list Z) :
  List.filter p (concat (map (fun x => map (fun y => (x, y)) ys) xs))
  = concat (map (fun x =>
      concat (map (fun y => if p (x, y) then [(x, y)] else []) ys)) xs).
Proof.
  induction xs as [|x xs IH]; [done|].
  simpl. rewrite List.filter_app, IH. f_equal.
  clear. induction ys as [|y ys IH]; [done|].
  simpl. rewrite IH. by destruct (p (x, y)).
Qed.

(** On an 8x8 board [get_valid_moves] returns the legal moves and leaves the
    board as it found it. *)
Lemma get_valid_moves_wf (b : Board) (tile : string) :
  wf8 b -> get_valid_moves tile b = (b, Ok (legal_moves b tile)).
Proof.
  intros Hwf. unfold get_valid_moves, legal_moves, all_cells.
  rewrite filter_grid.
  apply (for_fold_app range8 _
           (fun x => concat (map (fun y =>
              if truthy (evaluate b tile x y) then [(x, y)] else []) range8))).
  intros x acc Hx%In_range8.
  apply (for_fold_app range8 _
           (fun y => if truthy (evaluate b tile x y) then [(x, y)] else [])).
  intros y acc' Hy%In_range8.
  unfold bind. rewrite is_valid_move_on_board by (done || apply is_on_board_true; lia).
  destruct (truthy _); unfold ret; [done|]. by rewrite app_nil_r.
Qed.

Lemma legal_moves_In (b : Board) (tile : string) (x y : Z) :
  In (x, y) (legal_moves b tile) <-> truthy (evaluate b tile x y) = true.
Proof.
  unfold legal_moves. rewrite List.filter_In. cbn [fst snd]. split; [tauto|].
  intros H. split; [|done].
  apply evaluate_truthy in H as (_ & [Hx Hy]%is_on_board_true & _).
  apply In_range8 in Hx. apply In_range8 in Hy.
  unfold all_cells. apply in_concat. exists (map (fun y => (x, y)) range8).
  split.
  - apply (in_map (fun x => map (fun y => (x, y)) range8)), Hx.
  - apply (in_map (fun y => (x, y))), Hy.
Qed.

(** ** Properties kept by every computation *)

Section Preserves.

  Context {S : Type} (P : S -> Prop).

Lemma preserves_ret {A} (a : A) : preserves P (ret a).
Proof. by intros s. Qed.

Lemma preserves_reading {A} (f : S -> outcome A) :
  preserves P (reading f).
Proof. by intros s. Qed.

Lemma preserves_bind {A B} (m : M S A) (k : A -> M S B) :
  preserves P m -> (forall a, preserves P (k a)) -> preserves P (bind m k).
Proof.
  intros Hm Hk s Hs. unfold bind. specialize (Hm s Hs).
  destruct (m s) as [s' [a| |]]; cbn [fst] in *; [by apply Hk|done..].
Qed.

Lemma preserves_writing (f : S -> outcome S) :
  (forall s s', P s -> f s = Ok s' -> P s') -> preserves P (writing f).
Proof.
  intros Hf s Hs. unfold writing. destruct (f s) eqn:E; cbn [fst]; eauto.
Qed.

Lemma preserves_for_each {A} (l : list A) (body : A -> M S unit) :
  (forall a, preserves P (body a)) -> preserves P (for_each l body).
Proof.
  intros Hbody. induction l as [|a l IH]; simpl.
  - apply preserves_ret.
  - apply preserves_bind; auto.
Qed.

Lemma preserves_for_fold {A B} (l : list A) (body : B -> A -> M S B) (acc : B) :
  (forall acc a, preserves P (body acc a)) -> preserves P (for_fold l body acc).
Proof.
  intros Hbody. revert acc. induction l as [|a l IH]; intros acc; simpl.
  - apply preserves_ret.
  - apply preserves_bind; auto.
Qed.

End Preserves.

Lemma setitem2_cells_ok (x y : Z) (v : string) (b b' : Board) :
  setitem2 x y v b = Ok b' -> cell_ok v -> cells_ok b -> cells_ok b'.
Proof.
  intros (kx & ky & col & _ & Hc & _ & ->)%setitem2_Ok Hv Hok.
  apply Forall_insert; [done|]. apply Forall_insert; [|done].
  unfold cells_ok in Hok. rewrite Forall_lookup in Hok. eauto.
Qed.

Lemma write_cell_wf8 (x y : Z) (v : string) : preserves wf8 (write_cell x y v).
Proof.
  apply preserves_writing. intros b b' Hwf Hset. by eapply setitem2_wf8.
Qed.

Lemma write_cell_inv (x y : Z) (v : string) :
  cell_ok v -> preserves board_inv (write_cell x y v).
Proof.
  intros Hv. apply preserves_writing. intros b b' [Hwf Hok] Hset. split.
  - by eapply setitem2_wf8.
  - by eapply setitem2_cells_ok.
Qed.

Lemma is_valid_move_inv (tile : string) (x y : Z) :
  cell_ok tile -> preserves board_inv (is_valid_move tile x y).
Proof.
  intros Ht. unfold is_valid_move.
  apply preserves_bind; [apply preserves_reading|]. intros c.
  destruct (_ || _); [apply preserves_ret|].
  apply preserves_bind; [by apply write_cell_inv|]. intros _.
  apply preserves_bind; [apply preserves_reading|]. intros l.
  apply preserves_bind; [apply write_cell_inv; by left|]. intros _.
  destruct (Nat.eqb _ _); apply preserves_ret.
Qed.

Lemma make_move_inv (tile : string) (x y : Z) :
  cell_ok tile -> preserves board_inv (make_move tile x y).
Proof.
  intros Ht. unfold make_move.
  apply preserves_bind; [by apply is_valid_move_inv|]. intros [|l].
  - apply preserves_ret.
  - destruct (negb _); [apply preserves_ret|].
    apply preserves_bind; [by apply write_cell_inv|]. intros _.
    apply preserves_bind; [|intros; apply preserves_ret].
    apply preserves_for_each. intros [x' y']. by apply write_cell_inv.
Qed.

(** ** Whole-board loops on an 8x8 board *)

(** Replace a list of length eight by its eight elements. *)
Ltac explode8 l H :=
  do 8 (destruct l as [|? l]; [discriminate H|]);
  destruct l; [clear H|discriminate H].

(** Replace an 8x8 board by its 64 cells. *)
Ltac explode_board b Hwf :=
  let Hl := fresh "Hl" in
  let Hall := fresh "Hall" in
  destruct Hwf as [Hl Hall];
  explode8 b Hl;
  repeat (apply Forall_cons in Hall as [? Hall]);
  clear Hall;
  repeat match goal with
         | H : length ?col = 8%nat |- _ => explode8 col H
         end.

Lemma copy_wf (b : Board) : wf8 b -> copy b = Ok b.
Proof. intros Hwf. explode_board b Hwf. reflexivity. Qed.

Lemma draw_wf (b : Board) : wf8 b -> draw b = (b, Ok tt).
Proof. intros Hwf. explode_board b Hwf. reflexivity. Qed.

Lemma reset_wf (b : Board) : wf8 b -> reset b = (initial_board, Ok tt).
Proof. intros Hwf. explode_board b Hwf. reflexivity. Qed.

Lemma initial_board_inv : board_inv initial_board.
Proof.
  split.
  - split; [reflexivity|]. repeat constructor.
  - repeat (constructor; [repeat (constructor; [unfold cell_ok; tauto|]); constructor|]).
    constructor.
Qed.

(** ** Numeric export and import *)

Lemma ofold_ext {A B} (l : list A) (body body' : B -> A -> outcome B) (acc : B) :
  (forall acc a, body acc a = body' acc a) ->
  ofold l body acc = ofold l body' acc.
Proof.
  intros H. revert acc. induction l as [|a l IH]; intros acc; simpl; [done|].
  rewrite H. destruct (body' acc a); simpl; auto.
Qed.

Lemma for_each_ext {S A} (l : list A) (body body' : A -> M S unit) (s : S) :
  (forall a s, body a s = body' a s) ->
  for_each l body s = for_each l body' s.
Proof.
  intros H. revert s. induction l as [|a l IH]; intros s; simpl; [done|].
  unfold bind. rewrite H. destruct (body' a s) as [s' [[]| |]]; auto.
Qed.

Lemma decode_encode (c : string) : cell_ok c -> decode (encode c) = c.
Proof. by intros [->|[->| ->]]. Qed.

Lemma list_to_array_wf (b : Board) : wf8 b -> list_to_array b = Ok (matrix_of b).
Proof.
  intros Hwf. unfold list_to_array.
  rewrite (ofold_ext _ _ (fun state i => ofold range8 (fun state j =>
             c <~ get_cell b j i ;; setitem2 i j (encode c) state) state)).
  2: { intros state i. apply ofold_ext. intros state' j.
       destruct (get_cell b j i) as [c| |]; simpl; [|done..].
       unfold encode. by destruct (String.eqb c "X"), (String.eqb c "O"). }
  explode_board b Hwf. cbv -[encode]. reflexivity.
Qed.

Lemma array_to_list_wf (state : Matrix) (b : Board) :
  wf8 state -> wf8 b ->
  array_to_list state b = (board_of state, Ok (board_of state)).
Proof.
  intros Hs Hwf. unfold array_to_list, bind.
  rewrite (for_each_ext _ _ (fun i => for_each range8 (fun j =>
             v <- reading (fun _ => getitem2 state i j) ;;
             write_cell j i (decode v)))).
  2: { intros i s. apply for_each_ext. intros j s'. unfold bind, reading.
       destruct (getitem2 state i j) as [v| |]; [|done..].
       unfold decode. by destruct (v =? 1), (v =? -1). }
  explode_board state Hs. explode_board b Hwf. cbv -[decode]. reflexivity.
Qed.

Lemma matrix_of_wf (b : Board) : wf8 b -> wf8 (matrix_of b).
Proof.
  intros [Hl _]. split; [reflexivity|].
  unfold matrix_of. apply Forall_map, Forall_forall. intros i _. simpl.
  by rewrite length_map.
Qed.

Lemma board_of_matrix_of (b : Board) :
  wf8 b -> cells_ok b -> board_of (matrix_of b) = b.
Proof.
  intros Hwf Hok. explode_board b Hwf.
  unfold cells_ok in Hok.
  repeat (apply Forall_cons in Hok as [? Hok]).
  repeat match goal with
         | H : Forall cell_ok (_ :: _) |- _ => apply Forall_cons in H as [? H]
         end.
  cbv -[encode decode]. rewrite !decode_encode by assumption. reflexivity.
Qed.

(** ** Counting cells *)

Lemma ofold_app_list {A B} (l1 l2 : list A) (g : B -> A -> outcome B) (acc : B) :
  ofold (l1 ++ l2) g acc = (acc' <~ ofold l1 g acc ;; ofold l2 g acc').
Proof.
  revert acc. induction l1 as [|a l1 IH]; intros acc; simpl; [done|].
  destruct (g acc a); simpl; auto.
Qed.

Lemma ofold_concat {A B} (ls : list (list A)) (g : B -> A -> outcome B) (acc : B) :
  ofold (concat ls) g acc = ofold ls (fun acc l => ofold l g acc) acc.
Proof.
  revert acc. induction ls as [|l ls IH]; intros acc; simpl; [done|].
  rewrite ofold_app_list. destruct (ofold l g acc); simpl; auto.
Qed.

(** [for i in range(8): ... l[i] ...] visits the eight elements of [l]. *)
Lemma range8_scan {A B} (l : list A) (h : B -> A -> outcome B) (acc : B) :
  length l = 8%nat ->
  ofold range8 (fun acc i => a <~ getitem l i ;; h acc a) acc = ofold l h acc.
Proof. intros Hl. explode8 l Hl. reflexivity. Qed.

Lemma getitem_wf8 {A} (m : list (list A)) (x : Z) (col : list A) :
  wf8 m -> getitem m x = Ok col -> length col = 8%nat.
Proof.
  intros Hwf (k & _ & Hk)%getitem_Ok. by eapply wf8_lookup.
Qed.

(** The double loop over [range(8)] visits the cells column by column. *)
Lemma grid_scan {B} (b : Board) (g : B -> string -> outcome B) (acc : B) :
  wf8 b ->
  ofold range8 (fun acc x =>
    ofold range8 (fun acc y => c <~ get_cell b x y ;; g acc c) acc) acc
  = ofold (concat b) g acc.
Proof.
  intros Hwf.
  rewrite (ofold_ext _ _ (fun acc x => col <~ getitem b x ;; ofold col g acc)).
  - rewrite range8_scan by apply Hwf. symmetry. apply ofold_concat.
  - intros acc' x. unfold get_cell, getitem2.
    destruct (getitem b x) as [col| |] eqn:Hx; [|done..].
    cbn [obind]. apply range8_scan. by eapply getitem_wf8.
Qed.

Lemma score_scan (l : list string) (nx no : Z) :
  ofold l score_step (nx, no)
  = Ok (nx + Z.of_nat (count_occ string_dec l "X"),
        no + Z.of_nat (count_occ string_dec l "O")).
Proof.
  revert nx no. induction l as [|c l IH]; intros nx no.
  - simpl. do 2 f_equal; lia.
  - cbn [ofold score_step count_occ].
    destruct (String.eqb_spec c "X") as [->|HX].
    + cbn [obind]. rewrite IH.
      destruct (string_dec "X" "X"); [|done].
      destruct (string_dec "X" "O"); [done|]. do 2 f_equal; lia.
    + destruct (String.eqb_spec c "O") as [->|HO]; cbn [obind]; rewrite IH.
      * destruct (string_dec "O" "X"); [done|].
        destruct (string_dec "O" "O"); [|done]. do 2 f_equal; lia.
      * destruct (string_dec c "X"); [done|].
        destruct (string_dec c "O"); [done|]. done.
Qed.

Lemma get_score_wf (b : Board) :
  wf8 b ->
  get_score b = Ok (<["X" := count_cells "X" b]> (<["O" := count_cells "O" b]> ∅)).
Proof.
  intros Hwf. unfold get_score.
  rewrite (ofold_ext _ _ (fun acc x => ofold range8 (fun acc y =>
             c <~ get_cell b x y ;; score_step acc c) acc)).
  2: { intros acc x. apply ofold_ext. by intros [nx no] y. }
  rewrite grid_scan by done. rewrite score_scan. reflexivity.
Qed.

Lemma count_three (l : list string) :
  Forall cell_ok l ->
  (count_occ string_dec l "X" + count_occ string_dec l "O"
   + count_occ string_dec l " ")%nat = length l.
Proof.
  induction 1 as [|c l Hc _ IH]; [done|].
  cbn [count_occ length].
  destruct Hc as [->|[->| ->]];
    repeat match goal with
           | |- context [string_dec ?a ?b] => destruct (string_dec a b); try done
           end; lia.
Qed.

Lemma concat_length_wf8 {A} (m : list (list A)) : wf8 m -> length (concat m) = 64%nat.
Proof. intros Hwf. explode_board m Hwf. reflexivity. Qed.

Lemma count_cells_total (b : Board) :
  board_inv b ->
  count_cells "X" b + count_cells "O" b + count_cells " " b = 64.
Proof.
  intros [Hwf Hok]. unfold count_cells.
  pose proof (count_three (concat b)) as H.
  rewrite concat_length_wf8 in H by done.
  rewrite <- !Nat2Z.inj_add, H; [done|]. by apply Forall_concat.
Qed.

Lemma get_cell_ok (b : Board) (x y : Z) (c : string) :
  cells_ok b -> get_cell b x y = Ok c -> cell_ok c.
Proof.
  intros Hok (kx & ky & col & _ & Hc & _ & Ha)%getitem2_Ok.
  unfold cells_ok in Hok. rewrite Forall_lookup in Hok.
  specialize (Hok _ _ Hc). rewrite Forall_lookup in Hok. eauto.
Qed.

(** ** [make_move] on an 8x8 board *)

Lemma write_cells_ok (tile : string) (l : list (Z * Z)) :
  Forall (fun p => is_on_board (fst p) (snd p) = true) l ->
  forall b, wf8 b ->
    exists b', for_each l (fun '(x, y) => write_cell x y tile) b = (b', Ok tt) /\
               wf8 b'.
Proof.
  induction 1 as [|[x y] l Hon _ IH]; intros b Hwf.
  - exists b. by split.
  - cbn [fst snd] in Hon. cbn [for_each]. unfold bind at 1.
    destruct (setitem2_on_board b x y tile Hwf Hon) as [b1 Hset].
    unfold write_cell at 1, writing, set_cell. rewrite Hset.
    apply IH. by eapply setitem2_wf8.
Qed.

(** A legal move is applied: [make_move] returns [True] and an 8x8 board. *)
Lemma make_move_legal (b : Board) (tile : string) (x y : Z) :
  wf8 b -> truthy (evaluate b tile x y) = true ->
  exists nb, make_move tile x y b = (nb, Ok true) /\ wf8 nb.
Proof.
  intros Hwf Hlegal.
  pose proof Hlegal as (Hev & Hon & _)%evaluate_truthy.
  unfold make_move, bind. rewrite is_valid_move_on_board by done.
  rewrite Hev in Hlegal |- *. rewrite Hlegal. cbn [negb].
  destruct (setitem2_on_board b x y tile Hwf Hon) as [b1 Hset].
  unfold write_cell at 1, writing, set_cell. rewrite Hset.
  destruct (write_cells_ok tile _ (flips_on_board b tile x y) b1) as (nb & Hnb & Hwfnb).
  { by eapply setitem2_wf8. }
  rewrite Hnb. by exists nb.
Qed.

(** An illegal move is refused: [make_move] returns [False] and the board is
    the one it was given. *)
Lemma make_move_illegal (b : Board) (tile : string) (x y : Z) :
  wf8 b -> is_on_board x y = true -> truthy (evaluate b tile x y) = false ->
  make_move tile x y b = (b, Ok false).
Proof.
  intros Hwf Hon Hill. unfold make_move, bind.
  rewrite is_valid_move_on_board by done.
  destruct (evaluate b tile x y) as [|l]; [done|]. by rewrite Hill.
Qed.

(** A tile that is no cell value captures nothing: no walk can end on it. *)
Lemma spec_walk_foreign (b : Board) (tile other : string) (dx dy : Z) :
  cells_ok b -> ~ cell_ok tile ->
  forall (n : nat) (x y : Z), spec_walk n b tile other dx dy x y = None.
Proof.
  intros Hok Ht. induction n as [|n IH]; intros x y; [done|].
  cbn [spec_walk]. destruct (is_on_board x y); [|done].
  destruct (get_cell b x y) as [c| |] eqn:Hc; [|done..].
  destruct (String.eqb c other); [by rewrite IH|].
  destruct (String.eqb_spec c tile) as [->|]; [|done].
  destruct Ht. by eapply get_cell_ok.
Qed.

Lemma evaluate_foreign (b : Board) (tile : string) (x y : Z) :
  cells_ok b -> ~ cell_ok tile -> evaluate b tile x y = PyFalse.
Proof.
  intros Hok Ht. unfold evaluate. destruct (is_on_board x y); [|done].
  destruct (get_cell b x y) as [c| |]; [|done..].
  destruct (String.eqb c " "); [|done].
  unfold flips_farthest_first, spec_direction, DIRECTIONS. cbn [map].
  by rewrite !(spec_walk_foreign b tile _ _ _ Hok Ht).
Qed.

(** Whatever the tile, [make_move] keeps the board invariant. *)
Lemma make_move_inv_any (tile : string) (x y : Z) :
  preserves board_inv (make_move tile x y).
Proof.
  destruct (String.eqb_spec tile " ") as [->|Hn1];
    [apply make_move_inv; unfold cell_ok; tauto|].
  destruct (String.eqb_spec tile "X") as [->|Hn2];
    [apply make_move_inv; unfold cell_ok; tauto|].
  destruct (String.eqb_spec tile "O") as [->|Hn3];
    [apply make_move_inv; unfold cell_ok; tauto|].
  assert (Ht : ~ cell_ok tile) by (unfold cell_ok; tauto).
  intros b [Hwf Hok]. destruct (is_on_board x y) eqn:Hon.
  - rewrite make_move_illegal; [done..|]. by rewrite evaluate_foreign.
  - unfold make_move, bind. rewrite is_valid_move_off_board by done.
    by destruct (get_cell b x y).
Qed.

Lemma reachable_inv (b : Board) : reachable b -> board_inv b.
Proof.
  induction 1 as [|b tile x y _ IH].
  - apply initial_board_inv.
  - by apply make_move_inv_any.
Qed.

(** ** [step] *)

Lemma set_board_same (g : OthelloGame) : set_board (board g) g = g.
Proof. by destruct g. Qed.

(** A move that [is_valid_move] refuses: penalty, nothing changes. *)
Lemma step_refused (g : OthelloGame) (action : Z * Z) :
  wf_game g ->
  snd (is_valid_move (player_tile g) (fst action) (snd action) (board g)) = Ok PyFalse ->
  step action g = (g, Ok (-10, board g, false)).
Proof.
  intros Hwf Hv. unfold step, bind, reading, on_self_board.
  rewrite copy_wf by done.
  pose proof (is_valid_move_frame (board g) (player_tile g) (fst action) (snd action) Hwf)
    as Hf.
  destruct (is_valid_move _ _ _ _) as [b r]. cbn [fst snd] in *. subst.
  cbn [truthy negb]. by rewrite set_board_same.
Qed.

(** A legal move: the board after [make_move] becomes the game's board. *)
Lemma step_legal (g : OthelloGame) (x y : Z) :
  wf_game g ->
  truthy (evaluate (board g) (player_tile g) x y) = true ->
  exists nb,
    make_move (player_tile g) x y (board g) = (nb, Ok true) /\ wf8 nb /\
    step (x, y) g
    = (set_board nb g,
       Ok (if game_over nb g then field_reward g else 0, nb, game_over nb g)).
Proof.
  intros Hwf Hlegal.
  pose proof Hlegal as (_ & Hon & _)%evaluate_truthy.
  destruct (make_move_legal _ _ _ _ Hwf Hlegal) as (nb & Hmove & Hwfnb).
  exists nb. split; [done|]. split; [done|].
  unfold step, bind, reading, on_self_board, on_local, writing, ret. cbn [fst snd].
  rewrite copy_wf by done.
  rewrite is_valid_move_on_board by done.
  rewrite Hlegal. cbn [negb]. rewrite set_board_same.
  rewrite Hmove. cbn [obind fst snd].
  assert (Hshown :
    (if stepper g
     then bind (on_local draw nb) (fun drawn =>
            bind (reading (fun _ => list_to_array (fst drawn)))
              (fun _ => ret (fst drawn)))
     else ret nb) g = (g, Ok nb)).
  { destruct (stepper g); [|done].
    unfold bind, on_local, reading, ret. rewrite draw_wf by done.
    cbn [obind fst]. by rewrite list_to_array_wf. }
  unfold bind, on_local, reading, ret in Hshown. rewrite Hshown. clear Hshown.
  rewrite get_valid_moves_wf by done. cbn [obind fst snd].
  unfold game_over, field_reward.
  destruct (Nat.eqb (length (legal_moves nb (player_tile g))) 0); cbn [negb andb].
  - rewrite get_valid_moves_wf by done. cbn [obind fst snd].
    destruct (Nat.eqb (length (legal_moves nb (computer_tile g))) 0);
      by rewrite copy_wf.
  - by rewrite copy_wf.
Qed.

(** Whatever the action, the board [step] leaves in the game object is the
    one [make_move] with the player's tile leaves. *)
Lemma step_board (g : OthelloGame) (action : Z * Z) :
  wf_game g ->
  board (fst (step action g))
  = fst (make_move (player_tile g) (fst action) (snd action) (board g)).
Proof.
  intros Hwf. destruct action as [x y]. cbn [fst snd].
  destruct (is_on_board x y) eqn:Hon.
  - destruct (truthy (evaluate (board g) (player_tile g) x y)) eqn:Ht.
    + destruct (step_legal g x y Hwf Ht) as (nb & Hmove & _ & Hstep).
      by rewrite Hstep, Hmove.
    + rewrite make_move_illegal by done.
      rewrite step_refused; [done|done|].
      cbn [fst snd]. rewrite is_valid_move_on_board by done.
      cbn [snd]. by rewrite evaluate_falsy.
  - pose proof (is_valid_move_off_board (board g) (player_tile g) x y Hon) as Hv.
    assert (fst (make_move (player_tile g) x y (board g)) = board g) as ->.
    { unfold make_move, bind. rewrite Hv. by destruct (get_cell (board g) x y). }
    destruct (get_cell (board g) x y) as [c| |] eqn:Hc.
    + rewrite step_refused; [done|done|]. cbn [fst snd]. by rewrite Hv.
    + unfold step, bind, reading, on_self_board. rewrite copy_wf by done.
      cbn [fst snd]. rewrite Hv. by rewrite set_board_same.
    + unfold step, bind, reading, on_self_board. rewrite copy_wf by done.
      cbn [fst snd]. rewrite Hv. by rewrite set_board_same.
Qed.

Lemma preserves_on_self_board {A} (P : OthelloGame -> Prop) (m : M Board A) :
  (forall b g, P g -> P (set_board b g)) -> preserves P (on_self_board m).
Proof.
  intros HP g Hg. unfold on_self_board.
  destruct (m (board g)) as [b r]. cbn [fst]. auto.
Qed.

Lemma preserves_on_local {A} (P : OthelloGame -> Prop) (m : M Board A) (obj : Board) :
  preserves P (on_local m obj).
Proof. intros g Hg. unfold on_local. by destruct (m obj). Qed.

Ltac preserve_step :=
  repeat first
    [ apply preserves_ret
    | apply preserves_reading
    | apply preserves_on_local
    | apply preserves_bind; [|intros ?]
    | match goal with
      | |- preserves _ (if ?c then _ else _) => destruct c
      | |- preserves _ (let '(_, _) := ?p in _) => destruct p
      end ].

(** [step] assigns no field of the game object but [board]. *)
Lemma step_preserves (P : OthelloGame -> Prop) (action : Z * Z) :
  (forall b g, P g -> P (set_board b g)) -> preserves P (step action).
Proof.
  intros HP. unfold step. preserve_step.
  - by apply preserves_on_self_board.
  - apply preserves_writing. intros s s' Hs [= <-]. by apply HP.
Qed.

Lemma same_tiles_set_board (g0 : OthelloGame) (b : Board) (g : OthelloGame) :
  same_tiles g0 g -> same_tiles g0 (set_board b g).
Proof. by intros [? ?]. Qed.

Lemma steps_same_tiles (actions : list (Z * Z)) (g : OthelloGame) :
  same_tiles g (steps actions g).
Proof.
  assert (forall g0, same_tiles g0 g -> same_tiles g0 (steps actions g)) as H.
  { revert g. induction actions as [|a rest IH]; intros g g0 Hg; [done|].
    cbn [steps]. apply IH. apply (step_preserves (same_tiles g0)); [|done].
    apply same_tiles_set_board. }
  apply H. by split.
Qed.

Lemma Board_init_empty : Board__init__ [] = (initial_board, Ok tt).
Proof. vm_compute. reflexivity. Qed.

Lemma new_game_init : OthelloGame__init__ false false = Ok new_game.
Proof. unfold OthelloGame__init__. by rewrite Board_init_empty. Qed.

Lemma new_game_reset : game_reset new_game = (new_game, Ok tt).
Proof. reflexivity. Qed.

Lemma new_game_wf : wf_game new_game.
Proof. apply initial_board_inv. Qed.

Lemma line_board_reachable : reachable line_board.
Proof. unfold line_board. do 3 apply reach_move. apply reach_reset. Qed.

(** ** The claims *)

(** C1 (the code departs from the claim).  From a new game Black plays (2,4)
    and then (4,2); the second [step] ends the game with six black cells and
    no white cell on the board, yet the reward is 0, not +1: [step] compares
    the fields [player_score] and [computer_score], which it never updates. *)
Theorem step_terminal_reward_stale :
  let g1 := fst (step (2, 4) new_game) in
  exists b scores,
    step (4, 2) g1 = (set_board b g1, Ok (0, b, true)) /\
    get_score b = Ok scores /\
    scores !! player_tile g1 = Some 6 /\
    scores !! computer_tile g1 = Some 0.
Proof.
  cbn zeta. eexists. eexists. split; [vm_compute; reflexivity|].
  split; [vm_compute; reflexivity|]. split; vm_compute; reflexivity.
Qed.

(** C2.  When [is_valid_move] returns [False] for the submitted action,
    [step] returns the penalty -10 and the terminal flag [False], the board
    it returns is the board it was given, and the game object (board, tiles,
    scores, flags) is unchanged. *)
Theorem step_invalid_move_penalty (g : OthelloGame) (action : Z * Z) :
  wf_game g ->
  snd (is_valid_move (player_tile g) (fst action) (snd action) (board g)) = Ok PyFalse ->
  exists g' b,
    step action g = (g', Ok (-10, b, false)) /\
    b = board g /\ g' = g.
Proof.
  intros Hwf Hv. exists g, (board g). by rewrite step_refused.
Qed.

Lemma step_invalid_move_penalty_witness :
  exists g' b,
    step (0, 0) new_game = (g', Ok (-10, b, false)) /\
    b = board new_game /\ g' = new_game.
Proof.
  apply (step_invalid_move_penalty new_game (0, 0)).
  - apply new_game_wf.
  - vm_compute. reflexivity.
Defined.

(** C3.  For a legal action on a game whose two tiles are the two colours,
    [step] returns normally, and the terminal flag it returns is [True]
    exactly when the set of legal moves is empty for Black and for White on
    the board after the move.  The legal moves are [legal_moves], the cells
    whose capture by the rule of the specification is not empty, defined
    without [get_valid_moves]; the same equivalence holds for what
    [get_valid_moves] returns on that board. *)
Theorem step_terminal_iff_no_moves (g : OthelloGame) (action : Z * Z)
    (v : flips_or_false) :
  wf_game g ->
  (player_tile g = "X" /\ computer_tile g = "O") \/
  (player_tile g = "O" /\ computer_tile g = "X") ->
  snd (is_valid_move (player_tile g) (fst action) (snd action) (board g)) = Ok v ->
  truthy v = true ->
  In action (legal_moves (board g) (player_tile g)) /\
  exists g' reward b terminal,
    step action g = (g', Ok (reward, b, terminal)) /\
    b = fst (make_move (player_tile g) (fst action) (snd action) (board g)) /\
    (terminal = true <-> legal_moves b "X" = [] /\ legal_moves b "O" = []) /\
    (terminal = true <->
     get_valid_moves "X" b = (b, Ok []) /\ get_valid_moves "O" b = (b, Ok [])).
Proof.
  intros Hwf Htiles Hv Ht. destruct action as [x y]. cbn [fst snd] in *.
  destruct (is_valid_move_legal _ _ _ _ _ Hwf Hv Ht) as [Hon ->].
  split; [by apply legal_moves_In|].
  destruct (step_legal g x y Hwf Ht) as (nb & Hmove & Hwfnb & Hstep).
  rewrite Hstep, Hmove. cbn [fst].
  eexists _, _, nb, _. split; [reflexivity|]. split; [done|].
  rewrite !get_valid_moves_wf by done. unfold game_over.
  rewrite andb_true_iff, !Nat.eqb_eq, !length_zero_iff_nil.
  destruct Htiles as [[-> ->]|[-> ->]]; split; split.
  - intros [H1 H2]. split; [exact H1|exact H2].
  - intros [H1 H2]. split; [exact H1|exact H2].
  - intros [-> ->]. split; reflexivity.
  - intros [[= ->] [= ->]]. split; reflexivity.
  - intros [H1 H2]. split; [exact H2|exact H1].
  - intros [H1 H2]. split; [exact H2|exact H1].
  - intros [-> ->]. split; reflexivity.
  - intros [[= ->] [= ->]]. split; reflexivity.
Qed.

Lemma step_terminal_iff_no_moves_witness :
  In (2, 4) (legal_moves initial_board "X") /\
  exists g' reward b terminal,
    step (2, 4) new_game = (g', Ok (reward, b, terminal)) /\
    b = fst (make_move "X" 2 4 initial_board) /\
    (terminal = true <-> legal_moves b "X" = [] /\ legal_moves b "O" = []) /\
    (terminal = true <->
     get_valid_moves "X" b = (b, Ok []) /\ get_valid_moves "O" b = (b, Ok [])).
Proof.
  apply (step_terminal_iff_no_moves new_game (2, 4) (Tiles [(3, 4)])).
  - apply new_game_wf.
  - left. split; reflexivity.
  - vm_compute. reflexivity.
  - reflexivity.
Defined.

(** C4.  On an 8x8 board, for any tile and any coordinates on the board,
    [is_valid_move] returns normally and the board after the call is the
    board before it, whatever the verdict. *)
Theorem is_valid_move_leaves_board (b : Board) (tile : string) (x y : Z) :
  wf8 b -> is_on_board x y = true ->
  exists r, is_valid_move tile x y b = (b, Ok r).
Proof.
  intros Hwf Hon. exists (evaluate b tile x y). by apply is_valid_move_on_board.
Qed.

Lemma is_valid_move_leaves_board_witness :
  exists r, is_valid_move "O" 1 3 line_board = (line_board, Ok r).
Proof.
  apply (is_valid_move_leaves_board line_board "O" 1 3).
  - apply (reachable_inv _ line_board_reachable).
  - reflexivity.
Defined.

(** C5.  For an 8x8 board whose cells are all Empty, Black or White,
    [list_to_array] succeeds and [array_to_list] applied to its result, on
    any 8x8 board object, rebuilds the board cell for cell. *)
Theorem array_to_list_list_to_array (b self : Board) :
  board_inv b -> wf8 self ->
  exists state,
    list_to_array b = Ok state /\ array_to_list state self = (b, Ok b).
Proof.
  intros [Hwf Hok] Hself. exists (matrix_of b). split.
  - by apply list_to_array_wf.
  - rewrite array_to_list_wf by (done || by apply matrix_of_wf).
    by rewrite board_of_matrix_of.
Qed.

Lemma array_to_list_list_to_array_witness :
  exists state,
    list_to_array line_board = Ok state /\
    array_to_list state initial_board = (line_board, Ok line_board).
Proof.
  apply (array_to_list_list_to_array line_board initial_board).
  - apply (reachable_inv _ line_board_reachable).
  - apply initial_board_inv.
Defined.

(** C6, as claimed, fails: on the reset board the moves [get_valid_moves]
    finds for Black are not the set (2,3), (3,2), (4,5), (5,4). *)
Lemma initial_black_moves_not_as_claimed :
  exists l,
    get_valid_moves "X" initial_board = (initial_board, Ok l) /\
    ~ (forall p, In p l <-> In p [(2, 3); (3, 2); (4, 5); (5, 4)]).
Proof.
  eexists. split; [vm_compute; reflexivity|].
  intros H. specialize (H (2, 4)). destruct H as [H _].
  specialize (H ltac:(by left)). simpl in H.
  repeat (destruct H as [H|H]; [discriminate H|]). done.
Qed.

(** C6, amended.  The reset board has Black on (3,3) and (4,4), White on
    (3,4) and (4,3); on it [get_valid_moves] returns (2,4), (3,5), (4,2),
    (5,3) for Black, and the four moves of the claim for White. *)
Theorem initial_legal_moves :
  get_cell initial_board 3 3 = Ok "X" /\ get_cell initial_board 3 4 = Ok "O" /\
  get_cell initial_board 4 3 = Ok "O" /\ get_cell initial_board 4 4 = Ok "X" /\
  get_valid_moves "X" initial_board
    = (initial_board, Ok [(2, 4); (3, 5); (4, 2); (5, 3)]) /\
  get_valid_moves "O" initial_board
    = (initial_board, Ok [(2, 3); (3, 2); (4, 5); (5, 4)]).
Proof. repeat split; vm_compute; reflexivity. Qed.

(** C7 (the code departs from the claim).  With a coordinate past the last
    index, the subscript [self.board[x_start][y_start]] is evaluated before
    [is_on_board] and raises [IndexError]; nothing is returned. *)
Theorem is_valid_move_past_edge_raises :
  is_valid_move "X" 8 0 initial_board = (initial_board, Raise IndexError).
Proof. reflexivity. Qed.

(** C8.  A board reached from the reset board by [make_move] calls, whatever
    their arguments, is 8x8, each of its cells is Empty, Black or White, and
    the two counts of [get_score] and the count of empty cells add up to
    64. *)
Theorem reachable_cell_count (b : Board) :
  reachable b ->
  wf8 b /\
  (forall x y, is_on_board x y = true ->
     exists c, get_cell b x y = Ok c /\ cell_ok c) /\
  exists scores black white,
    get_score b = Ok scores /\
    scores !! "X" = Some black /\ scores !! "O" = Some white /\
    black + white + count_cells " " b = 64.
Proof.
  intros Hr. pose proof (reachable_inv b Hr) as [Hwf Hok].
  split; [done|]. split.
  - intros x y Hon. destruct (getitem2_on_board b x y Hwf Hon) as [c Hc].
    exists c. split; [done|]. by eapply get_cell_ok.
  - eexists _, (count_cells "X" b), (count_cells "O" b).
    split; [by apply get_score_wf|].
    split; [done|]. split; [done|]. by apply count_cells_total.
Qed.

Lemma reachable_cell_count_witness :
  wf8 line_board /\
  (forall x y, is_on_board x y = true ->
     exists c, get_cell line_board x y = Ok c /\ cell_ok c) /\
  exists scores black white,
    get_score line_board = Ok scores /\
    scores !! "X" = Some black /\ scores !! "O" = Some white /\
    black + white + count_cells " " line_board = 64.
Proof. apply (reachable_cell_count line_board), line_board_reachable. Defined.

(** C9, as claimed, fails: on [line_board] White's move at (1,3) captures
    (2,3) and (3,3) in one direction, and [is_valid_move] lists (3,3), the
    farther of the two, first. *)
Lemma flips_not_nearest_first :
  snd (is_valid_move "O" 1 3 line_board) = Ok (Tiles [(3, 3); (2, 3)]) /\
  flips_nearest_first line_board "O" 1 3 = [(2, 3); (3, 3)] /\
  ~ (forall l, snd (is_valid_move "O" 1 3 line_board) = Ok (Tiles l) ->
               l = flips_nearest_first line_board "O" 1 3).
Proof.
  split; [vm_compute; reflexivity|]. split; [vm_compute; reflexivity|].
  intros H. specialize (H [(3, 3); (2, 3)] ltac:(vm_compute; reflexivity)).
  vm_compute in H. discriminate H.
Qed.

(** C9, amended.  On an 8x8 board, the list [is_valid_move] returns for a
    legal move is the concatenation, over the eight directions in their
    enumerated order, of the cells captured in that direction, the cell
    farthest from the move first and the nearest last. *)
Theorem is_valid_move_flips_order (b : Board) (tile : string) (x y : Z)
    (l : list (Z * Z)) :
  wf8 b ->
  snd (is_valid_move tile x y b) = Ok (Tiles l) ->
  l = concat (map (fun d => rev (spec_direction b tile x y d)) DIRECTIONS).
Proof.
  intros Hwf Hl. destruct (is_on_board x y) eqn:Hon.
  - rewrite is_valid_move_on_board in Hl by done. cbn [snd] in Hl.
    injection Hl as Hl. pose proof (evaluate_Tiles _ _ _ _ _ Hl) as Ht.
    apply evaluate_truthy in Ht as (Hev & _).
    rewrite Hev in Hl. by injection Hl as <-.
  - rewrite is_valid_move_off_board in Hl by done. cbn [snd] in Hl.
    by destruct (get_cell b x y).
Qed.

Lemma is_valid_move_flips_order_witness :
  [(3, 3); (2, 3)]
  = concat (map (fun d => rev (spec_direction line_board "O" 1 3 d)) DIRECTIONS).
Proof.
  apply (is_valid_move_flips_order line_board "O" 1 3 [(3, 3); (2, 3)]).
  - apply (reachable_inv _ line_board_reachable).
  - vm_compute. reflexivity.
Defined.

(** C10.  A new game tracks Black.  Every [step], whatever its outcome,
    leaves [player_tile] and [computer_tile] as they were, and so does any
    sequence of [step] calls; and on an 8x8 board the board a [step] leaves
    is the one [make_move] with the player's tile leaves: no other move is
    played. *)
Theorem step_keeps_sides (g : OthelloGame) (action : Z * Z) :
  (forall interactive show_steps g0,
     OthelloGame__init__ interactive show_steps = Ok g0 ->
     player_tile g0 = "X" /\ computer_tile g0 = "O") /\
  same_tiles g (fst (step action g)) /\
  (forall actions, same_tiles g (steps actions g)) /\
  (wf_game g ->
   board (fst (step action g))
   = fst (make_move (player_tile g) (fst action) (snd action) (board g))).
Proof.
  split; [|split; [|split]].
  - intros i s g0. unfold OthelloGame__init__. rewrite Board_init_empty.
    cbn [obind]. intros [= <-]. split; reflexivity.
  - apply (step_preserves (same_tiles g)); [|by split].
    apply same_tiles_set_board.
  - intros actions. apply steps_same_tiles.
  - apply step_board.
Qed.

Lemma step_keeps_sides_witness :
  same_tiles new_game (fst (step (2, 4) new_game)) /\
  board (fst (step (2, 4) new_game)) = fst (make_move "X" 2 4 initial_board).
Proof.
  destruct (step_keeps_sides new_game (2, 4)) as (_ & Hsame & _ & Hboard).
  split; [exact Hsame|]. apply Hboard. apply new_game_wf.
Defined.

(** * Part IV: further properties of the code *)

(** ** What a move captures *)

Lemma In_ray (m : nat) (x y dx dy : Z) (p : Z * Z) :
  In p (ray m x y dx dy) ->
  exists j : nat, (j < m)%nat /\ p = (x + Z.of_nat j * dx, y + Z.of_nat j * dy).
Proof.
  revert x y. induction m as [|m IH]; intros x y; [done|].
  cbn [ray]. intros [<-|Hin].
  - exists 0%nat. split; [lia|]. f_equal; lia.
  - destruct (IH _ _ Hin) as (j & Hj & ->). exists (S j). split; [lia|].
    f_equal; lia.
Qed.

(** The cells a walk captures are consecutive cells of the ray it follows,
    all on the board and all of the other colour. *)
Lemma spec_walk_ray (b : Board) (tile other : string) (dx dy : Z) :
  forall (n : nat) (x y : Z) (l : list (Z * Z)),
    spec_walk n b tile other dx dy x y = Some l ->
    l = ray (length l) x y dx dy /\
    Forall (fun p => get_cell b (fst p) (snd p) = Ok other) l.
Proof.
  induction n as [|n IH]; intros x y l; [done|].
  cbn [spec_walk]. destruct (is_on_board x y); [|done].
  destruct (get_cell b x y) as [c| |] eqn:Hc; [|done..].
  destruct (String.eqb_spec c other) as [->|].
  - destruct (spec_walk n b tile other dx dy (x + dx) (y + dy)) as [l'|] eqn:E;
      [|done].
    intros [= <-]. destruct (IH _ _ _ E) as [Hl Hall]. split.
    + cbn [length ray]. by rewrite <- Hl.
    + by constructor.
  - destruct (String.eqb c tile); [|done]. intros [= <-]. by split.
Qed.

Lemma spec_direction_cells (b : Board) (tile : string) (x y : Z) (d : Z * Z) (p : Z * Z) :
  In d DIRECTIONS -> In p (spec_direction b tile x y d) ->
  is_on_board (fst p) (snd p) = true /\
  get_cell b (fst p) (snd p) = Ok (opposite tile) /\
  exists k : Z, 1 <= k /\ p = (x + k * fst d, y + k * snd d).
Proof.
  intros Hd Hp. unfold spec_direction in Hp.
  destruct (spec_walk _ _ _ _ _ _ _ _) as [l|] eqn:E; [|done].
  pose proof (spec_walk_cells_on_board _ _ _ _ _ _ _ _ _ E) as Hon.
  destruct (spec_walk_ray _ _ _ _ _ _ _ _ _ E) as [Hray Hother].
  rewrite Forall_forall in Hon, Hother.
  apply list_elem_of_In in Hp.
  split; [by apply Hon|]. split; [by apply Hother|].
  rewrite Hray in Hp. apply list_elem_of_In, In_ray in Hp as (j & _ & ->).
  exists (Z.of_nat j + 1). split; [lia|]. f_equal; lia.
Qed.

Lemma flips_cells (b : Board) (tile : string) (x y : Z) (p : Z * Z) :
  In p (flips_farthest_first b tile x y) ->
  is_on_board (fst p) (snd p) = true /\
  get_cell b (fst p) (snd p) = Ok (opposite tile) /\
  p <> (x, y).
Proof.
  unfold flips_farthest_first. intros (l & Hl & Hp)%in_concat.
  apply in_map_iff in Hl as (d & <- & Hd).
  apply in_rev in Hp.
  destruct (spec_direction_cells b tile x y d p Hd Hp) as (Hon & Hc & k & Hk & ->).
  split; [done|]. split; [done|].
  destruct d as [dx dy]. cbn [fst snd]. clear -Hd Hk.
  intros [= Hx Hy]. each_direction Hd; lia.
Qed.

(** X6.  When [is_valid_move] returns a list on an 8x8 board, the cell asked
    for is on the board and empty, the list is not empty, and every cell in
    it is on the board, holds the opposite colour and is not the cell asked
    for. *)
Theorem is_valid_move_sound (b : Board) (tile : string) (x y : Z) (l : list (Z * Z)) :
  wf8 b ->
  snd (is_valid_move tile x y b) = Ok (Tiles l) ->
  is_on_board x y = true /\ get_cell b x y = Ok " " /\ l <> [] /\
  forall p, In p l ->
    is_on_board (fst p) (snd p) = true /\
    get_cell b (fst p) (snd p) = Ok (opposite tile) /\
    p <> (x, y).
Proof.
  intros Hwf Hl.
  assert (Ht : truthy (evaluate b tile x y) = true /\ evaluate b tile x y = Tiles l).
  { destruct (is_on_board x y) eqn:Hon.
    - rewrite is_valid_move_on_board in Hl by done. cbn [snd] in Hl.
      injection Hl as Hl. split; [by eapply evaluate_Tiles|done].
    - rewrite is_valid_move_off_board in Hl by done. cbn [snd] in Hl.
      by destruct (get_cell b x y). }
  destruct Ht as [Ht Hev]. pose proof Ht as (Hev' & Hon & Hc)%evaluate_truthy.
  rewrite Hev in Hev'. injection Hev' as ->.
  split; [done|]. split; [done|]. split.
  - rewrite Hev in Ht. cbn [truthy] in Ht.
    intros Hnil. by rewrite Hnil in Ht.
  - apply flips_cells.
Qed.

Lemma is_valid_move_sound_witness :
  is_on_board 1 3 = true /\ get_cell line_board 1 3 = Ok " " /\
  [(3, 3); (2, 3)] <> [] /\
  forall p, In p [(3, 3); (2, 3)] ->
    is_on_board (fst p) (snd p) = true /\
    get_cell line_board (fst p) (snd p) = Ok (opposite "O") /\
    p <> (1, 3).
Proof.
  apply (is_valid_move_sound line_board "O" 1 3 [(3, 3); (2, 3)]).
  - apply (reachable_inv _ line_board_reachable).
  - vm_compute. reflexivity.
Defined.

(** ** What [make_move] does to the board *)

(** Cell by cell, what a loop of writes of one value leaves. *)
Lemma write_cells_effect (v : string) (l : list (Z * Z)) :
  Forall (fun p => is_on_board (fst p) (snd p) = true) l ->
  forall b b', wf8 b ->
    for_each l (fun '(x, y) => write_cell x y v) b = (b', Ok tt) ->
    forall x y, is_on_board x y = true ->
      (In (x, y) l -> get_cell b' x y = Ok v) /\
      (~ In (x, y) l -> get_cell b' x y = get_cell b x y).
Proof.
  induction 1 as [|[x0 y0] l Hon0 _ IH]; intros b b' Hwf Hrun x y Hon.
  - injection Hrun as <-. by split.
  - cbn [fst snd] in Hon0. cbn [for_each] in Hrun. unfold bind at 1 in Hrun.
    destruct (setitem2_on_board b x0 y0 v Hwf Hon0) as [b1 Hset].
    unfold write_cell at 1, writing, set_cell in Hrun. rewrite Hset in Hrun.
    assert (Hwf1 : wf8 b1) by (by eapply setitem2_wf8).
    destruct (IH b1 b' Hwf1 Hrun x y Hon) as [Hin Hout].
    destruct (in_dec (fun p q : Z * Z => decide (p = q)) (x, y) l) as [Hl|Hl].
    + split; [auto|]. intros Hn. destruct Hn. by right.
    + rewrite (Hout Hl). unfold get_cell.
      destruct (decide ((x0, y0) = (x, y))) as [[= -> ->]|Hne].
      * split; [|intros Hn; destruct Hn; by left].
        intros _. by eapply getitem2_setitem2_eq.
      * assert (x0 <> x \/ y0 <> y) by (destruct (decide (x0 = x)); [right|left]; congruence).
        rewrite (getitem2_setitem2_ne b b1 x0 y0 x y v) by done.
        split; [|done]. intros [[= -> ->]|?]; done.
Qed.

(** The board [make_move] leaves after a legal move, cell by cell. *)
Lemma make_move_cells (b : Board) (tile : string) (x y : Z) :
  wf8 b -> truthy (evaluate b tile x y) = true ->
  exists nb,
    make_move tile x y b = (nb, Ok true) /\ wf8 nb /\
    forall x' y', is_on_board x' y' = true ->
      ((x', y') = (x, y) \/ In (x', y') (flips_farthest_first b tile x y) ->
       get_cell nb x' y' = Ok tile) /\
      (~ ((x', y') = (x, y) \/ In (x', y') (flips_farthest_first b tile x y)) ->
       get_cell nb x' y' = get_cell b x' y').
Proof.
  intros Hwf Hlegal.
  pose proof Hlegal as (Hev & Hon & _)%evaluate_truthy.
  destruct (make_move_legal b tile x y Hwf Hlegal) as (nb & Hmove & Hwfnb).
  exists nb. split; [done|]. split; [done|].
  unfold make_move, bind in Hmove. rewrite is_valid_move_on_board in Hmove by done.
  rewrite Hev in Hlegal, Hmove. rewrite Hlegal in Hmove. cbn [negb] in Hmove.
  destruct (setitem2_on_board b x y tile Hwf Hon) as [b1 Hset].
  unfold write_cell at 1, writing, set_cell in Hmove. rewrite Hset in Hmove.
  assert (Hwf1 : wf8 b1) by (by eapply setitem2_wf8).
  destruct (write_cells_ok tile _ (flips_on_board b tile x y) b1 Hwf1)
    as (nb' & Hrun & _).
  rewrite Hrun in Hmove. injection Hmove as <-.
  intros x' y' Hon'.
  destruct (write_cells_effect tile _ (flips_on_board b tile x y) b1 nb' Hwf1 Hrun
              x' y' Hon') as [Hin Hout].
  destruct (in_dec (fun p q : Z * Z => decide (p = q)) (x', y')
              (flips_farthest_first b tile x y)) as [Hl|Hl].
  - split; [auto|]. intros Hn. destruct Hn. by right.
  - rewrite (Hout Hl). unfold get_cell.
    destruct (decide ((x', y') = (x, y))) as [[= -> ->]|Hne].
    + split; [|intros Hn; destruct Hn; by left].
      intros _. by eapply getitem2_setitem2_eq.
    + assert (x <> x' \/ y <> y') by (destruct (decide (x = x')); [right|left]; congruence).
      rewrite (getitem2_setitem2_ne b b1 x y x' y' tile) by done.
      split; [|done]. intros [?|?]; done.
Qed.

Lemma is_valid_move_Tiles (b : Board) (tile : string) (x y : Z) (l : list (Z * Z)) :
  wf8 b -> snd (is_valid_move tile x y b) = Ok (Tiles l) ->
  truthy (evaluate b tile x y) = true /\ l = flips_farthest_first b tile x y.
Proof.
  intros Hwf Hl. destruct (is_on_board x y) eqn:Hon.
  - rewrite is_valid_move_on_board in Hl by done. cbn [snd] in Hl.
    injection Hl as Hl. pose proof (evaluate_Tiles _ _ _ _ _ Hl) as Ht.
    split; [done|]. apply evaluate_truthy in Ht as (Hev & _).
    rewrite Hev in Hl. by injection Hl.
  - rewrite is_valid_move_off_board in Hl by done. cbn [snd] in Hl.
    by destruct (get_cell b x y).
Qed.

(** X2.  When [is_valid_move] returns the list [l] on an 8x8 board,
    [make_move] returns [True] and leaves an 8x8 board on which the cell
    played and every cell of [l] hold the mover's tile and every other cell
    is as it was. *)
Theorem make_move_applies_flips (b : Board) (tile : string) (x y : Z) (l : list (Z * Z)) :
  wf8 b ->
  snd (is_valid_move tile x y b) = Ok (Tiles l) ->
  exists nb,
    make_move tile x y b = (nb, Ok true) /\ wf8 nb /\
    forall x' y', is_on_board x' y' = true ->
      ((x', y') = (x, y) \/ In (x', y') l -> get_cell nb x' y' = Ok tile) /\
      (~ ((x', y') = (x, y) \/ In (x', y') l) -> get_cell nb x' y' = get_cell b x' y').
Proof.
  intros Hwf Hl. destruct (is_valid_move_Tiles b tile x y l Hwf Hl) as [Ht ->].
  by apply make_move_cells.
Qed.

Lemma make_move_applies_flips_witness :
  exists nb,
    make_move "O" 1 3 line_board = (nb, Ok true) /\ wf8 nb /\
    forall x' y', is_on_board x' y' = true ->
      ((x', y') = (1, 3) \/ In (x', y') [(3, 3); (2, 3)] -> get_cell nb x' y' = Ok "O") /\
      (~ ((x', y') = (1, 3) \/ In (x', y') [(3, 3); (2, 3)]) ->
       get_cell nb x' y' = get_cell line_board x' y').
Proof.
  apply (make_move_applies_flips line_board "O" 1 3 [(3, 3); (2, 3)]).
  - apply (reachable_inv _ line_board_reachable).
  - vm_compute. reflexivity.
Defined.

Lemma make_move_outcome (b : Board) (tile : string) (x y : Z) :
  wf8 b ->
  (truthy (evaluate b tile x y) = true /\ snd (make_move tile x y b) = Ok true) \/
  (truthy (evaluate b tile x y) = false /\ fst (make_move tile x y b) = b /\
   snd (make_move tile x y b) <> Ok true).
Proof.
  intros Hwf. destruct (truthy (evaluate b tile x y)) eqn:Ht.
  - left. split; [done|].
    destruct (make_move_legal b tile x y Hwf Ht) as (nb & -> & _). done.
  - right. split; [done|]. destruct (is_on_board x y) eqn:Hon.
    + by rewrite make_move_illegal.
    + unfold make_move, bind. rewrite is_valid_move_off_board by done.
      by destruct (get_cell b x y).
Qed.

(** X3.  On an 8x8 board [make_move] returns [True] exactly when
    [is_valid_move] returns a list; in every other case, a [False] or an
    exception, the board is left exactly as it was. *)
Theorem make_move_all_or_nothing (b : Board) (tile : string) (x y : Z) :
  wf8 b ->
  (snd (make_move tile x y b) = Ok true <->
   exists l, snd (is_valid_move tile x y b) = Ok (Tiles l)) /\
  (snd (make_move tile x y b) <> Ok true -> fst (make_move tile x y b) = b).
Proof.
  intros Hwf. split; [split|].
  - intros Hm. destruct (make_move_outcome b tile x y Hwf) as [[Ht _]|(_ & _ & Hn)];
      [|done].
    pose proof Ht as (Hev & Hon & _)%evaluate_truthy.
    eexists. rewrite is_valid_move_on_board by done. cbn [snd]. by rewrite Hev.
  - intros [l Hl]. destruct (is_valid_move_Tiles b tile x y l Hwf Hl) as [Ht _].
    destruct (make_move_outcome b tile x y Hwf) as [[_ Hm]|(Hf & _)]; [done|].
    congruence.
  - intros Hn. destruct (make_move_outcome b tile x y Hwf) as [[_ Hm]|(_ & Hb & _)];
      done.
Qed.

Lemma make_move_all_or_nothing_witness :
  (snd (make_move "X" 0 0 initial_board) = Ok true <->
   exists l, snd (is_valid_move "X" 0 0 initial_board) = Ok (Tiles l)) /\
  (snd (make_move "X" 0 0 initial_board) <> Ok true ->
   fst (make_move "X" 0 0 initial_board) = initial_board).
Proof.
  apply (make_move_all_or_nothing initial_board "X" 0 0).
  apply initial_board_inv.
Defined.

(** X13.  After a move with a tile other than blank was applied on an 8x8
    board, the cell played is occupied: [is_valid_move] refuses it for every
    tile. *)
Theorem played_cell_is_refused (b : Board) (tile tile' : string) (x y : Z) :
  wf8 b -> tile <> " " ->
  snd (make_move tile x y b) = Ok true ->
  snd (is_valid_move tile' x y (fst (make_move tile x y b))) = Ok PyFalse.
Proof.
  intros Hwf Hne Hm.
  destruct (make_move_outcome b tile x y Hwf) as [[Ht _]|(_ & _ & Hn)]; [|done].
  pose proof Ht as (_ & Hon & _)%evaluate_truthy.
  destruct (make_move_cells b tile x y Hwf Ht) as (nb & Hmove & _ & Hcells).
  rewrite Hmove. cbn [fst].
  destruct (Hcells x y Hon) as [Hc _].
  by rewrite (is_valid_move_occupied nb tile' tile x y (Hc ltac:(by left)) Hne).
Qed.

Lemma played_cell_is_refused_witness :
  snd (is_valid_move "X" 1 3 (fst (make_move "O" 1 3 line_board))) = Ok PyFalse.
Proof.
  apply (played_cell_is_refused line_board "O" "X" 1 3).
  - apply (reachable_inv _ line_board_reachable).
  - discriminate.
  - vm_compute. reflexivity.
Defined.

(** ** [get_valid_moves] *)

Lemma all_cells_NoDup : NoDup all_cells.
Proof. apply (bool_decide_unpack _). vm_compute. exact I. Qed.

Lemma filter_sublist {A} (f : A -> bool) (l : list A) : sublist (List.filter f l) l.
Proof.
  induction l as [|a l IH]; [constructor|].
  cbn [List.filter]. destruct (f a); by constructor.
Qed.

Lemma is_valid_move_Tiles_iff (b : Board) (tile : string) (x y : Z) :
  wf8 b ->
  truthy (evaluate b tile x y) = true <->
  exists l, snd (is_valid_move tile x y b) = Ok (Tiles l).
Proof.
  intros Hwf. split.
  - intros Ht. pose proof Ht as (Hev & Hon & _)%evaluate_truthy.
    eexists. rewrite is_valid_move_on_board by done. cbn [snd]. by rewrite Hev.
  - intros [l Hl]. by destruct (is_valid_move_Tiles b tile x y l Hwf Hl).
Qed.

(** X5.  On an 8x8 board [get_valid_moves] leaves the board as it was and
    returns, without repetition and in the order of the scan (x ascending,
    then y), exactly the cells for which [is_valid_move] returns a list. *)
Theorem get_valid_moves_exact (b : Board) (tile : string) :
  wf8 b ->
  exists l,
    get_valid_moves tile b = (b, Ok l) /\
    NoDup l /\ sublist l all_cells /\
    forall x y, In (x, y) l <-> exists fl, snd (is_valid_move tile x y b) = Ok (Tiles fl).
Proof.
  intros Hwf. exists (legal_moves b tile).
  split; [by apply get_valid_moves_wf|]. split; [|split].
  - unfold legal_moves.
    apply NoDup_ListNoDup, List.NoDup_filter, NoDup_ListNoDup, all_cells_NoDup.
  - apply filter_sublist.
  - intros x y. rewrite legal_moves_In. by apply is_valid_move_Tiles_iff.
Qed.

Lemma get_valid_moves_exact_witness :
  exists l,
    get_valid_moves "O" line_board = (line_board, Ok l) /\
    NoDup l /\ sublist l all_cells /\
    forall x y, In (x, y) l <->
                exists fl, snd (is_valid_move "O" x y line_board) = Ok (Tiles fl).
Proof.
  apply (get_valid_moves_exact line_board "O").
  apply (reachable_inv _ line_board_reachable).
Defined.

(** ** Colour symmetry *)

Lemma getitem_map {A B} (f : A -> B) (l : list A) (i : Z) :
  getitem (map f l) i = (a <~ getitem l i ;; Ok (f a)).
Proof.
  unfold getitem. rewrite length_map.
  destruct (py_index (length l) i) as [k|]; [|done].
  change (map f l) with (f <$> l). rewrite list_lookup_fmap.
  by destruct (l !! k).
Qed.

Lemma get_cell_map (f : string -> string) (b : Board) (x y : Z) :
  get_cell (map (map f) b) x y = (c <~ get_cell b x y ;; Ok (f c)).
Proof.
  unfold get_cell, getitem2. rewrite getitem_map.
  destruct (getitem b x) as [col| |]; cbn [obind]; [|done..].
  apply getitem_map.
Qed.

Lemma map_map_wf8 {A B} (f : A -> B) (m : list (list A)) :
  wf8 m -> wf8 (map (map f) m).
Proof.
  intros [Hl Hall]. split; [by rewrite length_map|].
  apply Forall_map. eapply Forall_impl; [done|].
  intros col Hc. simpl. by rewrite length_map.
Qed.

Lemma swap_cell_involutive (c : string) : swap_cell (swap_cell c) = c.
Proof.
  unfold swap_cell.
  destruct (String.eqb_spec c "X") as [->|HX]; [done|].
  destruct (String.eqb_spec c "O") as [->|HO]; [done|].
  destruct (String.eqb_spec c "X"); [done|].
  by destruct (String.eqb_spec c "O").
Qed.

Lemma swap_cell_eqb (c d : string) :
  String.eqb (swap_cell c) (swap_cell d) = String.eqb c d.
Proof.
  destruct (String.eqb_spec c d) as [->|Hne]; [apply String.eqb_refl|].
  apply String.eqb_neq. intros Heq. apply Hne.
  by rewrite <- (swap_cell_involutive c), Heq, swap_cell_involutive.
Qed.

Lemma spec_walk_swap (b : Board) (tile other : string) (dx dy : Z) :
  forall (n : nat) (x y : Z),
    spec_walk n (swap_board b) (swap_cell tile) (swap_cell other) dx dy x y
    = spec_walk n b tile other dx dy x y.
Proof.
  induction n as [|n IH]; intros x y; [done|].
  cbn [spec_walk]. destruct (is_on_board x y); [|done].
  unfold swap_board. rewrite get_cell_map.
  destruct (get_cell b x y) as [c| |]; cbn [obind]; [|done..].
  rewrite !swap_cell_eqb. fold (swap_board b). by rewrite IH.
Qed.

Lemma opposite_swap (tile : string) :
  tile = "X" \/ tile = "O" -> opposite (swap_cell tile) = swap_cell (opposite tile).
Proof. by intros [->| ->]. Qed.

Lemma evaluate_swap (b : Board) (tile : string) (x y : Z) :
  tile = "X" \/ tile = "O" ->
  evaluate (swap_board b) (swap_cell tile) x y = evaluate b tile x y.
Proof.
  intros Ht. unfold evaluate. destruct (is_on_board x y); [|done].
  unfold swap_board at 1. rewrite get_cell_map.
  destruct (get_cell b x y) as [c| |]; cbn [obind]; [|done..].
  change " " with (swap_cell " ") at 1. rewrite swap_cell_eqb.
  destruct (String.eqb c " "); [|done].
  assert (flips_farthest_first (swap_board b) (swap_cell tile) x y
          = flips_farthest_first b tile x y) as ->; [|done].
  unfold flips_farthest_first, spec_direction.
  rewrite (opposite_swap tile Ht). f_equal. apply map_ext. intros d.
  by rewrite spec_walk_swap.
Qed.

(** X7.  Exchanging Black and White everywhere on an 8x8 board and in the
    mover's tile does not change what [is_valid_move] returns: the same
    verdict and the same cells in the same order. *)
Theorem is_valid_move_colour_swap (b : Board) (tile : string) (x y : Z) :
  wf8 b -> tile = "X" \/ tile = "O" ->
  snd (is_valid_move (swap_cell tile) x y (swap_board b))
  = snd (is_valid_move tile x y b).
Proof.
  intros Hwf Ht. destruct (is_on_board x y) eqn:Hon.
  - rewrite !is_valid_move_on_board by (done || by apply map_map_wf8).
    cbn [snd]. by rewrite evaluate_swap.
  - rewrite !is_valid_move_off_board by done. cbn [snd].
    unfold swap_board. rewrite get_cell_map.
    by destruct (get_cell b x y).
Qed.

Lemma is_valid_move_colour_swap_witness :
  snd (is_valid_move (swap_cell "O") 1 3 (swap_board line_board))
  = snd (is_valid_move "O" 1 3 line_board).
Proof.
  apply (is_valid_move_colour_swap line_board "O" 1 3).
  - apply (reachable_inv _ line_board_reachable).
  - by right.
Defined.

(** ** [copy] and [copy_with_valid_moves] *)

Lemma legal_moves_on_board (b : Board) (tile : string) :
  Forall (fun p => is_on_board (fst p) (snd p) = true) (legal_moves b tile).
Proof.
  apply Forall_forall. intros [x y] Hin%list_elem_of_In%legal_moves_In.
  by apply evaluate_truthy in Hin as (_ & Hon & _).
Qed.

Lemma reset_keeps_shape : preserves wf8 reset.
Proof.
  unfold reset. apply preserves_bind.
  - apply preserves_for_each. intros x. apply preserves_for_each. intros y.
    apply write_cell_wf8.
  - intros _. do 3 (apply preserves_bind; [apply write_cell_wf8|intros _]).
    apply write_cell_wf8.
Qed.

Lemma copy_shape (b b' : Board) : copy b = Ok b' -> wf8 b'.
Proof.
  unfold copy, Board__init__.
  set (loops := for_each range8 _).
  assert (Hloops : preserves wf8 loops).
  { apply preserves_for_each. intros x. apply preserves_for_each. intros y.
    apply preserves_bind; [apply preserves_reading|].
    intros c. apply write_cell_wf8. }
  pose proof (reset_keeps_shape blank_board
                ltac:(split; [reflexivity|repeat constructor])) as Hreset.
  unfold bind, writing.
  destruct (reset blank_board) as [s1 [[]| |]]; cbn [fst] in Hreset; [|done..].
  specialize (Hloops s1 Hreset).
  destruct (loops s1) as [dupe [[]| |]]; [|done..].
  cbn [obind]. by intros [= <-].
Qed.

(** X1.  [copy] of an 8x8 board returns an equal board; and whatever the
    board, a copy that is returned is 8x8. *)
Theorem copy_equal (b : Board) :
  (forall b', copy b = Ok b' -> wf8 b') /\
  (wf8 b -> copy b = Ok b).
Proof. split; [apply copy_shape|apply copy_wf]. Qed.

Lemma copy_equal_witness :
  (forall b', copy line_board = Ok b' -> wf8 b') /\
  copy line_board = Ok line_board.
Proof.
  destruct (copy_equal line_board) as [Hshape Hcopy].
  split; [exact Hshape|]. apply Hcopy.
  apply (reachable_inv _ line_board_reachable).
Defined.

(** X8.  On an 8x8 board [copy_with_valid_moves] returns an 8x8 board that
    holds ['.'] on every cell for which [is_valid_move] returns a list and,
    on every cell it refuses, what the original holds. *)
Theorem copy_with_valid_moves_marks (b : Board) (tile : string) :
  wf8 b ->
  exists h,
    copy_with_valid_moves tile b = Ok h /\ wf8 h /\
    forall x y, is_on_board x y = true ->
      ((exists fl, snd (is_valid_move tile x y b) = Ok (Tiles fl)) ->
       get_cell h x y = Ok ".") /\
      (snd (is_valid_move tile x y b) = Ok PyFalse ->
       get_cell h x y = get_cell b x y).
Proof.
  intros Hwf. unfold copy_with_valid_moves. rewrite copy_wf by done.
  cbn [obind]. unfold bind. rewrite get_valid_moves_wf by done.
  destruct (write_cells_ok "." _ (legal_moves_on_board b tile) b Hwf)
    as (h & Hrun & Hwfh).
  rewrite Hrun. cbn [obind]. exists h. split; [done|]. split; [done|].
  intros x y Hon.
  destruct (write_cells_effect "." _ (legal_moves_on_board b tile) b h Hwf Hrun
              x y Hon) as [Hin Hout].
  split.
  - intros Hl%is_valid_move_Tiles_iff; [|done]. by apply Hin, legal_moves_In.
  - intros Hf. apply Hout. intros Hl%legal_moves_In.
    apply is_valid_move_Tiles_iff in Hl as [fl Hfl]; [|done]. congruence.
Qed.

Lemma copy_with_valid_moves_marks_witness :
  exists h,
    copy_with_valid_moves "O" line_board = Ok h /\ wf8 h /\
    forall x y, is_on_board x y = true ->
      ((exists fl, snd (is_valid_move "O" x y line_board) = Ok (Tiles fl)) ->
       get_cell h x y = Ok ".") /\
      (snd (is_valid_move "O" x y line_board) = Ok PyFalse ->
       get_cell h x y = get_cell line_board x y).
Proof.
  apply (copy_with_valid_moves_marks line_board "O").
  apply (reachable_inv _ line_board_reachable).
Defined.

(** ** [reset] and [get_score] *)

(** X9.  Whatever an 8x8 board holds, [OthelloGame.reset] replaces it by the
    starting board and sets both score fields to 0; the tiles and the three
    flags stay as they were. *)
Theorem game_reset_restarts (g : OthelloGame) :
  wf_game g ->
  exists g',
    game_reset g = (g', Ok tt) /\
    board g' = initial_board /\
    player_score g' = 0 /\ computer_score g' = 0 /\
    same_tiles g g' /\
    interactive g' = interactive g /\ stepper g' = stepper g /\
    show_hints g' = show_hints g.
Proof.
  intros Hwf. unfold game_reset, bind, on_self_board, writing.
  rewrite reset_wf by done. eexists. split; [reflexivity|].
  by repeat split.
Qed.

Lemma game_reset_restarts_witness :
  exists g',
    game_reset (set_board line_board new_game) = (g', Ok tt) /\
    board g' = initial_board /\
    player_score g' = 0 /\ computer_score g' = 0 /\
    same_tiles (set_board line_board new_game) g' /\
    interactive g' = interactive (set_board line_board new_game) /\
    stepper g' = stepper (set_board line_board new_game) /\
    show_hints g' = show_hints (set_board line_board new_game).
Proof.
  apply (game_reset_restarts (set_board line_board new_game)).
  apply (reachable_inv _ line_board_reachable).
Defined.

Lemma count_two (l : list string) (v w : string) :
  v <> w ->
  (count_occ string_dec l v + count_occ string_dec l w <= length l)%nat.
Proof.
  intros Hne. induction l as [|c l IH]; [done|].
  cbn [count_occ length].
  destruct (string_dec c v) as [Hv|Hv], (string_dec c w) as [Hw|Hw]; try lia.
  congruence.
Qed.

(** X10.  On any 8x8 board, whatever strings its cells hold, [get_score]
    returns a dictionary with exactly the keys ['X'] and ['O'], holding the
    numbers of cells equal to ['X'] and to ['O']; both are at least 0 and
    together at most 64. *)
Theorem get_score_counts (b : Board) :
  wf8 b ->
  exists scores,
    get_score b = Ok scores /\
    scores !! "X" = Some (count_cells "X" b) /\
    scores !! "O" = Some (count_cells "O" b) /\
    (forall k, k <> "X" -> k <> "O" -> score_of scores k = Raise KeyError) /\
    0 <= count_cells "X" b /\ 0 <= count_cells "O" b /\
    count_cells "X" b + count_cells "O" b <= 64.
Proof.
  intros Hwf. eexists. split; [by apply get_score_wf|].
  split; [done|]. split; [done|]. split.
  - intros k HX HO. unfold score_of.
    rewrite lookup_insert_ne by done. rewrite lookup_insert_ne by done.
    by rewrite lookup_empty.
  - unfold count_cells.
    pose proof (count_two (concat b) "X" "O" ltac:(discriminate)) as H.
    rewrite concat_length_wf8 in H by done. lia.
Qed.

Lemma get_score_counts_witness :
  exists scores,
    get_score line_board = Ok scores /\
    scores !! "X" = Some (count_cells "X" line_board) /\
    scores !! "O" = Some (count_cells "O" line_board) /\
    (forall k, k <> "X" -> k <> "O" -> score_of scores k = Raise KeyError) /\
    0 <= count_cells "X" line_board /\ 0 <= count_cells "O" line_board /\
    count_cells "X" line_board + count_cells "O" line_board <= 64.
Proof.
  apply (get_score_counts line_board).
  apply (reachable_inv _ line_board_reachable).
Defined.

(** ** Export and import, the other way round and on any cells *)

Lemma encode_decode (v : Z) : v = 1 \/ v = -1 \/ v = 0 -> encode (decode v) = v.
Proof. by intros [->|[->| ->]]. Qed.

Lemma board_of_wf (state : Matrix) : wf8 state -> wf8 (board_of state).
Proof.
  intros [Hl _]. split; [reflexivity|].
  unfold board_of. apply Forall_map, Forall_forall. intros i _. simpl.
  by rewrite length_map.
Qed.

Lemma matrix_of_board_of (state : Matrix) :
  wf8 state -> Forall (Forall (fun v => v = 1 \/ v = -1 \/ v = 0)) state ->
  matrix_of (board_of state) = state.
Proof.
  intros Hwf Hok. explode_board state Hwf.
  repeat (apply Forall_cons in Hok as [? Hok]).
  repeat match goal with
         | H : Forall _ (_ :: _) |- _ => apply Forall_cons in H as [? H]
         end.
  cbv -[encode decode]. rewrite !encode_decode by assumption. reflexivity.
Qed.

(** X11.  For an 8x8 matrix whose entries are all 1, -1 or 0,
    [array_to_list] on any 8x8 board object builds a board, returns it, and
    [list_to_array] of that board is the matrix again. *)
Theorem list_to_array_array_to_list (state : Matrix) (self : Board) :
  wf8 state -> Forall (Forall (fun v => v = 1 \/ v = -1 \/ v = 0)) state ->
  wf8 self ->
  exists b,
    array_to_list state self = (b, Ok b) /\ wf8 b /\ list_to_array b = Ok state.
Proof.
  intros Hs Hok Hself. exists (board_of state).
  split; [by apply array_to_list_wf|]. split; [by apply board_of_wf|].
  rewrite list_to_array_wf by (by apply board_of_wf).
  by rewrite matrix_of_board_of.
Qed.

Lemma list_to_array_array_to_list_witness :
  exists b,
    array_to_list (matrix_of line_board) initial_board = (b, Ok b) /\
    wf8 b /\ list_to_array b = Ok (matrix_of line_board).
Proof.
  apply (list_to_array_array_to_list (matrix_of line_board) initial_board).
  - split; [reflexivity|]. vm_compute. repeat constructor.
  - vm_compute.
    repeat (constructor;
            [repeat (constructor; [first [by left|by right; left|by right; right]|]);
             constructor|]).
    constructor.
  - apply initial_board_inv.
Defined.

Lemma list_to_array_entries (b : Board) (i j : Z) :
  wf8 b -> is_on_board i j = true ->
  exists c, get_cell b j i = Ok c /\ getitem2 (matrix_of b) i j = Ok (encode c).
Proof.
  intros Hwf [Hi Hj]%is_on_board_true. explode_board b Hwf.
  assert (i = 0 \/ i = 1 \/ i = 2 \/ i = 3 \/ i = 4 \/ i = 5 \/ i = 6 \/ i = 7)
    as Hi' by lia.
  assert (j = 0 \/ j = 1 \/ j = 2 \/ j = 3 \/ j = 4 \/ j = 5 \/ j = 6 \/ j = 7)
    as Hj' by lia.
  clear Hi Hj.
  repeat (destruct Hi' as [->|Hi']); try subst i;
    repeat (destruct Hj' as [->|Hj']); try subst j;
    (eexists; split; reflexivity).
Qed.

Lemma board_of_matrix_of_any (b : Board) :
  wf8 b -> board_of (matrix_of b) = map (map blank_unknown) b.
Proof. intros Hwf. explode_board b Hwf. reflexivity. Qed.

(** X12.  On any 8x8 board, whatever strings its cells hold,
    [list_to_array] returns an 8x8 matrix whose entry [i, j] is the code of
    cell [board[j][i]] (1 for ['X'], -1 for ['O'], 0 for anything else), and
    importing that matrix gives the board back with every cell that is
    neither ['X'] nor ['O'] blanked. *)
Theorem list_to_array_transposes (b self : Board) :
  wf8 b -> wf8 self ->
  exists state,
    list_to_array b = Ok state /\ wf8 state /\
    (forall i j, is_on_board i j = true ->
       exists c, get_cell b j i = Ok c /\ getitem2 state i j = Ok (encode c)) /\
    array_to_list state self
    = (map (map blank_unknown) b, Ok (map (map blank_unknown) b)).
Proof.
  intros Hwf Hself. exists (matrix_of b).
  split; [by apply list_to_array_wf|]. split; [by apply matrix_of_wf|]. split.
  - intros i j Hon. by apply list_to_array_entries.
  - rewrite array_to_list_wf by (done || by apply matrix_of_wf).
    by rewrite board_of_matrix_of_any.
Qed.

Lemma list_to_array_transposes_witness :
  exists state,
    list_to_array line_board = Ok state /\ wf8 state /\
    (forall i j, is_on_board i j = true ->
       exists c, get_cell line_board j i = Ok c /\
                 getitem2 state i j = Ok (encode c)) /\
    array_to_list state initial_board
    = (map (map blank_unknown) line_board, Ok (map (map blank_unknown) line_board)).
Proof.
  apply (list_to_array_transposes line_board initial_board).
  - apply (reachable_inv _ line_board_reachable).
  - apply initial_board_inv.
Defined.

(** ** Every outcome of [step] *)

Lemma getitem_raise {A} (l : list A) (i : Z) (e : exn) :
  getitem l i = Raise e -> e = IndexError.
Proof.
  unfold getitem. destruct (py_index _ _) as [k|]; [|by intros [= <-]].
  destruct (l !! k); [done|by intros [= <-]].
Qed.

Lemma getitem2_raise {A} (m : list (list A)) (x y : Z) (e : exn) :
  getitem2 m x y = Raise e -> e = IndexError.
Proof.
  unfold getitem2. destruct (getitem m x) as [col|e'|] eqn:E; cbn [obind].
  - apply getitem_raise.
  - intros [= <-]. by eapply getitem_raise.
  - done.
Qed.

(** On an 8x8 board a call of [step] goes one of three ways. *)
Lemma step_cases (g : OthelloGame) (x y : Z) :
  wf_game g ->
  (truthy (evaluate (board g) (player_tile g) x y) = true /\
   exists nb,
     make_move (player_tile g) x y (board g) = (nb, Ok true) /\ wf8 nb /\
     step (x, y) g
     = (set_board nb g,
        Ok (if game_over nb g then field_reward g else 0, nb, game_over nb g))) \/
  (snd (is_valid_move (player_tile g) x y (board g)) = Ok PyFalse /\
   step (x, y) g = (g, Ok (-10, board g, false))) \/
  (snd (is_valid_move (player_tile g) x y (board g)) = Raise IndexError /\
   is_on_board x y = false /\
   step (x, y) g = (g, Raise IndexError)).
Proof.
  intros Hwf. destruct (is_on_board x y) eqn:Hon.
  - destruct (truthy (evaluate (board g) (player_tile g) x y)) eqn:Ht.
    + left. split; [done|]. by apply step_legal.
    + right. left.
      assert (snd (is_valid_move (player_tile g) x y (board g)) = Ok PyFalse) as Hv.
      { rewrite is_valid_move_on_board by done. cbn [snd]. by rewrite evaluate_falsy. }
      split; [done|]. by apply step_refused.
  - pose proof (is_valid_move_off_board (board g) (player_tile g) x y Hon) as Hv.
    pose proof (getitem2_fuel (board g) x y) as Hfuel. unfold get_cell in Hv.
    destruct (getitem2 (board g) x y) as [c|e|] eqn:Hc; [| |done].
    + right. left. assert (snd (is_valid_move (player_tile g) x y (board g)) = Ok PyFalse)
        as Hv' by (by rewrite Hv).
      split; [done|]. by apply step_refused.
    + right. right. apply getitem2_raise in Hc as ->.
      split; [by rewrite Hv|]. split; [done|].
      unfold step, bind, reading, on_self_board. rewrite copy_wf by done.
      cbn [fst snd]. rewrite Hv. by rewrite set_board_same.
Qed.

Lemma field_reward_sgn (g : OthelloGame) :
  field_reward g = Z.sgn (player_score g - computer_score g).
Proof.
  unfold field_reward.
  destruct (Z.gtb_spec (player_score g) (computer_score g));
    [lia|destruct (Z.ltb_spec (player_score g) (computer_score g)); lia].
Qed.

Lemma make_move_keeps_shape (tile : string) (x y : Z) :
  preserves wf8 (make_move tile x y).
Proof.
  unfold make_move, is_valid_move.
  apply preserves_bind.
  - apply preserves_bind; [apply preserves_reading|]. intros c.
    destruct (_ || _); [apply preserves_ret|].
    apply preserves_bind; [apply write_cell_wf8|]. intros _.
    apply preserves_bind; [apply preserves_reading|]. intros l.
    apply preserves_bind; [apply write_cell_wf8|]. intros _.
    destruct (Nat.eqb _ _); apply preserves_ret.
  - intros [|l]; [apply preserves_ret|].
    destruct (negb _); [apply preserves_ret|].
    apply preserves_bind; [apply write_cell_wf8|]. intros _.
    apply preserves_bind; [|intros; apply preserves_ret].
    apply preserves_for_each. intros [x' y']. apply write_cell_wf8.
Qed.

(** X15.  Whatever the action and whatever the outcome, [step] on a game
    with an 8x8 board leaves an 8x8 board in the game; and if every cell
    held [' '], ['X'] or ['O'] before, every cell does after. *)
Theorem step_keeps_board_shape (g : OthelloGame) (action : Z * Z) :
  wf_game g ->
  wf_game (fst (step action g)) /\
  (cells_ok (board g) -> cells_ok (board (fst (step action g)))).
Proof.
  intros Hwf. unfold wf_game. rewrite step_board by done. split.
  - by apply make_move_keeps_shape.
  - intros Hok. by apply make_move_inv_any.
Qed.

Lemma step_keeps_board_shape_witness :
  wf_game (fst (step (2, 4) new_game)) /\
  (cells_ok (board new_game) -> cells_ok (board (fst (step (2, 4) new_game)))).
Proof. apply (step_keeps_board_shape new_game (2, 4)), new_game_wf. Defined.

(** X16.  When [step] returns on an 8x8 board, the board it returns is the
    game's board, and either the move was refused (reward -10, flag [False],
    game unchanged), or the flag is [False] and the reward 0, or the flag is
    [True] and the reward is the sign of [player_score - computer_score],
    the two fields of the game object as they were before the call. *)
Theorem step_reward_cases (g g' : OthelloGame) (action : Z * Z)
    (reward : Z) (b : Board) (terminal : bool) :
  wf_game g ->
  step action g = (g', Ok (reward, b, terminal)) ->
  b = board g' /\
  ((reward = -10 /\ terminal = false /\ g' = g) \/
   (reward = 0 /\ terminal = false) \/
   (reward = Z.sgn (player_score g - computer_score g) /\ terminal = true)).
Proof.
  intros Hwf Hstep. destruct action as [x y].
  destruct (step_cases g x y Hwf)
    as [(_ & nb & _ & _ & Heq)|[(_ & Heq)|(_ & _ & Heq)]];
    rewrite Heq in Hstep; [| |done].
  - injection Hstep as <- <- <- <-. split; [done|].
    destruct (game_over nb g); [right; right|right; left]; [|done].
    by rewrite field_reward_sgn.
  - injection Hstep as <- <- <- <-. split; [done|]. by left.
Qed.

Lemma step_reward_cases_witness :
  fst (make_move "X" 2 4 initial_board) = board (set_board (fst (make_move "X" 2 4 initial_board)) new_game) /\
  ((0 = -10 /\ false = false /\
    set_board (fst (make_move "X" 2 4 initial_board)) new_game = new_game) \/
   (0 = 0 /\ false = false) \/
   (0 = Z.sgn (player_score new_game - computer_score new_game) /\ false = true)).
Proof.
  apply (step_reward_cases new_game _ (2, 4)).
  - apply new_game_wf.
  - vm_compute. reflexivity.
Defined.

(** X17.  The terminal flag does not stick.  After a [step] that returned
    the flag [True] on an 8x8 board, every further [step] is refused: it
    returns -10 with the flag [False], or raises [IndexError], and the game
    stays as the terminal step left it. *)
Theorem step_after_terminal (g g' : OthelloGame) (action action' : Z * Z)
    (reward : Z) (b : Board) :
  wf_game g ->
  step action g = (g', Ok (reward, b, true)) ->
  step action' g' = (g', Ok (-10, board g', false)) \/
  step action' g' = (g', Raise IndexError).
Proof.
  intros Hwf Hstep. destruct action as [x y], action' as [x' y'].
  destruct (step_cases g x y Hwf)
    as [(_ & nb & _ & Hwfnb & Heq)|[(_ & Heq)|(_ & _ & Heq)]];
    rewrite Heq in Hstep; [|done..].
  injection Hstep as <- _ _ Hover.
  assert (Hwf' : wf_game (set_board nb g)) by done.
  destruct (step_cases (set_board nb g) x' y' Hwf')
    as [(Ht & _)|[(_ & Heq')|(_ & _ & Heq')]]; [|by left|by right].
  cbn [board player_tile set_board] in Ht.
  apply legal_moves_In in Ht.
  unfold game_over in Hover. apply andb_true_iff in Hover as [Hmine _].
  apply Nat.eqb_eq, length_zero_iff_nil in Hmine. by rewrite Hmine in Ht.
Qed.

Lemma step_after_terminal_witness :
  step (2, 4) (fst (step (4, 2) (fst (step (2, 4) new_game))))
  = (fst (step (4, 2) (fst (step (2, 4) new_game))),
     Ok (-10, board (fst (step (4, 2) (fst (step (2, 4) new_game)))), false)) \/
  step (2, 4) (fst (step (4, 2) (fst (step (2, 4) new_game))))
  = (fst (step (4, 2) (fst (step (2, 4) new_game))), Raise IndexError).
Proof.
  apply (step_after_terminal (fst (step (2, 4) new_game)) _ (4, 2) (2, 4) 0
           (board (fst (step (4, 2) (fst (step (2, 4) new_game)))))).
  - split; [reflexivity|]. vm_compute. repeat constructor.
  - vm_compute. reflexivity.
Defined.

(** X18.  With a coordinate below -8 or above 7, [step] on an 8x8 board
    raises [IndexError] and leaves the game as it was: no penalty is
    returned for such an action. *)
Theorem step_past_edge_raises (g : OthelloGame) (x y : Z) :
  wf_game g -> x < -8 \/ 7 < x \/ y < -8 \/ 7 < y ->
  step (x, y) g = (g, Raise IndexError).
Proof.
  intros Hwf Hout.
  pose proof (is_valid_move_past_edge (board g) (player_tile g) x y Hwf Hout) as Hv.
  destruct (step_cases g x y Hwf)
    as [(Ht & _)|[(Hf & _)|(_ & _ & Heq)]]; [| |done].
  - apply evaluate_truthy in Ht as (_ & Hon%is_on_board_true & _). lia.
  - rewrite Hv in Hf. discriminate Hf.
Qed.

Lemma step_past_edge_raises_witness :
  step (8, 0) new_game = (new_game, Raise IndexError).
Proof.
  apply (step_past_edge_raises new_game 8 0).
  - apply new_game_wf.
  - lia.
Defined.

(** ** The score after a move *)

Lemma count_occ_insert (l : list string) (k : nat) (old v w : string) :
  l !! k = Some old ->
  (count_occ string_dec (<[k:=v]> l) w + (if string_dec old w then 1 else 0)
   = count_occ string_dec l w + (if string_dec v w then 1 else 0))%nat.
Proof.
  revert k. induction l as [|c l IH]; intros k Hk; [done|].
  destruct k as [|k].
  - injection Hk as ->. cbn [insert list_insert count_occ].
    destruct (string_dec old w), (string_dec v w); lia.
  - cbn [lookup list_lookup] in Hk. specialize (IH k Hk).
    change (<[S k:=v]> (c :: l)) with (c :: <[k:=v]> l).
    cbn [count_occ]. destruct (string_dec c w); lia.
Qed.

Lemma count_occ_concat_insert (b : Board) (k : nat) (col col' : list string) (w : string) :
  b !! k = Some col ->
  (count_occ string_dec (concat (<[k:=col']> b)) w + count_occ string_dec col w
   = count_occ string_dec (concat b) w + count_occ string_dec col' w)%nat.
Proof.
  revert k. induction b as [|c b IH]; intros k Hk; [done|].
  destruct k as [|k].
  - injection Hk as ->. cbn [insert list_insert concat].
    rewrite !count_occ_app. lia.
  - cbn [lookup list_lookup] in Hk. specialize (IH k Hk).
    change (<[S k:=col']> (c :: b)) with (c :: <[k:=col']> b).
    cbn [concat]. rewrite !count_occ_app. lia.
Qed.

(** Writing one cell moves one unit from the count of the old value to the
    count of the new one. *)
Lemma count_setitem2 (b b1 : Board) (x y : Z) (old v w : string) :
  setitem2 x y v b = Ok b1 -> getitem2 b x y = Ok old ->
  (count_occ string_dec (concat b1) w + (if string_dec old w then 1 else 0)
   = count_occ string_dec (concat b) w + (if string_dec v w then 1 else 0))%nat.
Proof.
  intros (kx & ky & col & Hkx & Hc & Hky & ->)%setitem2_Ok
         (kx' & ky' & col' & Hkx' & Hc' & Hky' & Hold)%getitem2_Ok.
  assert (kx' = kx) as -> by congruence.
  assert (col' = col) as -> by congruence.
  assert (ky' = ky) as -> by congruence.
  pose proof (count_occ_concat_insert b kx col (<[ky:=v]> col) w Hc) as H1.
  pose proof (count_occ_insert col ky old v w Hold) as H2.
  lia.
Qed.

(** Writing [v] over distinct cells that all hold [old] moves as many units
    from the count of [old] to the count of [v]. *)
Lemma write_cells_count (v old : string) (l : list (Z * Z)) :
  old <> v -> NoDup l ->
  forall b b', wf8 b ->
    Forall (fun p => is_on_board (fst p) (snd p) = true /\
                     get_cell b (fst p) (snd p) = Ok old) l ->
    for_each l (fun '(x, y) => write_cell x y v) b = (b', Ok tt) ->
    forall w,
      (count_occ string_dec (concat b') w + (if string_dec old w then length l else 0)
       = count_occ string_dec (concat b) w + (if string_dec v w then length l else 0))%nat.
Proof.
  intros Hne Hnd. induction Hnd as [|[x0 y0] l Hnotin Hnd IH];
    intros b b' Hwf Hall Hrun w.
  - injection Hrun as <-. cbn [length]. destruct (string_dec old w), (string_dec v w); lia.
  - apply Forall_cons in Hall as [[Hon0 Hc0] Hall]. cbn [fst snd] in Hon0, Hc0.
    cbn [for_each] in Hrun. unfold bind at 1 in Hrun.
    destruct (setitem2_on_board b x0 y0 v Hwf Hon0) as [b1 Hset].
    unfold write_cell at 1, writing, set_cell in Hrun. rewrite Hset in Hrun.
    assert (Hwf1 : wf8 b1) by (by eapply setitem2_wf8).
    assert (Hall1 : Forall (fun p => is_on_board (fst p) (snd p) = true /\
                                     get_cell b1 (fst p) (snd p) = Ok old) l).
    { rewrite Forall_forall in Hall |- *. intros [x1 y1] Hin.
      destruct (Hall _ Hin) as [Hon1 Hc1]. cbn [fst snd] in *. split; [done|].
      unfold get_cell in *.
      rewrite (getitem2_setitem2_ne b b1 x0 y0 x1 y1 v) by
        (done || (destruct (decide (x0 = x1)); [right|left]; congruence)).
      done. }
    specialize (IH b1 b' Hwf1 Hall1 Hrun w).
    pose proof (count_setitem2 b b1 x0 y0 old v w Hset Hc0) as H1.
    cbn [length]. destruct (string_dec old w), (string_dec v w); lia.
Qed.

Lemma ray_NoDup (m : nat) (x y dx dy : Z) :
  In (dx, dy) DIRECTIONS -> NoDup (ray m x y dx dy).
Proof.
  intros Hd. revert x y. induction m as [|m IH]; intros x y; [constructor|].
  cbn [ray]. constructor; [|apply IH].
  intros (j & _ & Hj)%list_elem_of_In%In_ray. injection Hj as Hx Hy.
  clear -Hd Hx Hy. each_direction Hd; lia.
Qed.

Lemma NoDup_concat_tagged {A B} (tag : B -> A) (f : A -> list B) (l : list A) :
  NoDup l -> (forall a, In a l -> NoDup (f a)) ->
  (forall a q, In a l -> In q (f a) -> tag q = a) ->
  NoDup (concat (map f l)).
Proof.
  induction 1 as [|a l Hnotin Hnd IH]; intros Hf Htag; [constructor|].
  cbn [map concat]. apply NoDup_app. split; [apply Hf; by left|]. split.
  - intros q Hq%list_elem_of_In (l' & Hl' & Hq')%list_elem_of_In%in_concat.
    apply in_map_iff in Hl' as (a' & <- & Ha').
    rewrite <- (Htag a q) in Hnotin by (by left || done).
    rewrite (Htag a' q) in Hnotin by (by right || done).
    by apply Hnotin, list_elem_of_In.
  - apply IH; intros; [apply Hf|apply Htag]; (by right) || done.
Qed.

Lemma DIRECTIONS_NoDup : NoDup DIRECTIONS.
Proof. apply (bool_decide_unpack _). vm_compute. exact I. Qed.

Lemma flips_NoDup (b : Board) (tile : string) (x y : Z) :
  NoDup (flips_farthest_first b tile x y).
Proof.
  unfold flips_farthest_first.
  apply (NoDup_concat_tagged
           (fun p => (Z.sgn (fst p - x), Z.sgn (snd p - y)))).
  - apply DIRECTIONS_NoDup.
  - intros [dx dy] Hd. apply NoDup_ListNoDup, List.NoDup_rev, NoDup_ListNoDup.
    unfold spec_direction.
    destruct (spec_walk _ _ _ _ _ _ _ _) as [l|] eqn:E; [|constructor].
    destruct (spec_walk_ray _ _ _ _ _ _ _ _ _ E) as [-> _].
    by apply ray_NoDup.
  - intros d q Hd Hq%in_rev.
    destruct (spec_direction_cells b tile x y d q Hd Hq) as (_ & _ & k & Hk & ->).
    destruct d as [dx dy]. cbn [fst snd]. clear -Hd Hk.
    each_direction Hd; f_equal;
      match goal with
      | |- Z.sgn ?a = _ => pose proof (Z.sgn_spec a); lia
      end.
Qed.

Lemma opposite_other (tile : string) : opposite tile <> tile.
Proof.
  unfold opposite. destruct (String.eqb_spec tile "X") as [->|]; [done|congruence].
Qed.

(** The counts of every cell value after a legal move. *)
Lemma make_move_counts (b : Board) (tile : string) (x y : Z) :
  wf8 b -> truthy (evaluate b tile x y) = true ->
  exists nb,
    make_move tile x y b = (nb, Ok true) /\ wf8 nb /\
    forall w,
      (count_occ string_dec (concat nb) w
       + (if string_dec (opposite tile) w
          then length (flips_farthest_first b tile x y) else 0)
       + (if string_dec " " w then 1 else 0)
       = count_occ string_dec (concat b) w
         + (if string_dec tile w
            then S (length (flips_farthest_first b tile x y)) else 0))%nat.
Proof.
  intros Hwf Hlegal.
  pose proof Hlegal as (Hev & Hon & Hc)%evaluate_truthy.
  destruct (make_move_legal b tile x y Hwf Hlegal) as (nb & Hmove & Hwfnb).
  exists nb. split; [done|]. split; [done|].
  unfold make_move, bind in Hmove. rewrite is_valid_move_on_board in Hmove by done.
  rewrite Hev in Hlegal, Hmove. rewrite Hlegal in Hmove. cbn [negb] in Hmove.
  destruct (setitem2_on_board b x y tile Hwf Hon) as [b1 Hset].
  unfold write_cell at 1, writing, set_cell in Hmove. rewrite Hset in Hmove.
  assert (Hwf1 : wf8 b1) by (by eapply setitem2_wf8).
  destruct (write_cells_ok tile _ (flips_on_board b tile x y) b1 Hwf1)
    as (nb' & Hrun & _).
  rewrite Hrun in Hmove. injection Hmove as <-.
  assert (Hall : Forall (fun p => is_on_board (fst p) (snd p) = true /\
                                  get_cell b1 (fst p) (snd p) = Ok (opposite tile))
                   (flips_farthest_first b tile x y)).
  { apply Forall_forall. intros [x1 y1] Hin%list_elem_of_In.
    destruct (flips_cells b tile x y _ Hin) as (Hon1 & Hc1 & Hne1).
    cbn [fst snd] in *. split; [done|]. unfold get_cell in *.
    rewrite (getitem2_setitem2_ne b b1 x y x1 y1 tile) by
      (done || (destruct (decide (x = x1)); [right|left]; congruence)).
    done. }
  intros w.
  pose proof (write_cells_count tile (opposite tile) _ (opposite_other tile)
                (flips_NoDup b tile x y) b1 nb' Hwf1 Hall Hrun w) as H2.
  pose proof (count_setitem2 b b1 x y " " tile w Hset Hc) as H1.
  destruct (string_dec (opposite tile) w), (string_dec " " w), (string_dec tile w); lia.
Qed.

(** X4.  When Black or White plays a move for which [is_valid_move] returns
    the list [l] on an 8x8 board, [l] has no repeated cell and, by
    [get_score], the mover gains [1 + len(l)] cells and the opponent loses
    [len(l)]; the number of blank cells goes down by exactly one. *)
Theorem make_move_score (b : Board) (tile : string) (x y : Z) (l : list (Z * Z)) :
  wf8 b -> tile = "X" \/ tile = "O" ->
  snd (is_valid_move tile x y b) = Ok (Tiles l) ->
  NoDup l /\
  exists nb before after mine theirs,
    make_move tile x y b = (nb, Ok true) /\
    get_score b = Ok before /\ get_score nb = Ok after /\
    score_of before tile = Ok mine /\
    score_of before (opposite tile) = Ok theirs /\
    score_of after tile = Ok (mine + 1 + Z.of_nat (length l)) /\
    score_of after (opposite tile) = Ok (theirs - Z.of_nat (length l)) /\
    count_cells " " nb = count_cells " " b - 1.
Proof.
  intros Hwf Ht Hl. destruct (is_valid_move_Tiles b tile x y l Hwf Hl) as [Hlegal ->].
  split; [apply flips_NoDup|].
  destruct (make_move_counts b tile x y Hwf Hlegal) as (nb & Hmove & Hwfnb & Hcount).
  exists nb. eexists _, _, (count_cells tile b), (count_cells (opposite tile) b).
  split; [done|]. split; [by apply get_score_wf|]. split; [by apply get_score_wf|].
  pose proof (Hcount "X") as HX. pose proof (Hcount "O") as HO.
  pose proof (Hcount " ") as HB. unfold count_cells.
  destruct Ht as [-> | ->]; cbv [opposite String.eqb Ascii.eqb Bool.eqb] in *;
    cbn [string_dec] in *;
    repeat match goal with
           | H : context [string_dec ?a ?b] |- _ => destruct (string_dec a b); try done
           end;
    repeat split; try done; try (unfold score_of; f_equal; lia); lia.
Qed.

Lemma make_move_score_witness :
  NoDup [(3, 3); (2, 3)] /\
  exists nb before after mine theirs,
    make_move "O" 1 3 line_board = (nb, Ok true) /\
    get_score line_board = Ok before /\ get_score nb = Ok after /\
    score_of before "O" = Ok mine /\
    score_of before (opposite "O") = Ok theirs /\
    score_of after "O" = Ok (mine + 1 + Z.of_nat (length [(3, 3); (2, 3)])) /\
    score_of after (opposite "O") = Ok (theirs - Z.of_nat (length [(3, 3); (2, 3)])) /\
    count_cells " " nb = count_cells " " line_board - 1.
Proof.
  apply (make_move_score line_board "O" 1 3 [(3, 3); (2, 3)]).
  - apply (reachable_inv _ line_board_reachable).
  - by right.
  - vm_compute. reflexivity.
Defined.

(** ** [get_computer_move] *)

Lemma first_corner_Some (l : list (Z * Z)) (x y : Z) :
  first_corner l = Some (x, y) -> In (x, y) l /\ is_on_corner x y = true.
Proof.
  induction l as [|[x0 y0] l IH]; [done|].
  cbn [first_corner]. destruct (is_on_corner x0 y0) eqn:Hc.
  - intros [= -> ->]. split; [by left|done].
  - intros H. destruct (IH H). split; [by right|done].
Qed.

Lemma first_corner_None (l : list (Z * Z)) :
  first_corner l = None ->
  forall p, In p l -> is_on_corner (fst p) (snd p) = false.
Proof.
  induction l as [|[x0 y0] l IH]; [done|].
  cbn [first_corner]. destruct (is_on_corner x0 y0) eqn:Hc; [done|].
  intros H p [<-|Hin]; [done|by apply IH].
Qed.

Lemma for_fold_pure {S A B} (l : list A) (body : B -> A -> M S B)
    (f : B -> A -> B) (s : S) (acc : B) :
  (forall a acc, In a l -> body acc a s = (s, Ok (f acc a))) ->
  for_fold l body acc s = (s, Ok (fold_left f l acc)).
Proof.
  revert acc. induction l as [|a l IH]; intros acc Hbody; [done|].
  cbn [for_fold fold_left]. unfold bind. rewrite Hbody by (by left).
  apply IH. intros. apply Hbody. by right.
Qed.

(** The second loop keeps the first candidate of the highest score. *)
Lemma fold_best (score : Z * Z -> Z) (l : list (Z * Z)) :
  forall best : Z * list Z,
    let r := fold_left (best_step score) l best in
    fst best <= fst r /\
    (forall p, In p l -> score p <= fst r) /\
    (r = best \/ exists p, In p l /\ r = (score p, [fst p; snd p])).
Proof.
  induction l as [|p l IH]; intros best; cbn zeta.
  - cbn [fold_left]. split; [lia|]. split; [done|by left].
  - cbn [fold_left]. specialize (IH (best_step score best p)). cbn zeta in IH.
    destruct IH as (Hle & Hall & Hr).
    assert (Hstep : fst best <= fst (best_step score best p) /\
                    score p <= fst (best_step score best p)).
    { unfold best_step. destruct (Z.gtb_spec (score p) (fst best)); cbn [fst]; lia. }
    split; [lia|]. split.
    + intros q [<-|Hq]; [lia|by apply Hall].
    + destruct Hr as [Hr|(q & Hq & Hr)].
      * rewrite Hr. unfold best_step.
        destruct (score p >? fst best); [right|by left].
        exists p. split; [by left|done].
      * right. exists q. split; [by right|done].
Qed.

Lemma get_computer_move_body (g : OthelloGame) (best : Z * list Z) (x y : Z) :
  wf_game g -> computer_tile g = "X" \/ computer_tile g = "O" ->
  truthy (evaluate (board g) (computer_tile g) x y) = true ->
  (let '(best_score, best_move) := best in
   dupe_board <- reading (fun self => copy (board self)) ;;
   tile <- reading (fun self => Ok (computer_tile self)) ;;
   moved <- on_local (make_move tile x y) dupe_board ;;
   let dupe_board := fst moved in
   tile <- reading (fun self => Ok (computer_tile self)) ;;
   score <- reading (fun _ => scores <~ get_score dupe_board ;; score_of scores tile) ;;
   if score >? best_score then ret (score, [x; y])
   else ret (best_score, best_move)) g
  = (g, Ok (best_step (score_after (board g) (computer_tile g)) best (x, y))).
Proof.
  intros Hwf Htile Hlegal. destruct best as [best_score best_move].
  destruct (make_move_legal _ _ _ _ Hwf Hlegal) as (nb & Hmove & Hwfnb).
  unfold bind, reading, on_local, ret, best_step, score_after. cbn [fst snd].
  rewrite copy_wf by done. rewrite Hmove. cbn [obind fst].
  rewrite get_score_wf by done. cbn [obind].
  assert (score_of (<["X":=count_cells "X" nb]> (<["O":=count_cells "O" nb]> ∅))
            (computer_tile g) = Ok (count_cells (computer_tile g) nb)) as ->.
  { by destruct Htile as [-> | ->]. }
  by destruct (count_cells (computer_tile g) nb >? best_score).
Qed.

Lemma get_computer_move_spec (shuffle : list (Z * Z) -> list (Z * Z))
    (g : OthelloGame) (legal : list (Z * Z)) :
  wf_game g -> computer_tile g = "X" \/ computer_tile g = "O" ->
  (forall l, Permutation (shuffle l) l) ->
  get_valid_moves (computer_tile g) (board g) = (board g, Ok legal) ->
  exists mv,
    get_computer_move shuffle g = (g, Ok mv) /\
    (legal = [] -> mv = []) /\
    (legal <> [] ->
     exists x y,
       mv = [x; y] /\ In (x, y) legal /\
       ((exists p, In p legal /\ is_on_corner (fst p) (snd p) = true) ->
        is_on_corner x y = true) /\
       ((forall p, In p legal -> is_on_corner (fst p) (snd p) = false) ->
        forall p, In p legal ->
          score_after (board g) (computer_tile g) p
          <= score_after (board g) (computer_tile g) (x, y))).
Proof.
  intros Hwf Htile Hperm Hlegal.
  rewrite get_valid_moves_wf in Hlegal by done. injection Hlegal as <-.
  remember (legal_moves (board g) (computer_tile g)) as legal eqn:Hdef.
  assert (Hin : forall p, In p (shuffle legal) <-> In p legal).
  { intros p. rewrite <- !list_elem_of_In. by rewrite (Hperm legal). }
  unfold get_computer_move, bind at 1, reading at 1.
  unfold bind at 1, on_self_board. rewrite get_valid_moves_wf by done.
  rewrite set_board_same. rewrite <- Hdef.
  destruct (first_corner (shuffle legal)) as [[x y]|] eqn:Hfc.
  - apply first_corner_Some in Hfc as [Hxy Hcorner]. apply Hin in Hxy.
    exists [x; y]. split; [done|]. split.
    + intros Hnil. by rewrite Hnil in Hxy.
    + intros _. exists x, y. split; [done|]. split; [done|]. split; [done|].
      intros Hnone. specialize (Hnone _ Hxy). cbn [fst snd] in Hnone. congruence.
  - pose proof (first_corner_None _ Hfc) as Hnone.
    unfold bind.
    rewrite (for_fold_pure _ _ (best_step (score_after (board g) (computer_tile g)))).
    2: { intros [x y] best Hp%Hin. rewrite Hdef in Hp.
         apply legal_moves_In in Hp. by apply get_computer_move_body. }
    unfold ret. eexists. split; [reflexivity|].
    pose proof (fold_best (score_after (board g) (computer_tile g))
                  (shuffle legal) (-1, [])) as (Hle & Hall & Hr).
    cbn zeta in *. split.
    + intros Hnil. pose proof (Hperm legal) as Hp. rewrite Hnil in Hp |- *.
      apply Permutation_nil_r in Hp. by rewrite Hp.
    + intros Hne. destruct Hr as [Hr|(p & Hp & Hr)].
      * destruct legal as [|p l]; [done|].
        assert (In p (shuffle (p :: l))) as Hp by (apply Hin; by left).
        specialize (Hall p Hp). rewrite Hr in Hall. cbn [fst] in Hall.
        unfold score_after, count_cells in Hall. lia.
      * destruct p as [x y]. exists x, y. rewrite Hr. cbn [snd fst].
        split; [done|]. split; [by apply Hin|]. split.
        -- intros (q & Hq%Hin & Hqc). by rewrite (Hnone q Hq) in Hqc.
        -- intros _ q Hq%Hin. specialize (Hall q Hq). rewrite Hr in Hall.
           exact Hall.
Qed.

(** X19.  On an 8x8 board, for Black or White as the computer's tile and
    whatever order the shuffle leaves, [get_computer_move] leaves the game as
    it was and returns [[]] when there is no legal move, and otherwise a
    legal move [[x, y]]: a corner if some legal move is a corner, and if none
    is, a move after which the computer's score is at least what it would be
    after any other legal move. *)
Theorem get_computer_move_choice (shuffle : list (Z * Z) -> list (Z * Z))
    (g : OthelloGame) (legal : list (Z * Z)) :
  wf_game g -> computer_tile g = "X" \/ computer_tile g = "O" ->
  (forall l, Permutation (shuffle l) l) ->
  get_valid_moves (computer_tile g) (board g) = (board g, Ok legal) ->
  exists mv,
    get_computer_move shuffle g = (g, Ok mv) /\
    (legal = [] -> mv = []) /\
    (legal <> [] ->
     exists x y,
       mv = [x; y] /\ In (x, y) legal /\
       ((exists p, In p legal /\ is_on_corner (fst p) (snd p) = true) ->
        is_on_corner x y = true) /\
       ((forall p, In p legal -> is_on_corner (fst p) (snd p) = false) ->
        forall p, In p legal ->
          score_after (board g) (computer_tile g) p
          <= score_after (board g) (computer_tile g) (x, y))).
Proof. exact (get_computer_move_spec shuffle g legal). Qed.

Lemma get_computer_move_choice_witness :
  exists mv,
    get_computer_move (@rev (Z * Z)) new_game = (new_game, Ok mv) /\
    ([(2, 3); (3, 2); (4, 5); (5, 4)] = [] -> mv = []) /\
    ([(2, 3); (3, 2); (4, 5); (5, 4)] <> [] ->
     exists x y,
       mv = [x; y] /\ In (x, y) [(2, 3); (3, 2); (4, 5); (5, 4)] /\
       ((exists p, In p [(2, 3); (3, 2); (4, 5); (5, 4)] /\
                   is_on_corner (fst p) (snd p) = true) ->
        is_on_corner x y = true) /\
       ((forall p, In p [(2, 3); (3, 2); (4, 5); (5, 4)] ->
                   is_on_corner (fst p) (snd p) = false) ->
        forall p, In p [(2, 3); (3, 2); (4, 5); (5, 4)] ->
          score_after (board new_game) (computer_tile new_game) p
          <= score_after (board new_game) (computer_tile new_game) (x, y))).
Proof.
  apply (get_computer_move_choice (@rev (Z * Z)) new_game
           [(2, 3); (3, 2); (4, 5); (5, 4)]).
  - apply new_game_wf.
  - by right.
  - intros l. symmetry. apply Permutation_rev.
  - vm_compute. reflexivity.
Defined.

(** ** The methods that read the keyboard *)

Lemma read_tile_spec (upper : string -> string) (inputs : list string) :
  match read_tile upper inputs with
  | Done (Ok tile) rest =>
      (tile = "X" \/ tile = "O") /\
      exists skipped line,
        inputs = skipped ++ line :: rest /\ upper line = tile /\
        Forall (fun l => upper l <> "X" /\ upper l <> "O") skipped
  | Done _ _ => False
  | EOFError => Forall (fun l => upper l <> "X" /\ upper l <> "O") inputs
  end.
Proof.
  induction inputs as [|line rest IH]; [constructor|].
  cbn [read_tile].
  destruct (String.eqb_spec (upper line) "X") as [HX|HX]; cbn [orb].
  - split; [by left|]. exists [], line. by repeat split.
  - destruct (String.eqb_spec (upper line) "O") as [HO|HO].
    + split; [by right|]. exists [], line. by repeat split.
    + destruct (read_tile upper rest) as [[tile| |] rest'|]; [|done..|].
      * destruct IH as (Ht & skipped & line' & -> & Hl & Hs).
        split; [done|]. exists (line :: skipped), line'.
        split; [done|]. split; [done|]. by constructor.
      * by constructor.
Qed.

Lemma choose_player_tile_spec (upper : string -> string) (inputs : list string)
    (g : OthelloGame) :
  match choose_player_tile upper inputs g with
  | (g', Done (Ok _) rest) =>
      ((player_tile g' = "X" /\ computer_tile g' = "O") \/
       (player_tile g' = "O" /\ computer_tile g' = "X")) /\
      (exists skipped line,
         inputs = skipped ++ line :: rest /\ upper line = player_tile g' /\
         Forall (fun l => upper l <> "X" /\ upper l <> "O") skipped) /\
      board g' = board g /\
      player_score g' = player_score g /\ computer_score g' = computer_score g /\
      interactive g' = interactive g /\ stepper g' = stepper g /\
      show_hints g' = show_hints g
  | (_, Done _ _) => False
  | (g', EOFError) =>
      g' = g /\ Forall (fun l => upper l <> "X" /\ upper l <> "O") inputs
  end.
Proof.
  unfold choose_player_tile. pose proof (read_tile_spec upper inputs) as H.
  destruct (read_tile upper inputs) as [[tile| |] rest|]; [|done..|by split].
  destruct H as ([-> | ->] & skipped & line & Hin & Hl & Hs); cbn.
  - split; [by left|]. split; [by exists skipped, line|]. by repeat split.
  - split; [by right|]. split; [by exists skipped, line|]. by repeat split.
Qed.

(** X20.  [choose_player_tile] skips the lines whose upper case is neither
    ['X'] nor ['O'] and stops at the first that is: that line decides the
    player's tile, the computer gets the other colour, and nothing else in
    the game changes.  When no line qualifies it ends with [EOFError] and
    the game is as it was. *)
Theorem choose_player_tile_sides (upper : string -> string) (inputs : list string)
    (g : OthelloGame) :
  match choose_player_tile upper inputs g with
  | (g', Done (Ok _) rest) =>
      ((player_tile g' = "X" /\ computer_tile g' = "O") \/
       (player_tile g' = "O" /\ computer_tile g' = "X")) /\
      (exists skipped line,
         inputs = skipped ++ line :: rest /\ upper line = player_tile g' /\
         Forall (fun l => upper l <> "X" /\ upper l <> "O") skipped) /\
      board g' = board g /\
      player_score g' = player_score g /\ computer_score g' = computer_score g /\
      interactive g' = interactive g /\ stepper g' = stepper g /\
      show_hints g' = show_hints g
  | (_, Done _ _) => False
  | (g', EOFError) =>
      g' = g /\ Forall (fun l => upper l <> "X" /\ upper l <> "O") inputs
  end.
Proof. exact (choose_player_tile_spec upper inputs g). Qed.

Lemma valid_digit_spec (c : ascii) :
  valid_digit c = true ->
  1 <= int_digit c <= 8 /\ c = ascii_of_nat (Z.to_nat (48 + int_digit c)).
Proof.
  unfold valid_digit. cbn [existsb]. rewrite !orb_true_iff, !Ascii.eqb_eq.
  intros H.
  repeat (destruct H as [->|H];
          [split; [split; apply Z.leb_le; vm_compute; reflexivity|reflexivity]|]).
  discriminate H.
Qed.

Lemma typed_digit (n : Z) :
  1 <= n <= 8 ->
  valid_digit (ascii_of_nat (Z.to_nat (48 + n))) = true /\
  int_digit (ascii_of_nat (Z.to_nat (48 + n))) = n.
Proof.
  intros H.
  assert (Hn : n = 1 \/ n = 2 \/ n = 3 \/ n = 4 \/ n = 5 \/ n = 6 \/ n = 7 \/ n = 8)
    by lia.
  repeat (destruct Hn as [->|Hn]; [split; reflexivity|]).
  subst n. split; reflexivity.
Qed.

Lemma get_player_action_spec (lower : string -> string) (inputs : list string)
    (g : OthelloGame) :
  wf_game g ->
  match get_player_action lower inputs g with
  | (g', Done (Ok act) rest) =>
      g' = g /\
      exists skipped line,
        inputs = skipped ++ line :: rest /\
        Forall (passed_over lower g) skipped /\
        match act with
        | Quit => lower line = "quit"
        | Hints => lower line = "hints"
        | MoveAt x y =>
            lower line = typed_move (x + 1) (y + 1) /\
            is_on_board x y = true /\
            exists fl,
              snd (is_valid_move (player_tile g) x y (board g)) = Ok (Tiles fl)
        end
  | (_, Done _ _) => False
  | (g', EOFError) => g' = g /\ Forall (passed_over lower g) inputs
  end.
Proof.
  intros Hwf. induction inputs as [|line rest IH]; [split; [done|constructor]|].
  assert (Hskip :
    passed_over lower g line ->
    match get_player_action lower rest g with
    | (g', Done (Ok act) rest') =>
        g' = g /\
        exists skipped line',
          line :: rest = skipped ++ line' :: rest' /\
          Forall (passed_over lower g) skipped /\
          match act with
          | Quit => lower line' = "quit"
          | Hints => lower line' = "hints"
          | MoveAt x y =>
              lower line' = typed_move (x + 1) (y + 1) /\
              is_on_board x y = true /\
              exists fl,
                snd (is_valid_move (player_tile g) x y (board g)) = Ok (Tiles fl)
          end
    | (_, Done _ _) => False
    | (g', EOFError) => g' = g /\ Forall (passed_over lower g) (line :: rest)
    end).
  { intros Hpass.
    destruct (get_player_action lower rest g) as [g' [[act| |] rest'|]];
      [|done..|].
    - destruct IH as (-> & skipped & line' & -> & Hs & Hact).
      split; [done|]. exists (line :: skipped), line'.
      split; [done|]. split; [by constructor|done].
    - destruct IH as [-> Hall]. split; [done|by constructor]. }
  cbn [get_player_action].
  destruct (String.eqb_spec (lower line) "quit") as [Hq|Hq].
  { split; [done|]. exists [], line. split; [done|]. split; [constructor|done]. }
  destruct (String.eqb_spec (lower line) "hints") as [Hh|Hh].
  { split; [done|]. exists [], line. split; [done|]. split; [constructor|done]. }
  assert (Hpass :
    (forall x y, is_on_board x y = true -> lower line = typed_move (x + 1) (y + 1) ->
       snd (is_valid_move (player_tile g) x y (board g)) = Ok PyFalse) ->
    passed_over lower g line).
  { intros H. split; [exact Hq|]. split; [exact Hh|exact H]. }
  clear Hq Hh.
  destruct (lower line) as [|c0 [|c1 [|c2 s]]] eqn:Hline.
  1, 2, 4: apply Hskip, Hpass; intros x y _ Hty; unfold typed_move in Hty;
    discriminate Hty.
  assert (Htyped : forall x y,
            is_on_board x y = true ->
            String c0 (String c1 "") = typed_move (x + 1) (y + 1) ->
            valid_digit c0 = true /\ valid_digit c1 = true /\
            int_digit c0 - 1 = x /\ int_digit c1 - 1 = y).
  { intros x y [Hx Hy]%is_on_board_true Hty. unfold typed_move in Hty.
    injection Hty as -> ->.
    destruct (typed_digit (x + 1) ltac:(lia)) as [Hvx Hix].
    destruct (typed_digit (y + 1) ltac:(lia)) as [Hvy Hiy].
    rewrite Hvx, Hvy, Hix, Hiy. repeat split; lia. }
  destruct (valid_digit c0) eqn:H0.
  2: { apply Hskip, Hpass. intros x y Hon Hty.
       destruct (Htyped x y Hon Hty) as (Hv & _). discriminate Hv. }
  destruct (valid_digit c1) eqn:H1.
  2: { apply Hskip, Hpass. intros x y Hon Hty.
       destruct (Htyped x y Hon Hty) as (_ & Hv & _). discriminate Hv. }
  cbn [andb].
  destruct (valid_digit_spec c0 H0) as [Hr0 Hc0].
  destruct (valid_digit_spec c1 H1) as [Hr1 Hc1].
  assert (Hon : is_on_board (int_digit c0 - 1) (int_digit c1 - 1) = true)
    by (apply is_on_board_true; lia).
  unfold on_self_board. rewrite is_valid_move_on_board by done.
  rewrite set_board_same.
  destruct (truthy (evaluate (board g) (player_tile g) (int_digit c0 - 1)
                      (int_digit c1 - 1))) eqn:Ht; cbn [negb].
  2: { apply Hskip, Hpass. intros x y Hon' Hty.
       destruct (Htyped x y Hon' Hty) as (_ & _ & <- & <-).
       rewrite is_valid_move_on_board by done. cbn [snd].
       by rewrite evaluate_falsy. }
  split; [done|]. exists [], line. split; [done|]. split; [constructor|].
  split; [|split; [done|]].
  - unfold typed_move.
    replace (int_digit c0 - 1 + 1) with (int_digit c0) by lia.
    replace (int_digit c1 - 1 + 1) with (int_digit c1) by lia.
    by rewrite <- Hc0, <- Hc1.
  - by apply is_valid_move_Tiles_iff.
Qed.

(** X21.  On an 8x8 board [get_player_action] raises neither [IndexError]
    nor [KeyError] and leaves the game as it was.  It passes over every line
    that, in lower case, is neither ['quit'] nor ['hints'] nor the two digits
    of a cell that [is_valid_move] accepts for the player's tile, and stops
    at the first line that is one of these: it returns ['quit'] or ['hints']
    for the lines that spell them, and otherwise the move [[x, y]], where the
    line is the two digits [x + 1] and [y + 1] (column, then row, counted
    from 1), [x] and [y] are on the board and [is_valid_move] accepts the
    move.  When every line is passed over, it ends with the [EOFError] of
    [input()]. *)
Theorem get_player_action_result (lower : string -> string) (inputs : list string)
    (g : OthelloGame) :
  wf_game g ->
  match get_player_action lower inputs g with
  | (g', Done (Ok act) rest) =>
      g' = g /\
      exists skipped line,
        inputs = skipped ++ line :: rest /\
        Forall (passed_over lower g) skipped /\
        match act with
        | Quit => lower line = "quit"
        | Hints => lower line = "hints"
        | MoveAt x y =>
            lower line = typed_move (x + 1) (y + 1) /\
            is_on_board x y = true /\
            exists fl,
              snd (is_valid_move (player_tile g) x y (board g)) = Ok (Tiles fl)
        end
  | (_, Done _ _) => False
  | (g', EOFError) => g' = g /\ Forall (passed_over lower g) inputs
  end.
Proof. exact (get_player_action_spec lower inputs g). Qed.

Lemma get_player_action_result_witness :
  match get_player_action (fun s => s) ["xx"; "81"; "53"; "quit"] new_game with
  | (g', Done (Ok act) rest) =>
      g' = new_game /\
      exists skipped line,
        ["xx"; "81"; "53"; "quit"] = skipped ++ line :: rest /\
        Forall (passed_over (fun s => s) new_game) skipped /\
        match act with
        | Quit => line = "quit"
        | Hints => line = "hints"
        | MoveAt x y =>
            line = typed_move (x + 1) (y + 1) /\
            is_on_board x y = true /\
            exists fl,
              snd (is_valid_move (player_tile new_game) x y (board new_game))
              = Ok (Tiles fl)
        end
  | (_, Done _ _) => False
  | (g', EOFError) =>
      g' = new_game /\
      Forall (passed_over (fun s => s) new_game) ["xx"; "81"; "53"; "quit"]
  end.
Proof.
  apply (get_player_action_result (fun s => s) ["xx"; "81"; "53"; "quit"] new_game).
  apply new_game_wf.
Defined.

(** ** Coordinates off the board, and boards with a colour missing *)

(** X22.  On an 8x8 board the outcome of [is_valid_move] is decided by the
    range of the coordinates: both in 0..7, it returns normally; both in
    -8..7 but not both in 0..7, it returns [False] (a negative index counts
    from the far edge, then [is_on_board] fails); one below -8 or above 7, it
    raises [IndexError].  In all three cases the board is left as it was. *)
Theorem is_valid_move_by_range (b : Board) (tile : string) (x y : Z) :
  wf8 b ->
  fst (is_valid_move tile x y b) = b /\
  (is_on_board x y = true -> exists v, snd (is_valid_move tile x y b) = Ok v) /\
  (-8 <= x <= 7 -> -8 <= y <= 7 -> is_on_board x y = false ->
   snd (is_valid_move tile x y b) = Ok PyFalse) /\
  (x < -8 \/ 7 < x \/ y < -8 \/ 7 < y ->
   snd (is_valid_move tile x y b) = Raise IndexError).
Proof.
  intros Hwf. split; [by apply is_valid_move_frame|]. split; [|split].
  - intros Hon. rewrite is_valid_move_on_board by done. by eexists.
  - intros Hx Hy Hoff. by rewrite is_valid_move_wrapped.
  - intros Hout. by rewrite is_valid_move_past_edge.
Qed.

Lemma is_valid_move_by_range_witness :
  fst (is_valid_move "X" (-1) 4 initial_board) = initial_board /\
  snd (is_valid_move "X" (-1) 4 initial_board) = Ok PyFalse /\
  snd (is_valid_move "X" 3 8 initial_board) = Raise IndexError.
Proof.
  destruct (is_valid_move_by_range initial_board "X" (-1) 4) as (Hb & _ & Hw & _);
    [apply initial_board_inv|].
  destruct (is_valid_move_by_range initial_board "X" 3 8) as (_ & _ & _ & Hr);
    [apply initial_board_inv|].
  split; [exact Hb|]. split.
  - apply Hw; [lia|lia|reflexivity].
  - apply Hr. lia.
Defined.

(** A successful walk ends on a cell of the mover's colour. *)
Lemma spec_walk_anchor (b : Board) (tile other : string) (dx dy : Z) :
  forall (n : nat) (x y : Z) (l : list (Z * Z)),
    spec_walk n b tile other dx dy x y = Some l ->
    exists ax ay, is_on_board ax ay = true /\ get_cell b ax ay = Ok tile.
Proof.
  induction n as [|n IH]; intros x y l; [done|].
  cbn [spec_walk]. destruct (is_on_board x y) eqn:Hon; [|done].
  destruct (get_cell b x y) as [c| |] eqn:Hc; [|done..].
  destruct (String.eqb c other).
  - destruct (spec_walk n b tile other dx dy (x + dx) (y + dy)) as [l'|] eqn:E;
      [|done].
    intros _. by eapply IH.
  - destruct (String.eqb_spec c tile) as [->|]; [|done]. intros _. by exists x, y.
Qed.

Lemma get_cell_counted (b : Board) (x y : Z) (c : string) :
  get_cell b x y = Ok c -> 0 < count_cells c b.
Proof.
  intros (kx & ky & col & _ & Hcol & _ & Hc)%getitem2_Ok.
  unfold count_cells.
  assert (In c (concat b)) as Hin.
  { apply in_concat. exists col. split; apply list_elem_of_In, list_elem_of_lookup; eauto. }
  apply (count_occ_In string_dec) in Hin. lia.
Qed.

Lemma evaluate_needs_both (b : Board) (tile : string) (x y : Z) :
  truthy (evaluate b tile x y) = true ->
  0 < count_cells tile b /\ 0 < count_cells (opposite tile) b.
Proof.
  intros Ht. pose proof Ht as (Hev & _)%evaluate_truthy.
  rewrite Hev in Ht. cbn [truthy] in Ht.
  destruct (flips_farthest_first b tile x y) as [|p l] eqn:Hfl; [done|].
  assert (Hp : In p (flips_farthest_first b tile x y)) by (rewrite Hfl; by left).
  split.
  - unfold flips_farthest_first in Hp. apply in_concat in Hp as (l' & Hl' & Hp).
    apply in_map_iff in Hl' as (d & <- & Hd). apply in_rev in Hp.
    unfold spec_direction in Hp.
    destruct (spec_walk _ _ _ _ _ _ _ _) as [l0|] eqn:E; [|done].
    destruct (spec_walk_anchor _ _ _ _ _ _ _ _ _ E) as (ax & ay & _ & Ha).
    by eapply get_cell_counted.
  - destruct (flips_cells b tile x y p Hp) as (_ & Hc & _).
    by eapply get_cell_counted.
Qed.

(** X14.  A colour that is missing from an 8x8 board stops both sides: if
    [get_score] counts no ['X'] or no ['O'], [get_valid_moves] is empty for
    Black and for White. *)
Theorem no_moves_without_both_colours (b : Board) (scores : gmap string Z) :
  wf8 b -> get_score b = Ok scores ->
  scores !! "X" = Some 0 \/ scores !! "O" = Some 0 ->
  get_valid_moves "X" b = (b, Ok []) /\ get_valid_moves "O" b = (b, Ok []).
Proof.
  intros Hwf Hscore Hzero. rewrite get_score_wf in Hscore by done.
  injection Hscore as <-.
  assert (Hzero' : count_cells "X" b = 0 \/ count_cells "O" b = 0).
  { destruct Hzero as [H|H]; [left|right].
    - rewrite lookup_insert_eq in H. by injection H.
    - rewrite lookup_insert_ne, lookup_insert_eq in H by done. by injection H. }
  assert (H : forall tile, tile = "X" \/ tile = "O" -> legal_moves b tile = []).
  { intros tile Ht. destruct (legal_moves b tile) as [|[x y] l] eqn:Hl; [done|].
    assert (In (x, y) (legal_moves b tile)) as Hin by (rewrite Hl; by left).
    apply legal_moves_In, evaluate_needs_both in Hin as [H1 H2].
    destruct Ht as [-> | ->]; cbv [opposite String.eqb Ascii.eqb Bool.eqb] in H2; lia. }
  rewrite !get_valid_moves_wf by done.
  by rewrite !H by tauto.
Qed.

Lemma no_moves_without_both_colours_witness :
  get_valid_moves "X" (board (fst (step (4, 2) (fst (step (2, 4) new_game)))))
  = (board (fst (step (4, 2) (fst (step (2, 4) new_game)))), Ok []) /\
  get_valid_moves "O" (board (fst (step (4, 2) (fst (step (2, 4) new_game)))))
  = (board (fst (step (4, 2) (fst (step (2, 4) new_game)))), Ok []).
Proof.
  apply (no_moves_without_both_colours
           (board (fst (step (4, 2) (fst (step (2, 4) new_game)))))
           (<["X" := 6]> (<["O" := 0]> ∅))).
  - split; [reflexivity|]. vm_compute. repeat constructor.
  - vm_compute. reflexivity.
  - right. reflexivity.
Defined.

(** ** The interactive program *)

Lemma copy_with_valid_moves_wf (b : Board) (tile : string) :
  wf8 b -> exists h, copy_with_valid_moves tile b = Ok h /\ wf8 h.
Proof.
  intros Hwf. unfold copy_with_valid_moves. rewrite copy_wf by done.
  cbn [obind]. unfold bind. rewrite get_valid_moves_wf by done.
  destruct (write_cells_ok "." _ (legal_moves_on_board b tile) b Hwf)
    as (h & Hrun & Hwfh).
  rewrite Hrun. cbn [obind]. by exists h.
Qed.

Lemma tiles_set_cases (g : OthelloGame) :
  tiles_set g ->
  (player_tile g = "X" \/ player_tile g = "O") /\
  (computer_tile g = "X" \/ computer_tile g = "O").
Proof. intros [[-> ->]|[-> ->]]; split; auto. Qed.

Lemma score_of_tile (b : Board) (tile : string) :
  tile = "X" \/ tile = "O" ->
  score_of (<["X" := count_cells "X" b]> (<["O" := count_cells "O" b]> ∅)) tile
  = Ok (count_cells tile b).
Proof. by intros [-> | ->]. Qed.

Lemma show_points_wf (g : OthelloGame) :
  wf_game g -> tiles_set g -> show_points g = (g, Ok tt).
Proof.
  intros Hwf [Hp Hc]%tiles_set_cases.
  unfold show_points, bind, reading, ret.
  rewrite get_score_wf by done. by rewrite !score_of_tile.
Qed.

Lemma draw_board (g : OthelloGame) :
  wf_game g -> on_self_board draw g = (g, Ok tt).
Proof.
  intros Hwf. unfold on_self_board. rewrite draw_wf by done.
  by rewrite set_board_same.
Qed.

Lemma draw_hints (g : OthelloGame) :
  wf_game g ->
  (tile <- reading (fun self => Ok (player_tile self)) ;;
   valid_moves_board <-
     reading (fun self => copy_with_valid_moves tile (board self)) ;;
   _ <- on_local draw valid_moves_board ;;
   _ <- reading (fun self => list_to_array (board self)) ;;
   ret tt) g = (g, Ok tt).
Proof.
  intros Hwf.
  destruct (copy_with_valid_moves_wf (board g) (player_tile g) Hwf) as (h & Hh & Hwfh).
  unfold bind, reading, on_local, ret. rewrite Hh, (draw_wf h) by done.
  cbn [obind]. by rewrite list_to_array_wf.
Qed.

Lemma valid_moves_of (tile : OthelloGame -> string) (g : OthelloGame) :
  wf_game g ->
  (tile <- reading (fun self => Ok (tile self)) ;;
   on_self_board (get_valid_moves tile)) g
  = (g, Ok (legal_moves (board g) (tile g))).
Proof.
  intros Hwf. unfold bind, reading, on_self_board.
  rewrite get_valid_moves_wf by done. by rewrite set_board_same.
Qed.

Lemma move_of (tile : OthelloGame -> string) (g : OthelloGame) (x y : Z) :
  wf_game g -> truthy (evaluate (board g) (tile g) x y) = true ->
  exists nb,
    (tile <- reading (fun self => Ok (tile self)) ;;
     on_self_board (make_move tile x y)) g = (set_board nb g, Ok true) /\
    wf8 nb.
Proof.
  intros Hwf Hlegal.
  destruct (make_move_legal _ _ _ _ Hwf Hlegal) as (nb & Hmove & Hwfnb).
  exists nb. split; [|done].
  unfold bind, reading, on_self_board. by rewrite Hmove.
Qed.

Lemma legal_moves_nil (b : Board) (tile : string) :
  wf8 b -> legal_moves b tile = [] -> get_valid_moves tile b = (b, Ok []).
Proof. intros Hwf Hnil. rewrite get_valid_moves_wf by done. by rewrite Hnil. Qed.

Lemma length_eqb_0 {A} (l : list A) : Nat.eqb (length l) 0 = true <-> l = [].
Proof. destruct l; [done|]. cbn. split; discriminate. Qed.

(** After a move of either side: the loop breaks when both are stuck, and
    otherwise goes on with a side that can move. *)
Lemma stuck_of_tiles (g : OthelloGame) :
  wf_game g -> tiles_set g ->
  legal_moves (board g) (player_tile g) = [] ->
  legal_moves (board g) (computer_tile g) = [] ->
  stuck (board g).
Proof.
  intros Hwf [[Hp Hc]|[Hp Hc]] Hmine Htheirs; rewrite Hp in Hmine;
    rewrite Hc in Htheirs; split; apply legal_moves_nil.
  - exact Hwf.
  - exact Hmine.
  - exact Hwf.
  - exact Htheirs.
  - exact Hwf.
  - exact Htheirs.
  - exact Hwf.
  - exact Hmine.
Qed.

Lemma players_turn_spec (lower : string -> string) (w : world) :
  ready player (game w) ->
  match players_turn lower w with
  | (w', inl Break) =>
      (wf_game (game w') /\ tiles_set (game w') /\ stuck (board (game w'))) /\
      has_read w w' /\ keeps_scores (game w) (game w')
  | (w', inl (Next t)) =>
      ready t (game w') /\ has_read w w' /\ keeps_scores (game w) (game w')
  | (w', inr e) =>
      wf_game (game w') /\ left_by lower w w' e /\ keeps_scores (game w) (game w')
  end.
Proof.
  destruct w as [g ins k]. cbn [game]. intros (Hwf & Htiles & _).
  unfold players_turn, mbind, Prog_bind.
  unfold in_game at 1, reading at 1. cbn [game stdin computer_moves ended].
  assert (Hshow :
    (if show_hints g
     then in_game (tile <- reading (fun self => Ok (player_tile self)) ;;
                   valid_moves_board <-
                     reading (fun self => copy_with_valid_moves tile (board self)) ;;
                   _ <- on_local draw valid_moves_board ;;
                   _ <- reading (fun self => list_to_array (board self)) ;;
                   ret tt)
     else in_game (on_self_board draw))
      {| game := g; stdin := ins; computer_moves := k |}
    = ({| game := g; stdin := ins; computer_moves := k |}, inl tt)).
  { destruct (show_hints g); unfold in_game; cbn [game stdin computer_moves].
    - by rewrite draw_hints.
    - by rewrite draw_board. }
  rewrite Hshow. unfold in_game at 1. cbn [game stdin computer_moves].
  rewrite show_points_wf by done. cbn [ended].
  unfold from_keyboard. cbn [game stdin computer_moves].
  pose proof (get_player_action_spec lower ins g Hwf) as Hact.
  destruct (get_player_action lower ins g) as [g' [[act| |] rest|]];
    [|done..|].
  2: { destruct Hact as [-> _]. split; [done|]. split; [right|]; by split. }
  destruct Hact as (-> & skipped & line & Hins & _ & Hact). cbn [ended].
  assert (Hread : forall g' k',
            has_read {| game := g; stdin := ins; computer_moves := k |}
                     {| game := g'; stdin := rest; computer_moves := k' |}).
  { intros g' k'. by exists skipped, line. }
  destruct act as [| |x y].
  - unfold stop. split; [done|]. split; [|by split].
    left. split; [done|]. by exists skipped, line.
  - unfold in_game, writing, mret, Prog_ret. cbn [game stdin computer_moves ended].
    split; [|split; [apply Hread|split; reflexivity]].
    split; [exact Hwf|]. split; [exact Htiles|discriminate].
  - destruct Hact as (_ & Hon & Hfl).
    apply is_valid_move_Tiles_iff in Hfl; [|done].
    destruct (move_of player_tile g x y Hwf Hfl) as (nb & Hmove & Hwfnb).
    unfold in_game at 1. cbn [game stdin computer_moves]. rewrite Hmove.
    cbn [ended].
    assert (Hwf' : wf_game (set_board nb g)) by done.
    unfold in_game at 1. cbn [game stdin computer_moves].
    rewrite (valid_moves_of computer_tile) by done. cbn [ended].
    destruct (length (legal_moves (board (set_board nb g))
                        (computer_tile (set_board nb g))) =? 0)%nat eqn:Htheirs.
    + apply length_eqb_0 in Htheirs.
      unfold in_game at 1. cbn [game stdin computer_moves].
      rewrite (valid_moves_of player_tile) by done. cbn [ended].
      destruct (length (legal_moves (board (set_board nb g))
                          (player_tile (set_board nb g))) =? 0)%nat eqn:Hmine.
      * apply length_eqb_0 in Hmine. unfold mret, Prog_ret. cbn [game].
        split; [|split; [apply Hread|split; reflexivity]].
        split; [exact Hwf'|]. split; [exact Htiles|].
        apply stuck_of_tiles; [exact Hwf'|exact Htiles|exact Hmine|exact Htheirs].
      * unfold mret, Prog_ret. cbn [game].
        split; [|split; [apply Hread|split; reflexivity]].
        split; [exact Hwf'|]. split; [exact Htiles|discriminate].
    + unfold mret, Prog_ret. cbn [game].
      split; [|split; [apply Hread|split; reflexivity]].
      split; [exact Hwf'|]. split; [exact Htiles|]. intros _ Hnil.
      apply length_eqb_0 in Hnil. congruence.
Qed.

Lemma has_read_length (w w' : world) :
  has_read w w' -> (length (stdin w') < length (stdin w))%nat.
Proof.
  intros (pre & line & H). rewrite H, length_app. cbn [length]. lia.
Qed.

Lemma has_read_trans (w w' w'' : world) :
  has_read w w' -> has_read w' w'' -> has_read w w''.
Proof.
  intros (pre & line & H1) (pre' & line' & H2).
  exists (pre ++ line :: pre'), line'.
  rewrite H1, H2. by rewrite <- app_assoc.
Qed.

Lemma left_by_after (lower : string -> string) (w w' w'' : world) (e : ending) :
  has_read w w' -> left_by lower w' w'' e -> left_by lower w w'' e.
Proof.
  intros (pre & line & H1) [(-> & pre' & line' & H2 & Hq)|[-> Hnil]].
  - left. split; [done|]. exists (pre ++ line :: pre'), line'.
    split; [|done]. rewrite H1, H2. by rewrite <- app_assoc.
  - by right.
Qed.

Lemma keeps_scores_trans (g g' g'' : OthelloGame) :
  keeps_scores g g' -> keeps_scores g' g'' -> keeps_scores g g''.
Proof. intros [H1 H2] [H3 H4]. split; congruence. Qed.

Lemma computers_turn_spec (lower : string -> string)
    (shuffle : nat -> list (Z * Z) -> list (Z * Z)) (w : world) :
  (forall k l, Permutation (shuffle k l) l) ->
  ready computer (game w) ->
  match computers_turn shuffle w with
  | (w', inl Break) =>
      (wf_game (game w') /\ tiles_set (game w') /\ stuck (board (game w'))) /\
      has_read w w' /\ keeps_scores (game w) (game w')
  | (w', inl (Next t)) =>
      ready t (game w') /\ has_read w w' /\ keeps_scores (game w) (game w')
  | (w', inr e) =>
      wf_game (game w') /\ left_by lower w w' e /\ keeps_scores (game w) (game w')
  end.
Proof.
  destruct w as [g ins k]. cbn [game]. intros Hperm (Hwf & Htiles & Hcan).
  specialize (Hcan eq_refl).
  unfold computers_turn, mbind, Prog_bind.
  unfold in_game at 1. cbn [game stdin computer_moves].
  rewrite draw_board by done. cbn [ended].
  unfold in_game at 1. cbn [game stdin computer_moves].
  rewrite show_points_wf by done. cbn [ended].
  unfold input. cbn [game stdin computer_moves].
  destruct ins as [|line rest].
  { cbn [game]. split; [done|]. split; [right|]; by split. }
  assert (Hread : forall g' k',
            has_read {| game := g; stdin := line :: rest; computer_moves := k |}
                     {| game := g'; stdin := rest; computer_moves := k' |}).
  { intros g' k'. by exists [], line. }
  destruct (get_computer_move_spec (shuffle k) g
              (legal_moves (board g) (computer_tile g)) Hwf
              (proj2 (tiles_set_cases g Htiles)) (Hperm k)
              (get_valid_moves_wf _ _ Hwf)) as (mv & Hmv & _ & Hsome).
  destruct (Hsome Hcan) as (x & y & -> & Hin%legal_moves_In & _).
  unfold computer_move, in_game at 1. cbn [game stdin computer_moves].
  rewrite Hmv. cbn [game stdin computer_moves ended].
  destruct (move_of computer_tile g x y Hwf Hin) as (nb & Hmove & Hwfnb).
  unfold in_game at 1. cbn [game stdin computer_moves]. rewrite Hmove.
  cbn [ended].
  assert (Hwf' : wf_game (set_board nb g)) by done.
  unfold in_game at 1. cbn [game stdin computer_moves].
  rewrite (valid_moves_of player_tile) by done. cbn [ended].
  destruct (length (legal_moves (board (set_board nb g))
                      (player_tile (set_board nb g))) =? 0)%nat eqn:Hmine.
  - apply length_eqb_0 in Hmine.
    unfold in_game at 1. cbn [game stdin computer_moves].
    rewrite (valid_moves_of computer_tile) by done. cbn [ended].
    destruct (length (legal_moves (board (set_board nb g))
                        (computer_tile (set_board nb g))) =? 0)%nat eqn:Htheirs.
    + apply length_eqb_0 in Htheirs. unfold mret, Prog_ret. cbn [game].
      split; [|split; [apply Hread|split; reflexivity]].
      split; [exact Hwf'|]. split; [exact Htiles|].
      apply stuck_of_tiles; [exact Hwf'|exact Htiles|exact Hmine|exact Htheirs].
    + unfold mret, Prog_ret. cbn [game].
      split; [|split; [apply Hread|split; reflexivity]].
      split; [exact Hwf'|]. split; [exact Htiles|]. intros _ Hnil.
      apply length_eqb_0 in Hnil. congruence.
  - unfold mret, Prog_ret. cbn [game].
    split; [|split; [apply Hread|split; reflexivity]].
    split; [exact Hwf'|]. split; [exact Htiles|discriminate].
Qed.

Lemma play_spec (lower : string -> string)
    (shuffle : nat -> list (Z * Z) -> list (Z * Z)) :
  (forall k l, Permutation (shuffle k l) l) ->
  forall (fuel : nat) (t : turn) (w : world),
    ready t (game w) -> (length (stdin w) < fuel)%nat ->
    match play fuel lower shuffle t w with
    | (w', inl _) =>
        (wf_game (game w') /\ tiles_set (game w') /\ stuck (board (game w'))) /\
        has_read w w' /\ keeps_scores (game w) (game w')
    | (w', inr e) =>
        wf_game (game w') /\ left_by lower w w' e /\
        keeps_scores (game w) (game w')
    end.
Proof.
  intros Hperm. induction fuel as [|fuel IH]; intros t w Hready Hfuel; [lia|].
  cbn [play]. unfold mbind, Prog_bind.
  assert (Hturn :
    match (match t with
           | player => players_turn lower
           | computer => computers_turn shuffle
           end) w with
    | (w', inl Break) =>
        (wf_game (game w') /\ tiles_set (game w') /\ stuck (board (game w'))) /\
        has_read w w' /\ keeps_scores (game w) (game w')
    | (w', inl (Next t)) =>
        ready t (game w') /\ has_read w w' /\ keeps_scores (game w) (game w')
    | (w', inr e) =>
        wf_game (game w') /\ left_by lower w w' e /\
        keeps_scores (game w) (game w')
    end).
  { destruct t.
    - by apply players_turn_spec.
    - by apply computers_turn_spec. }
  destruct (match t with
            | player => players_turn lower
            | computer => computers_turn shuffle
            end w) as [w1 [[|t1]|e]]; [exact Hturn| |exact Hturn].
  destruct Hturn as (Hready1 & Hread1 & Hkept1).
  pose proof (has_read_length _ _ Hread1) as Hlen.
  specialize (IH t1 w1 Hready1 ltac:(lia)).
  destruct (play fuel lower shuffle t1 w1) as [w2 [[]|e]].
  - destruct IH as (Hend & Hread2 & Hkept2). split; [exact Hend|]. split.
    + by eapply has_read_trans.
    + by eapply keeps_scores_trans.
  - destruct IH as (Hwf2 & Hleft & Hkept2). split; [exact Hwf2|]. split.
    + by eapply left_by_after.
    + by eapply keeps_scores_trans.
Qed.

Lemma final_score_spec (w : world) :
  wf_game (game w) -> tiles_set (game w) ->
  final_score w
  = ({| game := set_computer_score
                  (count_cells (computer_tile (game w)) (board (game w)))
                  (set_player_score
                     (count_cells (player_tile (game w)) (board (game w)))
                     (game w));
        stdin := stdin w;
        computer_moves := computer_moves w |}, inl tt).
Proof.
  destruct w as [g ins k]. cbn [game stdin computer_moves].
  intros Hwf Htiles. pose proof (tiles_set_cases g Htiles) as [Hp Hc].
  unfold final_score, mbind, Prog_bind.
  unfold in_game at 1. cbn [game stdin computer_moves].
  rewrite draw_board by done. cbn [ended].
  unfold in_game, bind, reading, writing. cbn [game stdin computer_moves].
  rewrite get_score_wf by done. rewrite score_of_tile by done.
  cbn [computer_tile set_player_score]. by rewrite score_of_tile.
Qed.

Lemma initial_board_moves : legal_moves initial_board "X" <> [].
Proof. vm_compute. discriminate. Qed.

Lemma one_game_spec (lower upper : string -> string)
    (shuffle : nat -> list (Z * Z) -> list (Z * Z)) (w : world) :
  (forall k l, Permutation (shuffle k l) l) ->
  wf_game (game w) ->
  match one_game lower upper shuffle w with
  | (w', inl _) =>
      (wf_game (game w') /\ tiles_set (game w') /\ stuck (board (game w'))) /\
      has_read w w' /\
      player_score (game w')
      = count_cells (player_tile (game w')) (board (game w')) /\
      computer_score (game w')
      = count_cells (computer_tile (game w')) (board (game w'))
  | (w', inr e) =>
      wf_game (game w') /\ left_by lower w w' e /\
      keeps_scores (game w) (game w')
  end.
Proof.
  destruct w as [g ins k]. cbn [game]. intros Hperm Hwf.
  unfold one_game, mbind at 1, Prog_bind at 1.
  unfold in_game at 1, on_self_board. cbn [game stdin computer_moves].
  rewrite reset_wf by done. cbn [ended].
  unfold mbind at 1, Prog_bind at 1, from_keyboard. cbn [game stdin computer_moves].
  pose proof (choose_player_tile_spec upper ins (set_board initial_board g)) as Hch.
  destruct (choose_player_tile upper ins (set_board initial_board g))
    as [g1 [[[]| |] rest|]]; [|done..|].
  2: { destruct Hch as [-> _]. split; [apply initial_board_inv|].
       split; [right|]; by split. }
  destruct Hch as (Htiles & (skipped & line & Hins & _) & Hb & Hps & Hcs & _).
  cbn [ended].
  unfold mbind at 1, Prog_bind at 1, in_game at 1, writing.
  cbn [game stdin computer_moves ended].
  unfold mbind at 1, Prog_bind at 1, in_game at 1, reading.
  cbn [game stdin computer_moves ended].
  unfold mbind at 1, Prog_bind at 1, lines_left. cbn [stdin].
  set (g2 := set_show_hints true g1).
  assert (Hwf2 : wf_game g2).
  { unfold wf_game, g2. cbn [board set_show_hints]. rewrite Hb.
    apply initial_board_inv. }
  assert (Htiles2 : tiles_set g2) by exact Htiles.
  assert (Hkept0 : keeps_scores g g2) by (split; [exact Hps|exact Hcs]).
  set (w2 := {| game := g2; stdin := rest; computer_moves := k |}).
  set (t := if String.eqb (player_tile g2) "X" then player else computer).
  assert (Hready : ready t (game w2)).
  { split; [exact Hwf2|]. split; [exact Htiles2|]. intros Ht.
    unfold w2, g2. cbn [game board computer_tile set_show_hints]. rewrite Hb.
    cbn [board set_board].
    destruct Htiles as [[Hp Hc]|[Hp Hc]].
    - unfold t, g2 in Ht. cbn [player_tile set_show_hints] in Ht.
      rewrite Hp in Ht. discriminate Ht.
    - rewrite Hc. apply initial_board_moves. }
  assert (Hread0 : has_read {| game := g; stdin := ins; computer_moves := k |} w2).
  { by exists skipped, line. }
  pose proof (play_spec lower shuffle Hperm (S (length rest)) t w2 Hready
                ltac:(cbn [stdin w2]; lia)) as Hplay.
  unfold mbind, Prog_bind.
  destruct (play (S (length rest)) lower shuffle t w2) as [w3 [[]|e]].
  - destruct Hplay as ((Hwf3 & Htiles3 & Hstuck) & Hread & _).
    cbv beta. rewrite final_score_spec by done. cbn [game].
    split; [split; [exact Hwf3|split; [exact Htiles3|exact Hstuck]]|].
    split; [|split; reflexivity].
    eapply has_read_trans; [exact Hread0|].
    destruct Hread as (pre & l & Hpre). by exists pre, l.
  - destruct Hplay as (Hwf3 & Hleft & Hkept). split; [exact Hwf3|]. split.
    + by eapply left_by_after.
    + by eapply keeps_scores_trans.
Qed.

Lemma games_spec (lower upper : string -> string)
    (shuffle : nat -> list (Z * Z) -> list (Z * Z)) :
  (forall k l, Permutation (shuffle k l) l) ->
  forall (fuel : nat) (w : world),
    wf_game (game w) -> (length (stdin w) < fuel)%nat ->
    exists w' e,
      games fuel lower upper shuffle w = (w', inr e) /\
      wf_game (game w') /\ left_by lower w w' e.
Proof.
  intros Hperm. induction fuel as [|fuel IH]; intros w Hwf Hfuel; [lia|].
  cbn [games]. unfold mbind, Prog_bind.
  pose proof (one_game_spec lower upper shuffle w Hperm Hwf) as Hone.
  destruct (one_game lower upper shuffle w) as [w1 [[]|e]].
  - destruct Hone as ((Hwf1 & _) & Hread & _).
    pose proof (has_read_length _ _ Hread) as Hlen.
    destruct (IH w1 Hwf1 ltac:(lia)) as (w' & e & Hrun & Hwf' & Hleft).
    exists w', e. split; [exact Hrun|]. split; [exact Hwf'|].
    by eapply left_by_after.
  - destruct Hone as (Hwf1 & Hleft & _). by exists w1, e.
Qed.

(** X23.  From an 8x8 board and for any shuffles, [run_interactive] never
    returns and never raises [IndexError], [KeyError] or [ValueError]: it is
    left by [sys.exit()] at a line that reads ['quit'] in lower case, the
    lines after it unread, or by [EOFError] when the lines run out.  In
    particular [get_computer_move] is only called when the computer has a
    move. *)
Theorem run_interactive_ends (lower upper : string -> string)
    (shuffle : nat -> list (Z * Z) -> list (Z * Z)) (w : world) :
  wf_game (game w) ->
  (forall k l, Permutation (shuffle k l) l) ->
  exists w' e,
    run_interactive lower upper shuffle w = (w', inr e) /\
    wf_game (game w') /\
    ((e = SystemExit /\
      exists pre line, stdin w = pre ++ line :: stdin w' /\ lower line = "quit") \/
     (e = EndOfInput /\ stdin w' = [])).
Proof.
  intros Hwf Hperm. unfold run_interactive, mbind, Prog_bind, lines_left.
  apply (games_spec lower upper shuffle Hperm); [exact Hwf|lia].
Qed.

Lemma run_interactive_ends_witness :
  exists w' e,
    run_interactive (fun s => s) (fun s => s) (fun _ l => l)
      (keyboard_game ["O"; ""; "34"; "hints"; ""; "quit"; "X"]) = (w', inr e) /\
    wf_game (game w') /\
    ((e = SystemExit /\
      exists pre line,
        stdin (keyboard_game ["O"; ""; "34"; "hints"; ""; "quit"; "X"])
        = pre ++ line :: stdin w' /\ line = "quit") \/
     (e = EndOfInput /\ stdin w' = [])).
Proof.
  apply (run_interactive_ends (fun s => s) (fun s => s) (fun _ l => l)
           (keyboard_game ["O"; ""; "34"; "hints"; ""; "quit"; "X"])).
  - apply new_game_wf.
  - intros k l. reflexivity.
Defined.

(** X24.  The inner loop of [run_interactive], entered on an 8x8 board with
    the two colours dealt and, when it is the computer's turn, a move for the
    computer.  When it ends by [break], [get_valid_moves] is empty for both
    colours on the final board and at least one line was read.  Otherwise
    the program is left by [sys.exit()] at a line that reads ['quit'], the
    lines after it unread, or by [EOFError] with no line left, which on an
    empty input happens before any line is read.  In every case the board
    is 8x8 and the two score fields are as they were. *)
Theorem play_breaks_when_stuck (lower : string -> string)
    (shuffle : nat -> list (Z * Z) -> list (Z * Z)) (fuel : nat) (t : turn)
    (w : world) :
  wf_game (game w) -> tiles_set (game w) ->
  (t = computer ->
   snd (get_valid_moves (computer_tile (game w)) (board (game w))) <> Ok []) ->
  (forall k l, Permutation (shuffle k l) l) ->
  (length (stdin w) < fuel)%nat ->
  match play fuel lower shuffle t w with
  | (w', inl _) =>
      (wf_game (game w') /\ tiles_set (game w') /\ stuck (board (game w'))) /\
      has_read w w' /\ keeps_scores (game w) (game w')
  | (w', inr e) =>
      wf_game (game w') /\ left_by lower w w' e /\ keeps_scores (game w) (game w')
  end.
Proof.
  intros Hwf Htiles Hcan Hperm Hfuel. apply play_spec; [exact Hperm| |exact Hfuel].
  split; [exact Hwf|]. split; [exact Htiles|]. intros Ht Hnil.
  apply (Hcan Ht). rewrite get_valid_moves_wf by done. cbn [snd]. by rewrite Hnil.
Qed.

Lemma play_breaks_when_stuck_witness :
  match play 11 (fun s => s) (fun _ l => l) player
          (keyboard_game ["46"; ""; "43"; ""; "64"; ""; "35"; ""; "53"; ""]) with
  | (w', inl _) =>
      (wf_game (game w') /\ tiles_set (game w') /\ stuck (board (game w'))) /\
      has_read (keyboard_game ["46"; ""; "43"; ""; "64"; ""; "35"; ""; "53"; ""]) w' /\
      keeps_scores new_game (game w')
  | (w', inr e) =>
      wf_game (game w') /\
      left_by (fun s => s)
        (keyboard_game ["46"; ""; "43"; ""; "64"; ""; "35"; ""; "53"; ""]) w' e /\
      keeps_scores new_game (game w')
  end.
Proof.
  apply (play_breaks_when_stuck (fun s => s) (fun _ l => l) 11 player
           (keyboard_game ["46"; ""; "43"; ""; "64"; ""; "35"; ""; "53"; ""])).
  - apply new_game_wf.
  - left. split; reflexivity.
  - intros Ht. discriminate Ht.
  - intros k l. reflexivity.
  - cbn [keyboard_game stdin length]. lia.
Defined.

(** X25.  One game of [run_interactive], from an 8x8 board and for any
    shuffles: when the game is played to its end, neither colour has a move
    on the final board and the two score fields hold what [get_score] counts
    on it for the player's and for the computer's tile; when the program is
    left before that, the score fields are still what they were before the
    game. *)
Theorem one_game_records_score (lower upper : string -> string)
    (shuffle : nat -> list (Z * Z) -> list (Z * Z)) (w : world) :
  wf_game (game w) ->
  (forall k l, Permutation (shuffle k l) l) ->
  match one_game lower upper shuffle w with
  | (w', inl _) =>
      stuck (board (game w')) /\
      exists scores,
        get_score (board (game w')) = Ok scores /\
        scores !! player_tile (game w') = Some (player_score (game w')) /\
        scores !! computer_tile (game w') = Some (computer_score (game w'))
  | (w', inr e) =>
      (e = SystemExit \/ e = EndOfInput) /\ keeps_scores (game w) (game w')
  end.
Proof.
  intros Hwf Hperm.
  pose proof (one_game_spec lower upper shuffle w Hperm Hwf) as Hone.
  destruct (one_game lower upper shuffle w) as [w1 [[]|e]].
  - destruct Hone as ((Hwf1 & Htiles1 & Hstuck) & _ & Hps & Hcs).
    split; [exact Hstuck|]. eexists. split; [by apply get_score_wf|].
    rewrite Hps, Hcs.
    destruct Htiles1 as [[-> ->]|[-> ->]]; split; reflexivity.
  - destruct Hone as (_ & [[-> _]|[-> _]] & Hkept); split; auto.
Qed.

Lemma one_game_records_score_witness :
  match one_game (fun s => s) (fun s => s) (fun _ l => l)
          (keyboard_game ["O"; ""; "34"; ""; "36"; ""; "43"; ""; "25"; ""; "quit"]) with
  | (w', inl _) =>
      stuck (board (game w')) /\
      exists scores,
        get_score (board (game w')) = Ok scores /\
        scores !! player_tile (game w') = Some (player_score (game w')) /\
        scores !! computer_tile (game w') = Some (computer_score (game w'))
  | (w', inr e) =>
      (e = SystemExit \/ e = EndOfInput) /\ keeps_scores new_game (game w')
  end.
Proof.
  apply (one_game_records_score (fun s => s) (fun s => s) (fun _ l => l)
           (keyboard_game ["O"; ""; "34"; ""; "36"; ""; "43"; ""; "25"; ""; "quit"])).
  - apply new_game_wf.
  - intros k l. reflexivity.
Defined.

(** X26.  [start] of a game that is not interactive, on an 8x8 board: it
    puts the starting position on the board, deals the tiles by the first
    line whose upper case is ['X'] or ['O'], switches the hints off and keeps
    the two score fields; with no such line it ends with [EOFError]. *)
Theorem start_without_loop (lower upper : string -> string)
    (shuffle : nat -> list (Z * Z) -> list (Z * Z)) (w : world) :
  wf_game (game w) -> interactive (game w) = false ->
  match start lower upper shuffle w with
  | (w', inl _) =>
      board (game w') = initial_board /\ show_hints (game w') = false /\
      tiles_set (game w') /\ keeps_scores (game w) (game w') /\
      exists skipped line,
        stdin w = skipped ++ line :: stdin w' /\
        upper line = player_tile (game w') /\
        Forall (fun l => upper l <> "X" /\ upper l <> "O") skipped
  | (w', inr e) =>
      e = EndOfInput /\ board (game w') = initial_board /\
      Forall (fun l => upper l <> "X" /\ upper l <> "O") (stdin w)
  end.
Proof.
  destruct w as [g ins k]. cbn [game stdin]. intros Hwf Hint.
  unfold start, mbind at 1, Prog_bind at 1, in_game at 1, reading at 1.
  cbn [game stdin computer_moves ended]. rewrite Hint.
  unfold mbind at 1, Prog_bind at 1, in_game at 1, on_self_board.
  cbn [game stdin computer_moves]. rewrite reset_wf by done. cbn [ended].
  unfold mbind, Prog_bind, from_keyboard. cbn [game stdin computer_moves].
  pose proof (choose_player_tile_spec upper ins (set_board initial_board g)) as Hch.
  destruct (choose_player_tile upper ins (set_board initial_board g))
    as [g1 [[[]| |] rest|]]; [|done..|].
  - destruct Hch as (Htiles & Hline & Hb & Hps & Hcs & _). cbn [ended].
    unfold in_game, writing. cbn [game stdin computer_moves ended].
    split; [exact Hb|]. split; [reflexivity|]. split; [exact Htiles|].
    split; [split; [exact Hps|exact Hcs]|exact Hline].
  - destruct Hch as [-> Hnone]. cbn [game]. by repeat split.
Qed.

Lemma start_without_loop_witness :
  match start (fun s => s) (fun s => s) (fun _ l => l)
          (keyboard_game ["?"; "O"; "34"]) with
  | (w', inl _) =>
      board (game w') = initial_board /\ show_hints (game w') = false /\
      tiles_set (game w') /\ keeps_scores new_game (game w') /\
      exists skipped line,
        ["?"; "O"; "34"] = skipped ++ line :: stdin w' /\
        line = player_tile (game w') /\
        Forall (fun l => l <> "X" /\ l <> "O") skipped
  | (w', inr e) =>
      e = EndOfInput /\ board (game w') = initial_board /\
      Forall (fun l => l <> "X" /\ l <> "O") ["?"; "O"; "34"]
  end.
Proof.
  apply (start_without_loop (fun s => s) (fun s => s) (fun _ l => l)
           (keyboard_game ["?"; "O"; "34"])).
  - apply new_game_wf.
  - reflexivity.
Defined.
